(** * ProjectFlow: a shallow embedding of the server

    The development follows the three server files of the repository:

    - the schema ([pgTable] declarations, enums and insert schemas),
    - the storage adapter ([DatabaseStorage]),
    - the routes ([registerRoutes]: middleware, handlers, [broadcast]).

    The relational database is modelled by four tables held as lists of
    rows, in insertion order; a query [const [x] = await db.select()...]
    reads the head of the filtered table.  Statements are atomic: a statement
    that violates a constraint of the schema throws and leaves the tables as
    they were.  Values drawn by the environment (the clock, [gen_random_uuid()],
    [randomBytes], the bcrypt salt) are inputs of a step, gathered in [Env].
    Identifiers range over well-formed uuids and are kept as strings: the
    syntax check of a uuid column is not modelled.

    A [string] is a sequence of characters, one [ascii] for each character
    (the code points below 256), so [String.length] counts characters, as
    the [max] of a zod string and [varchar(n)] do on such texts.

    Request bodies are JavaScript objects: finite maps from property names
    to JSON values.  The bodies of this API carry strings and [null] only,
    and so does [jsval]. *)

From Stdlib Require Import ZArith Ascii String.
From stdpp Require Import base decidable option list sorting strings gmap.

Local Open Scope string_scope.
Local Open Scope Z_scope.
Local Open Scope list_scope.

(** ** Schema: enums *)

Inductive TaskStatus := todo | in_progress | done_.
Inductive TaskPriority := low | medium | high.
Inductive ProjectStatus := active | completed | on_hold.
Inductive MemberRole := owner | member.

#[global] Instance TaskStatus_eq_dec : EqDecision TaskStatus.
Proof. solve_decision. Defined.
#[global] Instance TaskPriority_eq_dec : EqDecision TaskPriority.
Proof. solve_decision. Defined.
#[global] Instance ProjectStatus_eq_dec : EqDecision ProjectStatus.
Proof. solve_decision. Defined.
#[global] Instance MemberRole_eq_dec : EqDecision MemberRole.
Proof. solve_decision. Defined.

(** The labels of [pgEnum]: a string that is no label is not a value of the
    enum. *)
Definition taskStatusEnum (s : string) : option TaskStatus :=
  if decide (s = "todo") then Some todo
  else if decide (s = "in_progress") then Some in_progress
  else if decide (s = "done") then Some done_
  else None.

Definition taskPriorityEnum (s : string) : option TaskPriority :=
  if decide (s = "low") then Some low
  else if decide (s = "medium") then Some medium
  else if decide (s = "high") then Some high
  else None.

Definition projectStatusEnum (s : string) : option ProjectStatus :=
  if decide (s = "active") then Some active
  else if decide (s = "completed") then Some completed
  else if decide (s = "on_hold") then Some on_hold
  else None.

Definition memberRoleEnum (s : string) : option MemberRole :=
  if decide (s = "owner") then Some owner
  else if decide (s = "member") then Some member
  else None.

(** ** Schema: rows of the four tables *)

Module User.
Record t := mk {
  id : string;
  firstName : string;
  lastName : string;
  email : string;
  password : string;
  profileImageUrl : option string;
  createdAt : Z;
  updatedAt : Z }.
End User.

Module Project.
Record t := mk {
  id : string;
  name : string;
  description : option string;
  inviteCode : string;
  status : ProjectStatus;
  deadline : option Z;
  createdBy : string;
  createdAt : Z;
  updatedAt : Z }.
End Project.

Module ProjectMember.
Record t := mk {
  id : string;
  projectId : string;
  userId : string;
  role : MemberRole;
  joinedAt : Z }.
End ProjectMember.

Module Task.
Record t := mk {
  id : string;
  title : string;
  description : option string;
  status : TaskStatus;
  priority : TaskPriority;
  projectId : string;
  assigneeId : option string;
  createdBy : string;
  createdAt : Z;
  updatedAt : Z }.
End Task.

#[global] Instance User_eq_dec : EqDecision User.t.
Proof. solve_decision. Defined.
#[global] Instance Project_eq_dec : EqDecision Project.t.
Proof. solve_decision. Defined.
#[global] Instance ProjectMember_eq_dec : EqDecision ProjectMember.t.
Proof. solve_decision. Defined.
#[global] Instance Task_eq_dec : EqDecision Task.t.
Proof. solve_decision. Defined.

(** The database: the tables [users], [projects], [project_members] and
    [tasks]. *)
Record Store := mkStore {
  users : list User.t;
  projects : list Project.t;
  projectMembers : list ProjectMember.t;
  tasks : list Task.t }.

Definition emptyStore : Store := mkStore [] [] [] [].

(** Extended types for API responses.  [row] is the spread [...project] or
    [...task.tasks]; a side of a left join without a match is [None]. *)
Record ProjectWithMembers := mkPWM {
  pwm_row : Project.t;
  pwm_members : list (ProjectMember.t * option User.t);
  pwm_tasks : list Task.t;
  pwm_creator : option User.t }.

Record TaskWithDetails := mkTWD {
  twd_row : Task.t;
  twd_assignee : option User.t;
  twd_creator : option User.t;
  twd_project : option Project.t }.

(** ** JSON values and request bodies *)

Inductive jsval := JNull | JStr (s : string).

#[global] Instance jsval_eq_dec : EqDecision jsval.
Proof. solve_decision. Defined.

(** JavaScript truthiness of [v] where [v] may be [undefined]. *)
Definition truthy (v : option jsval) : option string :=
  match v with
  | Some (JStr s) => if decide (s = EmptyString) then None else Some s
  | _ => None
  end.

(** ** Errors thrown by the validation schemas and by the database *)

Inductive DbError :=
| UniqueViolation | ForeignKeyViolation | NotNullViolation
| InvalidEnumValue | ValueTooLong | CharacterNotInRepertoire.

(** [RangeError]: [toISOString()] of an invalid [Date]; [TypeError]:
    [toISOString()] of a value that is no [Date].  Both are thrown while the
    query is built, when a value meets a timestamp column. *)
Inductive exn := ZodError | RangeError | TypeError | DbErr (e : DbError).

Inductive outcome (A : Type) := Ok (a : A) | Throw (e : exn).
Arguments Ok {A} a.
Arguments Throw {A} e.

#[global] Instance outcome_ret : MRet outcome := λ A a, Ok a.
#[global] Instance outcome_bind : MBind outcome := λ A B f m,
  match m with Ok a => f a | Throw e => Throw e end.

Definition guard_db (b : bool) (e : DbError) : outcome unit :=
  if b then Ok tt else Throw (DbErr e).

(** Values the environment draws while one request is served. *)
Record Env := mkEnv {
  now : Z;                       (* [new Date()], [defaultNow()] *)
  uuid1 : string;                (* first [gen_random_uuid()] of the request *)
  uuid2 : string;                (* second one *)
  random : nat → Byte.byte;      (* the stream read by [randomBytes] *)
  salt : string }.               (* the salt drawn by [bcrypt.hash] *)

(** ** The storage adapter: queries *)

(** [a.leftJoin(b, on)]: every row of [a] with each matching row of [b], or
    with [null] when none matches. *)
Definition leftJoin {A B : Type} (on : A → B → bool)
    (l : list A) (r : list B) : list (A * option B) :=
  l ≫= λ a,
    match filter (λ b, on a b) r with
    | [] => [(a, None)]
    | bs => (λ b, (a, Some b)) <$> bs
    end.

Definition getUser (id : string) (s : Store) : option User.t :=
  head (filter (λ u, User.id u = id) (users s)).

Definition getUserByEmail (email : string) (s : Store) : option User.t :=
  head (filter (λ u, User.email u = email) (users s)).

Definition getProject (id : string) (s : Store) : option Project.t :=
  head (filter (λ p, Project.id p = id) (projects s)).

Definition getProjectMembers (projectId : string) (s : Store)
    : list (ProjectMember.t * option User.t) :=
  filter (λ mu, ProjectMember.projectId mu.1 = projectId)
    (leftJoin (λ m u, bool_decide (ProjectMember.userId m = User.id u))
       (projectMembers s) (users s)).

(** The object built both by [getProjectWithMembers] and by the loop of
    [getUserProjects]: the row, its members joined with their users, its
    tasks and its creator. *)
Definition withMembers (s : Store) (project : Project.t) : ProjectWithMembers :=
  {| pwm_row := project;
     pwm_members := getProjectMembers (Project.id project) s;
     pwm_tasks := filter (λ t, Task.projectId t = Project.id project) (tasks s);
     pwm_creator := head (filter (λ u, User.id u = Project.createdBy project) (users s)) |}.

Definition getProjectWithMembers (id : string) (s : Store) : option ProjectWithMembers :=
  match head (filter (λ p, Project.id p = id) (projects s)) with
  | None => None
  | Some project => Some (withMembers s project)
  end.

(** [orderBy(desc(projects.updatedAt))] *)
Definition desc_updatedAt (p q : Project.t) : Prop :=
  Project.updatedAt q ≤ Project.updatedAt p.

#[global] Instance desc_updatedAt_dec p q : Decision (desc_updatedAt p q).
Proof. unfold desc_updatedAt. apply _. Defined.

Definition getUserProjects (userId : string) (s : Store) : list ProjectWithMembers :=
  let projectIds :=
    ProjectMember.projectId <$> filter (λ m, ProjectMember.userId m = userId) (projectMembers s) in
  match projectIds with
  | [] => []
  | _ =>
    let userProjects :=
      merge_sort desc_updatedAt (filter (λ p, Project.id p ∈ projectIds) (projects s)) in
    withMembers s <$> userProjects
  end.

Definition getProjectByInviteCode (inviteCode : string) (s : Store) : option Project.t :=
  head (filter (λ p, Project.inviteCode p = inviteCode) (projects s)).

Definition getUserProjectRole (projectId userId : string) (s : Store) : option MemberRole :=
  ProjectMember.role <$>
    head (filter (λ m, ProjectMember.projectId m = projectId ∧ ProjectMember.userId m = userId)
            (projectMembers s)).

(** [tasks LEFT JOIN users ON assignee_id = users.id
          LEFT JOIN projects ON project_id = projects.id] *)
Definition tasksJoined (s : Store) : list ((Task.t * option User.t) * option Project.t) :=
  leftJoin (λ tu p, bool_decide (Task.projectId tu.1 = Project.id p))
    (leftJoin (λ t u, bool_decide (Task.assigneeId t = Some (User.id u))) (tasks s) (users s))
    (projects s).

(** The object built from one joined row by [getTask], [getProjectTasks] and
    [getUserTasks]. *)
Definition withDetails (s : Store) (task : (Task.t * option User.t) * option Project.t)
    : TaskWithDetails :=
  {| twd_row := task.1.1;
     twd_assignee := task.1.2;
     twd_creator := head (filter (λ u, User.id u = Task.createdBy task.1.1) (users s));
     twd_project := task.2 |}.

Definition getTask (id : string) (s : Store) : option TaskWithDetails :=
  match head (filter (λ j, Task.id j.1.1 = id) (tasksJoined s)) with
  | None => None
  | Some task => Some (withDetails s task)
  end.

(** [orderBy(desc(tasks.createdAt))] *)
Definition desc_createdAt (a b : (Task.t * option User.t) * option Project.t) : Prop :=
  Task.createdAt b.1.1 ≤ Task.createdAt a.1.1.

#[global] Instance desc_createdAt_dec a b : Decision (desc_createdAt a b).
Proof. unfold desc_createdAt. apply _. Defined.

Definition getProjectTasks (projectId : string) (s : Store) : list TaskWithDetails :=
  withDetails s <$>
    merge_sort desc_createdAt (filter (λ j, Task.projectId j.1.1 = projectId) (tasksJoined s)).

Definition getUserTasks (userId : string) (s : Store) : list TaskWithDetails :=
  withDetails s <$>
    merge_sort desc_createdAt (filter (λ j, Task.assigneeId j.1.1 = Some userId) (tasksJoined s)).

(** ** The storage adapter: statements *)

(** A computation on a state [Σ] that may throw.  The state is threaded
    through, and a throw keeps what earlier statements of the same
    computation wrote: no multi-statement transaction is used. *)
Definition St (Σ A : Type) : Type := Σ → outcome A * Σ.

Definition st_ret {Σ A} (a : A) : St Σ A := λ s, (Ok a, s).
Definition st_bind {Σ A B} (m : St Σ A) (f : A → St Σ B) : St Σ B := λ s,
  match m s with
  | (Ok a, s') => f a s'
  | (Throw e, s') => (Throw e, s')
  end.
Definition st_query {Σ A} (q : Σ → A) : St Σ A := λ s, (Ok (q s), s).

Declare Scope st_scope.
Delimit Scope st_scope with st.
Notation "'let*' x ':=' m 'in' k" := (st_bind m (λ x, k))
  (at level 10, x name, m at level 100, k at level 200, only parsing) : st_scope.

(** A computation on the database. *)
Abbreviation Db := (St Store).

Module InsertUser.
Record t := mk {
  firstName : string;
  lastName : string;
  email : string;
  password : string;
  profileImageUrl : option string }.
End InsertUser.

Module InsertProject.
(** [deadline] is what the transform of [insertProjectSchema] returns:
    [undefined], or a [Date] that is invalid ([Some None]) when the string
    does not parse. *)
Record t := mk {
  name : string;
  description : option string;
  status : option ProjectStatus;
  deadline : option (option Z) }.
End InsertProject.

Module InsertProjectMember.
Record t := mk {
  projectId : string;
  userId : string;
  role : option MemberRole }.
End InsertProjectMember.

Module InsertTask.
Record t := mk {
  title : string;
  description : option string;
  status : option TaskStatus;
  priority : option TaskPriority;
  projectId : string;
  assigneeId : option string }.
End InsertTask.

Definition fits (n : nat) (s : string) : bool := bool_decide (String.length s ≤ n)%nat.
Definition fits_opt (n : nat) (s : option string) : bool :=
  match s with Some x => fits n x | None => true end.

(** PostgreSQL stores no character U+0000: a string with one is refused as a
    value of a [text] or [varchar] column. *)
Fixpoint text (s : string) : bool :=
  match s with
  | EmptyString => true
  | String c s' => negb (Ascii.eqb c zero) && text s'
  end.
Definition text_opt (s : option string) : bool :=
  match s with Some x => text x | None => true end.

Fixpoint spaces (s : string) : bool :=
  match s with
  | EmptyString => true
  | String c s' => Ascii.eqb c " " && spaces s'
  end.

(** The value a [varchar(n)] column stores: when the characters beyond the
    [n]th are all spaces the value is cut to [n] characters; what is still
    longer than [n] is refused by the [fits] of the constraints. *)
Definition varchar (n : nat) (s : string) : string :=
  if fits n s then s
  else if spaces (substring n (String.length s - n) s) then substring 0 n s
  else s.
Definition references_user (s : Store) (id : string) : bool :=
  bool_decide (id ∈ User.id <$> users s).
Definition references_project (s : Store) (id : string) : bool :=
  bool_decide (id ∈ Project.id <$> projects s).

(** [INSERT INTO users]: the texts, varchar lengths, primary key, [unique()]
    on email. *)
Definition users_constraints (s : Store) (u : User.t) : outcome unit :=
  guard_db (text (User.firstName u)) CharacterNotInRepertoire ;;
  guard_db (text (User.lastName u)) CharacterNotInRepertoire ;;
  guard_db (text (User.email u)) CharacterNotInRepertoire ;;
  guard_db (text (User.password u)) CharacterNotInRepertoire ;;
  guard_db (text_opt (User.profileImageUrl u)) CharacterNotInRepertoire ;;
  guard_db (fits 100 (User.firstName u)) ValueTooLong ;;
  guard_db (fits 100 (User.lastName u)) ValueTooLong ;;
  guard_db (fits 255 (User.email u)) ValueTooLong ;;
  guard_db (fits_opt 500 (User.profileImageUrl u)) ValueTooLong ;;
  guard_db (bool_decide (User.id u ∉ User.id <$> users s)) UniqueViolation ;;
  guard_db (bool_decide (User.email u ∉ User.email <$> users s)) UniqueViolation.

Definition projects_constraints (s : Store) (p : Project.t) : outcome unit :=
  guard_db (text (Project.name p)) CharacterNotInRepertoire ;;
  guard_db (text_opt (Project.description p)) CharacterNotInRepertoire ;;
  guard_db (text (Project.inviteCode p)) CharacterNotInRepertoire ;;
  guard_db (fits 200 (Project.name p)) ValueTooLong ;;
  guard_db (fits 20 (Project.inviteCode p)) ValueTooLong ;;
  guard_db (bool_decide (Project.id p ∉ Project.id <$> projects s)) UniqueViolation ;;
  guard_db (bool_decide (Project.inviteCode p ∉ Project.inviteCode <$> projects s))
    UniqueViolation ;;
  guard_db (references_user s (Project.createdBy p)) ForeignKeyViolation.

Definition projectMembers_constraints (s : Store) (m : ProjectMember.t) : outcome unit :=
  guard_db (bool_decide (ProjectMember.id m ∉ ProjectMember.id <$> projectMembers s))
    UniqueViolation ;;
  guard_db (references_project s (ProjectMember.projectId m)) ForeignKeyViolation ;;
  guard_db (references_user s (ProjectMember.userId m)) ForeignKeyViolation.

Definition tasks_constraints (s : Store) (t : Task.t) : outcome unit :=
  guard_db (text (Task.title t)) CharacterNotInRepertoire ;;
  guard_db (text_opt (Task.description t)) CharacterNotInRepertoire ;;
  guard_db (fits 200 (Task.title t)) ValueTooLong ;;
  guard_db (bool_decide (Task.id t ∉ Task.id <$> tasks s)) UniqueViolation ;;
  guard_db (references_project s (Task.projectId t)) ForeignKeyViolation ;;
  guard_db (match Task.assigneeId t with Some a => references_user s a | None => true end)
    ForeignKeyViolation ;;
  guard_db (references_user s (Task.createdBy t)) ForeignKeyViolation.

(** One statement: [chk] decides whether it is accepted. *)
Definition statement {A} (chk : Store → outcome unit) (a : A) (write : Store → Store)
    : Db A := λ s,
  match chk s with
  | Ok _ => (Ok a, write s)
  | Throw e => (Throw e, s)
  end.

Definition createUser (e : Env) (insertUser : InsertUser.t) : Db User.t :=
  let user :=
    {| User.id := uuid1 e;
       User.firstName := varchar 100 (InsertUser.firstName insertUser);
       User.lastName := varchar 100 (InsertUser.lastName insertUser);
       User.email := varchar 255 (InsertUser.email insertUser);
       User.password := InsertUser.password insertUser;
       User.profileImageUrl := varchar 500 <$> InsertUser.profileImageUrl insertUser;
       User.createdAt := now e;
       User.updatedAt := now e |} in
  statement (λ s, users_constraints s user) user
    (λ s, mkStore (users s ++ [user]) (projects s) (projectMembers s) (tasks s)).

(** [randomBytes(n)] *)
Definition randomBytes (e : Env) (n : nat) : list Byte.byte := random e <$> seq 0 n.

Definition hexDigit (n : N) : ascii :=
  match n with
  | 0 => "0" | 1 => "1" | 2 => "2" | 3 => "3" | 4 => "4" | 5 => "5" | 6 => "6" | 7 => "7"
  | 8 => "8" | 9 => "9" | 10 => "a" | 11 => "b" | 12 => "c" | 13 => "d" | 14 => "e"
  | _ => "f"
  end%N%char.

(** [buf.toString('hex')] *)
Fixpoint toHex (buf : list Byte.byte) : string :=
  match buf with
  | [] => EmptyString
  | b :: buf' =>
    String (hexDigit (Byte.to_N b / 16)) (String (hexDigit (Byte.to_N b mod 16)) (toHex buf'))
  end.

Definition upperChar (c : ascii) : ascii :=
  let n := N_of_ascii c in
  if ((97 <=? n) && (n <=? 122))%N then ascii_of_N (n - 32) else c.

(** [str.toUpperCase()] on ASCII text *)
Fixpoint toUpperCase (str : string) : string :=
  match str with
  | EmptyString => EmptyString
  | String c str' => String (upperChar c) (toUpperCase str')
  end.

Definition generateInviteCode (e : Env) : string :=
  toUpperCase (toHex (randomBytes e 8)).

Definition addMemberRow (id : string) (e : Env) (values : InsertProjectMember.t)
    : Db ProjectMember.t :=
  let projectMember :=
    {| ProjectMember.id := id;
       ProjectMember.projectId := InsertProjectMember.projectId values;
       ProjectMember.userId := InsertProjectMember.userId values;
       ProjectMember.role := default member (InsertProjectMember.role values);
       ProjectMember.joinedAt := now e |} in
  statement (λ s, projectMembers_constraints s projectMember) projectMember
    (λ s, mkStore (users s) (projects s) (projectMembers s ++ [projectMember]) (tasks s)).

Definition createProject (e : Env) (projectData : InsertProject.t) (createdBy : string)
    : Db Project.t :=
  let inviteCode := generateInviteCode e in
  let project :=
    {| Project.id := uuid1 e;
       Project.name := varchar 200 (InsertProject.name projectData);
       Project.description := InsertProject.description projectData;
       Project.inviteCode := inviteCode;
       Project.status := default active (InsertProject.status projectData);
       Project.deadline := mjoin (InsertProject.deadline projectData);
       Project.createdBy := createdBy;
       Project.createdAt := now e;
       Project.updatedAt := now e |} in
  (let* project :=
     statement
       (λ s, (if bool_decide (InsertProject.deadline projectData = Some None)
              then Throw RangeError else Ok tt) ;;
             projects_constraints s project)
       project
       (λ s, mkStore (users s) (projects s ++ [project]) (projectMembers s) (tasks s)) in
   (* Add creator as owner *)
   let* _ :=
     addMemberRow (uuid2 e) e
       (InsertProjectMember.mk (Project.id project) createdBy (Some owner)) in
   st_ret project)%st.

Definition addProjectMember (e : Env) (values : InsertProjectMember.t) : Db ProjectMember.t :=
  addMemberRow (uuid1 e) e values.

Definition createTask (e : Env) (taskData : InsertTask.t) (createdBy : string) : Db Task.t :=
  let task :=
    {| Task.id := uuid1 e;
       Task.title := varchar 200 (InsertTask.title taskData);
       Task.description := InsertTask.description taskData;
       Task.status := default todo (InsertTask.status taskData);
       Task.priority := default medium (InsertTask.priority taskData);
       Task.projectId := InsertTask.projectId taskData;
       Task.assigneeId := InsertTask.assigneeId taskData;
       Task.createdBy := createdBy;
       Task.createdAt := now e;
       Task.updatedAt := now e |} in
  statement (λ s, tasks_constraints s task) task
    (λ s, mkStore (users s) (projects s) (projectMembers s) (tasks s ++ [task])).

(** [DELETE FROM projects WHERE id = $1], with the [onDelete: "cascade"] of
    [project_members.project_id] and [tasks.project_id]. *)
Definition deleteProject (id : string) : Db bool := λ s,
  match filter (λ p, Project.id p = id) (projects s) with
  | [] => (Ok false, s)
  | _ =>
    (Ok true,
     mkStore (users s)
       (filter (λ p, Project.id p ≠ id) (projects s))
       (filter (λ m, ProjectMember.projectId m ≠ id) (projectMembers s))
       (filter (λ t, Task.projectId t ≠ id) (tasks s)))
  end.

Definition removeProjectMember (projectId userId : string) : Db bool := λ s,
  let hit (m : ProjectMember.t) :=
    ProjectMember.projectId m = projectId ∧ ProjectMember.userId m = userId in
  (Ok (bool_decide (filter hit (projectMembers s) ≠ [])),
   mkStore (users s) (projects s) (filter (λ m, ¬ hit m) (projectMembers s)) (tasks s)).

Definition deleteTask (id : string) : Db bool := λ s,
  (Ok (bool_decide (filter (λ t, Task.id t = id) (tasks s) ≠ [])),
   mkStore (users s) (projects s) (projectMembers s) (filter (λ t, Task.id t ≠ id) (tasks s))).

(** ** [UPDATE ... SET]: a payload against the columns of a table *)

(** What a payload says about a column: nothing, [null], or a value. *)
Definition col_text (k : string) (updates : gmap string jsval) : option (option string) :=
  match updates !! k with
  | None => None
  | Some JNull => Some None
  | Some (JStr s) => Some (Some s)
  end.

(** A value for a [text] column, and for a [varchar(n)] column: checked and
    cut as in an insert. *)
Definition col_string (k : string) (updates : gmap string jsval)
    : outcome (option (option string)) :=
  match updates !! k with
  | None => Ok None
  | Some JNull => Ok (Some None)
  | Some (JStr s) =>
    guard_db (text s) CharacterNotInRepertoire ;;
    Ok (Some (Some s))
  end.

Definition col_varchar (n : nat) (k : string) (updates : gmap string jsval)
    : outcome (option (option string)) :=
  match updates !! k with
  | None => Ok None
  | Some JNull => Ok (Some None)
  | Some (JStr s) =>
    guard_db (text s) CharacterNotInRepertoire ;;
    guard_db (fits n (varchar n s)) ValueTooLong ;;
    Ok (Some (Some (varchar n s)))
  end.

Definition col_enum {E : Type} (labels : string → option E) (k : string)
    (updates : gmap string jsval) : outcome (option (option E)) :=
  match updates !! k with
  | None => Ok None
  | Some JNull => Ok (Some None)
  | Some (JStr s) =>
    match labels s with
    | Some v => Ok (Some (Some v))
    | None => Throw (DbErr InvalidEnumValue)
    end
  end.

Definition col_timestamp (k : string) (updates : gmap string jsval)
    : outcome (option (option Z)) :=
  match updates !! k with
  | None => Ok None
  | Some JNull => Ok (Some None)
  | Some (JStr _) => Throw TypeError
  end.

Definition notNull {A : Type} (cur : A) (v : option (option A)) : outcome A :=
  match v with
  | None => Ok cur
  | Some None => Throw (DbErr NotNullViolation)
  | Some (Some a) => Ok a
  end.

Definition nullable {A : Type} (cur : option A) (v : option (option A)) : option A :=
  match v with
  | None => cur
  | Some a => a
  end.

(** Rows selected by [hit] are rewritten by [f]; the result is the new table
    and the rows of [returning()].  One refused row refuses the statement. *)
Fixpoint update_rows {R : Type} (hit : R → bool) (f : R → outcome R) (rows : list R)
    : outcome (list R * list R) :=
  match rows with
  | [] => Ok ([], [])
  | r :: rows' =>
    if hit r then
      r' ← f r; rest ← update_rows hit f rows'; Ok (r' :: rest.1, r' :: rest.2)
    else
      rest ← update_rows hit f rows'; Ok (r :: rest.1, rest.2)
  end.

Module TaskSet.
Record t := mk {
  id : option (option string);
  title : option (option string);
  description : option (option string);
  status : option (option TaskStatus);
  priority : option (option TaskPriority);
  projectId : option (option string);
  assigneeId : option (option string);
  createdBy : option (option string);
  createdAt : option (option Z) }.
End TaskSet.

(** The columns of [tasks] named by [{ ...updates, updatedAt: new Date() }];
    properties that name no column are dropped, and [updatedAt] is the one
    of the spread. *)
Definition task_set (updates : gmap string jsval) : outcome TaskSet.t :=
  title ← col_varchar 200 "title" updates;
  description ← col_string "description" updates;
  status ← col_enum taskStatusEnum "status" updates;
  priority ← col_enum taskPriorityEnum "priority" updates;
  createdAt ← col_timestamp "createdAt" updates;
  Ok {| TaskSet.id := col_text "id" updates;
        TaskSet.title := title;
        TaskSet.description := description;
        TaskSet.status := status;
        TaskSet.priority := priority;
        TaskSet.projectId := col_text "projectId" updates;
        TaskSet.assigneeId := col_text "assigneeId" updates;
        TaskSet.createdBy := col_text "createdBy" updates;
        TaskSet.createdAt := createdAt |}.

Definition task_apply (s : Store) (e : Env) (set : TaskSet.t) (t : Task.t) : outcome Task.t :=
  id ← notNull (Task.id t) (TaskSet.id set);
  title ← notNull (Task.title t) (TaskSet.title set);
  status ← notNull (Task.status t) (TaskSet.status set);
  priority ← notNull (Task.priority t) (TaskSet.priority set);
  projectId ← notNull (Task.projectId t) (TaskSet.projectId set);
  createdBy ← notNull (Task.createdBy t) (TaskSet.createdBy set);
  createdAt ← notNull (Task.createdAt t) (TaskSet.createdAt set);
  let assigneeId := nullable (Task.assigneeId t) (TaskSet.assigneeId set) in
  guard_db (bool_decide (id = Task.id t) || bool_decide (id ∉ Task.id <$> tasks s))
    UniqueViolation ;;
  guard_db (bool_decide (projectId = Task.projectId t) || references_project s projectId)
    ForeignKeyViolation ;;
  guard_db (bool_decide (assigneeId = Task.assigneeId t) ||
            match assigneeId with Some a => references_user s a | None => true end)
    ForeignKeyViolation ;;
  guard_db (bool_decide (createdBy = Task.createdBy t) || references_user s createdBy)
    ForeignKeyViolation ;;
  Ok {| Task.id := id;
        Task.title := title;
        Task.description := nullable (Task.description t) (TaskSet.description set);
        Task.status := status;
        Task.priority := priority;
        Task.projectId := projectId;
        Task.assigneeId := assigneeId;
        Task.createdBy := createdBy;
        Task.createdAt := createdAt;
        Task.updatedAt := now e |}.

Definition updateTask (e : Env) (id : string) (updates : gmap string jsval)
    : Db (option Task.t) := λ s,
  match
    set ← task_set updates;
    update_rows (λ t, bool_decide (Task.id t = id)) (task_apply s e set) (tasks s)
  with
  | Ok (table, returning) =>
    (Ok (head returning), mkStore (users s) (projects s) (projectMembers s) table)
  | Throw err => (Throw err, s)
  end.

Module ProjectSet.
Record t := mk {
  id : option (option string);
  name : option (option string);
  description : option (option string);
  inviteCode : option (option string);
  status : option (option ProjectStatus);
  deadline : option (option Z);
  createdBy : option (option string);
  createdAt : option (option Z) }.
End ProjectSet.

Definition project_set (updates : gmap string jsval) : outcome ProjectSet.t :=
  name ← col_varchar 200 "name" updates;
  description ← col_string "description" updates;
  inviteCode ← col_varchar 20 "inviteCode" updates;
  status ← col_enum projectStatusEnum "status" updates;
  deadline ← col_timestamp "deadline" updates;
  createdAt ← col_timestamp "createdAt" updates;
  Ok {| ProjectSet.id := col_text "id" updates;
        ProjectSet.name := name;
        ProjectSet.description := description;
        ProjectSet.inviteCode := inviteCode;
        ProjectSet.status := status;
        ProjectSet.deadline := deadline;
        ProjectSet.createdBy := col_text "createdBy" updates;
        ProjectSet.createdAt := createdAt |}.

(** A project row that members or tasks reference keeps its id: their
    foreign keys are declared without an update action. *)
Definition project_referenced (s : Store) (id : string) : bool :=
  bool_decide (id ∈ ProjectMember.projectId <$> projectMembers s) ||
  bool_decide (id ∈ Task.projectId <$> tasks s).

Definition project_apply (s : Store) (e : Env) (set : ProjectSet.t) (p : Project.t)
    : outcome Project.t :=
  id ← notNull (Project.id p) (ProjectSet.id set);
  name ← notNull (Project.name p) (ProjectSet.name set);
  inviteCode ← notNull (Project.inviteCode p) (ProjectSet.inviteCode set);
  status ← notNull (Project.status p) (ProjectSet.status set);
  createdBy ← notNull (Project.createdBy p) (ProjectSet.createdBy set);
  createdAt ← notNull (Project.createdAt p) (ProjectSet.createdAt set);
  guard_db (bool_decide (id = Project.id p) ||
            bool_decide (id ∉ Project.id <$> projects s)) UniqueViolation ;;
  guard_db (bool_decide (id = Project.id p) || negb (project_referenced s (Project.id p)))
    ForeignKeyViolation ;;
  guard_db (bool_decide (inviteCode = Project.inviteCode p) ||
            bool_decide (inviteCode ∉ Project.inviteCode <$> projects s)) UniqueViolation ;;
  guard_db (bool_decide (createdBy = Project.createdBy p) || references_user s createdBy)
    ForeignKeyViolation ;;
  Ok {| Project.id := id;
        Project.name := name;
        Project.description := nullable (Project.description p) (ProjectSet.description set);
        Project.inviteCode := inviteCode;
        Project.status := status;
        Project.deadline := nullable (Project.deadline p) (ProjectSet.deadline set);
        Project.createdBy := createdBy;
        Project.createdAt := createdAt;
        Project.updatedAt := now e |}.

Definition updateProject (e : Env) (id : string) (updates : gmap string jsval)
    : Db (option Project.t) := λ s,
  match
    set ← project_set updates;
    update_rows (λ p, bool_decide (Project.id p = id)) (project_apply s e set) (projects s)
  with
  | Ok (table, returning) =>
    (Ok (head returning), mkStore (users s) table (projectMembers s) (tasks s))
  | Throw err => (Throw err, s)
  end.

(** ** The real-time channel *)

Inductive ReadyState := CONNECTING | OPEN | CLOSING | CLOSED.

#[global] Instance ReadyState_eq_dec : EqDecision ReadyState.
Proof. solve_decision. Defined.

(** The [data] a handler passes to [broadcast]; the constructor is the
    [type] property, the arguments are the resource carried. *)
Inductive EventData :=
| project_updated (project : Project.t)
| member_joined (project : option ProjectWithMembers)
| task_created (task : option TaskWithDetails)
| task_updated (task : option TaskWithDetails)
| task_deleted (taskId : string).

Definition event_type (data : EventData) : string :=
  match data with
  | project_updated _ => "project_updated"
  | member_joined _ => "member_joined"
  | task_created _ => "task_created"
  | task_updated _ => "task_updated"
  | task_deleted _ => "task_deleted"
  end.

(** A text frame written to a socket, kept as the object handed to
    [JSON.stringify]: the acknowledgement [{ type: 'joined_project',
    projectId }] or the envelope [{ projectId, ...data }]. *)
Inductive Frame :=
| joined_project (projectId : option jsval)
| envelope (projectId : string) (data : EventData).

(** The [projectId] and [type] properties of a frame. *)
Definition frame_projectId (frame : Frame) : option jsval :=
  match frame with
  | joined_project projectId => projectId
  | envelope projectId _ => Some (JStr projectId)
  end.

Definition frame_type (frame : Frame) : string :=
  match frame with
  | joined_project _ => "joined_project"
  | envelope _ data => event_type data
  end.

Record Conn := mkConn {
  readyState : ReadyState;
  sent : list Frame }.

Definition send (frame : Frame) (client : Conn) : Conn :=
  mkConn (readyState client) (sent client ++ [frame]).

(** What the server-side sockets go through.  A message is the result of
    [JSON.parse]: [None] when it throws, else the object received. *)
Inductive WsEvent :=
| ws_connection
| ws_message (i : nat) (data : option (gmap string jsval))
| ws_close (i : nat).

(** [ws.on('message', ...)]: a [join_project] message is acknowledged on the
    same socket and nothing is recorded. *)
Definition on_message (data : option (gmap string jsval)) (ws : Conn) : Conn :=
  match data with
  | None => ws
  | Some data =>
    if bool_decide (data !! "type" = Some (JStr "join_project"))
    then send (joined_project (data !! "projectId")) ws
    else ws
  end.

Definition ws_step (clients : list Conn) (ev : WsEvent) : list Conn :=
  match ev with
  | ws_connection => clients ++ [mkConn OPEN []]
  | ws_message i data => alter (on_message data) i clients
  | ws_close i => alter (λ ws, mkConn CLOSED (sent ws)) i clients
  end.

Definition ws_run (clients : list Conn) (evs : list WsEvent) : list Conn :=
  foldl ws_step clients evs.

(** [broadcast]: the envelope goes to every client whose socket is open. *)
Definition broadcast_clients (projectId : string) (data : EventData) (clients : list Conn)
    : list Conn :=
  (λ client,
     if bool_decide (readyState client = OPEN)
     then send (envelope projectId data) client
     else client) <$> clients.

(** ** The server: database and sockets *)

Record World := mkWorld {
  db : Store;
  wss_clients : list Conn }.

Definition storage {A} (m : Db A) : St World A := λ w,
  let (r, s') := m (db w) in (r, mkWorld s' (wss_clients w)).

Definition storage_get {A} (q : Store → A) : St World A := st_query (λ w, q (db w)).

Definition broadcast (projectId : string) (data : EventData) : St World unit := λ w,
  (Ok tt, mkWorld (db w) (broadcast_clients projectId data (wss_clients w))).

(** ** Requests and responses *)

Module Req.
(** [authorization] is [req.headers['authorization']]; [projectId] and
    [taskId] are [req.params]; [body] is [req.body]. *)
Record t := mk {
  authorization : option string;
  projectId : string;
  taskId : string;
  body : gmap string jsval }.
End Req.

(** The user object of the auth responses: no [password]. *)
Record PublicUser := mkPublicUser {
  pu_id : string;
  pu_firstName : string;
  pu_lastName : string;
  pu_email : string;
  pu_profileImageUrl : option string }.

Definition publicUser (user : User.t) : PublicUser :=
  {| pu_id := User.id user;
     pu_firstName := User.firstName user;
     pu_lastName := User.lastName user;
     pu_email := User.email user;
     pu_profileImageUrl := User.profileImageUrl user |}.

(** The bodies of the responses.  [InvalidInput] is [{ message: 'Invalid
    input data', errors }]; a hydrated resource may be [undefined]. *)
Inductive Json :=
| Message (message : string)
| InvalidInput
| TokenAndUser (token : string) (user : PublicUser)
| UserJson (user : PublicUser)
| ProjectJson (project : option ProjectWithMembers)
| ProjectsJson (projects : list ProjectWithMembers)
| ProjectRowJson (project : Project.t)
| TaskJson (task : option TaskWithDetails)
| TasksJson (tasks : list TaskWithDetails)
| NoContent.

Record Response := mkResponse {
  statusCode : nat;
  json : Json }.

(** The payload of a token: [{ id, email }]. *)
Record Claims := mkClaims {
  claims_id : string;
  claims_email : string }.

(** [try { ... } catch (error) { ... }] around a handler body. *)
Definition try_catch (body : St World Response) (catch : exn → Response)
    : World → Response * World := λ w,
  match body w with
  | (Ok res, w') => (res, w')
  | (Throw err, w') => (catch err, w')
  end.

(** [str.split(sep)] for a one-character separator. *)
Fixpoint split (sep : ascii) (str : string) : list string :=
  match str with
  | EmptyString => [EmptyString]
  | String c str' =>
    if Ascii.eqb c sep then EmptyString :: split sep str'
    else
      match split sep str' with
      | [] => [String c EmptyString]
      | h :: t => String c h :: t
      end
  end.

(** ** Validation schemas *)

Definition zod_string (k : string) (body : gmap string jsval) : outcome string :=
  match body !! k with
  | Some (JStr s) => Ok s
  | _ => Throw ZodError
  end.

Definition zod_nullish_string (k : string) (body : gmap string jsval) : outcome (option string) :=
  match body !! k with
  | Some (JStr s) => Ok (Some s)
  | _ => Ok None
  end.

(** [createInsertSchema] gives a [varchar(n)] column the schema
    [z.string().max(n)]. *)
Definition zod_string_max (n : nat) (k : string) (body : gmap string jsval)
    : outcome string :=
  s ← zod_string k body;
  if fits n s then Ok s else Throw ZodError.

Definition zod_nullish_string_max (n : nat) (k : string) (body : gmap string jsval)
    : outcome (option string) :=
  s ← zod_nullish_string k body;
  if fits_opt n s then Ok s else Throw ZodError.

Definition zod_optional_enum {E : Type} (labels : string → option E) (k : string)
    (body : gmap string jsval) : outcome (option E) :=
  match body !! k with
  | None => Ok None
  | Some JNull => Throw ZodError
  | Some (JStr s) =>
    match labels s with
    | Some v => Ok (Some v)
    | None => Throw ZodError
    end
  end.

Definition insertUserSchema (body : gmap string jsval) : outcome InsertUser.t :=
  firstName ← zod_string_max 100 "firstName" body;
  lastName ← zod_string_max 100 "lastName" body;
  email ← zod_string_max 255 "email" body;
  password ← zod_string "password" body;
  profileImageUrl ← zod_nullish_string_max 500 "profileImageUrl" body;
  Ok (InsertUser.mk firstName lastName email password profileImageUrl).

Definition insertTaskSchema (body : gmap string jsval) : outcome InsertTask.t :=
  title ← zod_string_max 200 "title" body;
  description ← zod_nullish_string "description" body;
  status ← zod_optional_enum taskStatusEnum "status" body;
  priority ← zod_optional_enum taskPriorityEnum "priority" body;
  projectId ← zod_string "projectId" body;
  assigneeId ← zod_nullish_string "assigneeId" body;
  Ok (InsertTask.mk title description status priority projectId assigneeId).

(** ** External libraries

    [jsonwebtoken], [bcrypt] and the [Date] parser are used through their
    interface.  [jwt_sign payload secret expiresIn clock] issues a token,
    [jwt_verify token secret clock] decodes it or fails. *)
Class Libs := {
  JWT_SECRET : string;
  jwt_sign : Claims → string → Z → Z → string;
  jwt_verify : string → string → Z → option Claims;
  bcrypt_hash : string → nat → string → string;
  bcrypt_compare : string → string → bool;
  Date_parse : string → option Z }.

(** ['7d'] in seconds *)
Definition expiresIn : Z := 7 * 24 * 60 * 60.

Section Routes.
Context `{Libs}.

Definition insertProjectSchema (body : gmap string jsval) : outcome InsertProject.t :=
  name ← zod_string_max 200 "name" body;
  description ← zod_nullish_string "description" body;
  status ← zod_optional_enum projectStatusEnum "status" body;
  deadline ←
    match body !! "deadline" with
    | None => Ok None
    | Some JNull => Throw ZodError
    | Some (JStr val) => Ok (if decide (val = EmptyString) then None else Some (Date_parse val))
    end;
  Ok (InsertProject.mk name description status deadline).

Definition reply (code : nat) (j : Json) : St World Response :=
  st_ret (mkResponse code j).

Definition zod (A : Type) (r : outcome A) : St World A := λ w, (r, w).
Arguments zod {A} r.

(** *** Middleware *)

Definition authenticateToken (e : Env) (req : Req.t)
    (next : Claims → World → Response * World) : World → Response * World := λ w,
  let token := authHeader ← Req.authorization req; split " " authHeader !! 1%nat in
  match token with
  | None | Some EmptyString => (mkResponse 401 (Message "Access token required"), w)
  | Some token =>
    match jwt_verify token JWT_SECRET (now e) with
    | None => (mkResponse 403 (Message "Invalid token"), w)
    | Some user => next user w
    end
  end.

(** The role lookup is a query on well-formed ids and does not throw: the
    [catch] of the middleware (500 "Error checking project permissions"),
    which a [:projectId] that is no uuid reaches, has no counterpart
    here. *)
Definition checkProjectPermission (req : Req.t) (user : Claims)
    (next : MemberRole → World → Response * World) : World → Response * World := λ w,
  match getUserProjectRole (Req.projectId req) (claims_id user) (db w) with
  | None => (mkResponse 403 (Message "Access denied to this project"), w)
  | Some role => next role w
  end.

(** *** Auth routes *)

Definition catch_zod (message : string) (err : exn) : Response :=
  match err with
  | ZodError => mkResponse 400 InvalidInput
  | _ => mkResponse 500 (Message message)
  end.

Definition catch_all (message : string) (err : exn) : Response :=
  mkResponse 500 (Message message).

(** [POST /api/auth/register] *)
Definition post_auth_register (e : Env) (req : Req.t) : World → Response * World :=
  try_catch
    (let* userData := zod (insertUserSchema (Req.body req)) in
     let* existingUser := storage_get (getUserByEmail (InsertUser.email userData)) in
     match existingUser with
     | Some _ => reply 400 (Message "User already exists")
     | None =>
       let hashedPassword := bcrypt_hash (InsertUser.password userData) 12 (salt e) in
       let* user :=
         storage (createUser e
           (InsertUser.mk (InsertUser.firstName userData) (InsertUser.lastName userData)
              (InsertUser.email userData) hashedPassword
              (InsertUser.profileImageUrl userData))) in
       let token :=
         jwt_sign (mkClaims (User.id user) (User.email user)) JWT_SECRET expiresIn (now e) in
       reply 201 (TokenAndUser token (publicUser user))
     end)%st
    (catch_zod "Registration failed").

(** [POST /api/auth/login] *)
Definition post_auth_login (e : Env) (req : Req.t) : World → Response * World :=
  try_catch
    (match truthy (Req.body req !! "email"), truthy (Req.body req !! "password") with
     | Some email, Some password =>
       let* user := storage_get (getUserByEmail email) in
       match user with
       | None => reply 401 (Message "Invalid credentials")
       | Some user =>
         if bcrypt_compare password (User.password user) then
           let token :=
             jwt_sign (mkClaims (User.id user) (User.email user)) JWT_SECRET expiresIn
               (now e) in
           reply 200 (TokenAndUser token (publicUser user))
         else reply 401 (Message "Invalid credentials")
       end
     | _, _ => reply 400 (Message "Email and password required")
     end)%st
    (catch_all "Login failed").

(** [GET /api/auth/me] *)
Definition get_auth_me (e : Env) (req : Req.t) : World → Response * World :=
  authenticateToken e req (λ user,
    try_catch
      (let* user := storage_get (getUser (claims_id user)) in
       match user with
       | None => reply 404 (Message "User not found")
       | Some user => reply 200 (UserJson (publicUser user))
       end)%st
      (catch_all "Failed to get user data")).

(** *** Project routes *)

(** [GET /api/projects] *)
Definition get_projects (e : Env) (req : Req.t) : World → Response * World :=
  authenticateToken e req (λ user,
    try_catch
      (let* projects := storage_get (getUserProjects (claims_id user)) in
       reply 200 (ProjectsJson projects))%st
      (catch_all "Failed to fetch projects")).

(** [POST /api/projects] *)
Definition post_projects (e : Env) (req : Req.t) : World → Response * World :=
  authenticateToken e req (λ user,
    try_catch
      (let* projectData := zod (insertProjectSchema (Req.body req)) in
       let* project := storage (createProject e projectData (claims_id user)) in
       let* fullProject := storage_get (getProjectWithMembers (Project.id project)) in
       reply 201 (ProjectJson fullProject))%st
      (catch_zod "Failed to create project")).

(** [GET /api/projects/:projectId] *)
Definition get_project (e : Env) (req : Req.t) : World → Response * World :=
  authenticateToken e req (λ user,
  checkProjectPermission req user (λ userProjectRole,
    try_catch
      (let* project := storage_get (getProjectWithMembers (Req.projectId req)) in
       match project with
       | None => reply 404 (Message "Project not found")
       | Some project => reply 200 (ProjectJson (Some project))
       end)%st
      (catch_all "Failed to fetch project"))).

(** [PUT /api/projects/:projectId] *)
Definition put_project (e : Env) (req : Req.t) : World → Response * World :=
  authenticateToken e req (λ user,
  checkProjectPermission req user (λ userProjectRole,
    try_catch
      (if bool_decide (userProjectRole ≠ owner) then
         reply 403 (Message "Only project owners can update projects")
       else
         let updates := delete "inviteCode" (delete "createdBy" (delete "id" (Req.body req))) in
         let* project := storage (updateProject e (Req.projectId req) updates) in
         match project with
         | None => reply 404 (Message "Project not found")
         | Some project =>
           let* _ := broadcast (Req.projectId req) (project_updated project) in
           reply 200 (ProjectRowJson project)
         end)%st
      (catch_all "Failed to update project"))).

(** [DELETE /api/projects/:projectId] *)
Definition delete_project (e : Env) (req : Req.t) : World → Response * World :=
  authenticateToken e req (λ user,
  checkProjectPermission req user (λ userProjectRole,
    try_catch
      (if bool_decide (userProjectRole ≠ owner) then
         reply 403 (Message "Only project owners can delete projects")
       else
         let* success := storage (deleteProject (Req.projectId req)) in
         if success : bool then reply 204 NoContent
         else reply 404 (Message "Project not found"))%st
      (catch_all "Failed to delete project"))).

(** [POST /api/projects/join] *)
Definition post_projects_join (e : Env) (req : Req.t) : World → Response * World :=
  authenticateToken e req (λ user,
    try_catch
      (match truthy (Req.body req !! "inviteCode") with
       | None => reply 400 (Message "Invite code required")
       | Some inviteCode =>
         let* project := storage_get (getProjectByInviteCode inviteCode) in
         match project with
         | None => reply 404 (Message "Invalid invite code")
         | Some project =>
           let* existingRole :=
             storage_get (getUserProjectRole (Project.id project) (claims_id user)) in
           match existingRole with
           | Some _ => reply 400 (Message "Already a member of this project")
           | None =>
             let* _ :=
               storage (addProjectMember e
                 (InsertProjectMember.mk (Project.id project) (claims_id user) (Some member))) in
             let* fullProject := storage_get (getProjectWithMembers (Project.id project)) in
             let* _ := broadcast (Project.id project) (member_joined fullProject) in
             reply 200 (ProjectJson fullProject)
           end
         end
       end)%st
      (catch_all "Failed to join project")).

(** *** Task routes *)

(** [GET /api/my-tasks] *)
Definition get_my_tasks (e : Env) (req : Req.t) : World → Response * World :=
  authenticateToken e req (λ user,
    try_catch
      (let* tasks := storage_get (getUserTasks (claims_id user)) in
       reply 200 (TasksJson tasks))%st
      (catch_all "Failed to fetch user tasks")).

(** [GET /api/projects/:projectId/tasks] *)
Definition get_project_tasks (e : Env) (req : Req.t) : World → Response * World :=
  authenticateToken e req (λ user,
  checkProjectPermission req user (λ userProjectRole,
    try_catch
      (let* tasks := storage_get (getProjectTasks (Req.projectId req)) in
       reply 200 (TasksJson tasks))%st
      (catch_all "Failed to fetch tasks"))).

(** [POST /api/projects/:projectId/tasks] *)
Definition post_project_tasks (e : Env) (req : Req.t) : World → Response * World :=
  authenticateToken e req (λ user,
  checkProjectPermission req user (λ userProjectRole,
    try_catch
      (let* taskData :=
         zod (insertTaskSchema (<["projectId" := JStr (Req.projectId req)]> (Req.body req))) in
       let* task := storage (createTask e taskData (claims_id user)) in
       let* fullTask := storage_get (getTask (Task.id task)) in
       let* _ := broadcast (Req.projectId req) (task_created fullTask) in
       reply 201 (TaskJson fullTask))%st
      (catch_zod "Failed to create task"))).

(** [PUT /api/tasks/:taskId] *)
Definition put_task (e : Env) (req : Req.t) : World → Response * World :=
  authenticateToken e req (λ user,
    try_catch
      (let* task := storage_get (getTask (Req.taskId req)) in
       match task with
       | None => reply 404 (Message "Task not found")
       | Some task =>
         (* Check if user has access to the project *)
         let* role :=
           storage_get (getUserProjectRole (Task.projectId (twd_row task)) (claims_id user)) in
         match role with
         | None => reply 403 (Message "Access denied")
         | Some role =>
           (* Members can only edit tasks assigned to them or tasks they created *)
           if bool_decide (role = member)
              && bool_decide (Task.assigneeId (twd_row task) ≠ Some (claims_id user))
              && bool_decide (Task.createdBy (twd_row task) ≠ claims_id user)
           then reply 403 (Message "Can only edit your own tasks")
           else
             let updates :=
               delete "createdBy" (delete "projectId" (delete "id" (Req.body req))) in
             let* updatedTask := storage (updateTask e (Req.taskId req) updates) in
             match updatedTask with
             | None => reply 404 (Message "Task not found")
             | Some updatedTask =>
               let* fullTask := storage_get (getTask (Task.id updatedTask)) in
               let* _ := broadcast (Task.projectId (twd_row task)) (task_updated fullTask) in
               reply 200 (TaskJson fullTask)
             end
         end
       end)%st
      (catch_all "Failed to update task")).

(** [PATCH /api/projects/:projectId/tasks/:taskId] *)
Definition patch_project_task (e : Env) (req : Req.t) : World → Response * World :=
  authenticateToken e req (λ user,
    try_catch
      (let* task := storage_get (getTask (Req.taskId req)) in
       match task with
       | None => reply 404 (Message "Task not found")
       | Some task =>
         (* Check if user has access to the project *)
         let* role :=
           storage_get (getUserProjectRole (Req.projectId req) (claims_id user)) in
         match role with
         | None => reply 403 (Message "Access denied")
         | Some role =>
           (* Allow all project members to update task status *)
           let updates :=
             delete "createdBy" (delete "projectId" (delete "id" (Req.body req))) in
           let* updatedTask := storage (updateTask e (Req.taskId req) updates) in
           match updatedTask with
           | None => reply 404 (Message "Task not found")
           | Some updatedTask =>
             let* fullTask := storage_get (getTask (Task.id updatedTask)) in
             let* _ := broadcast (Task.projectId (twd_row task)) (task_updated fullTask) in
             reply 200 (TaskJson fullTask)
           end
         end
       end)%st
      (catch_all "Failed to update task")).

(** [DELETE /api/tasks/:taskId] *)
Definition delete_task (e : Env) (req : Req.t) : World → Response * World :=
  authenticateToken e req (λ user,
    try_catch
      (let* task := storage_get (getTask (Req.taskId req)) in
       match task with
       | None => reply 404 (Message "Task not found")
       | Some task =>
         let* role :=
           storage_get (getUserProjectRole (Task.projectId (twd_row task)) (claims_id user)) in
         match role with
         | None => reply 403 (Message "Access denied")
         | Some role =>
           (* Only owners and task creators can delete tasks *)
           if bool_decide (role ≠ owner)
              && bool_decide (Task.createdBy (twd_row task) ≠ claims_id user)
           then reply 403 (Message "Only project owners and task creators can delete tasks")
           else
             let* success := storage (deleteTask (Req.taskId req)) in
             if success : bool then
               let* _ :=
                 broadcast (Task.projectId (twd_row task)) (task_deleted (Req.taskId req)) in
               reply 204 NoContent
             else reply 404 (Message "Task not found")
         end
       end)%st
      (catch_all "Failed to delete task")).

End Routes.

(** ** The routing table *)

Inductive Route :=
| POST_auth_register | POST_auth_login | GET_auth_me
| GET_projects | POST_projects | GET_project | PUT_project | DELETE_project
| POST_projects_join
| GET_my_tasks | GET_project_tasks | POST_project_tasks
| PUT_task | PATCH_project_task | DELETE_task.

Definition serve `{Libs} (route : Route) : Env → Req.t → World → Response * World :=
  match route with
  | POST_auth_register => post_auth_register
  | POST_auth_login => post_auth_login
  | GET_auth_me => get_auth_me
  | GET_projects => get_projects
  | POST_projects => post_projects
  | GET_project => get_project
  | PUT_project => put_project
  | DELETE_project => delete_project
  | POST_projects_join => post_projects_join
  | GET_my_tasks => get_my_tasks
  | GET_project_tasks => get_project_tasks
  | POST_project_tasks => post_project_tasks
  | PUT_task => put_task
  | PATCH_project_task => patch_project_task
  | DELETE_task => delete_task
  end.

(** ** A concrete instance and a concrete world, for examples *)

Module Example.

(** Stand-ins for the libraries: a token is [id.email] and carries no
    signature or expiry; the hash is the salted password. *)
Definition libs : Libs :=
  {| JWT_SECRET := "your-secret-key";
     jwt_sign := λ payload _ _ _, claims_id payload +:+ "." +:+ claims_email payload;
     jwt_verify := λ token _ _,
       match split "." token with
       | id :: email :: rest => Some (mkClaims id (String.concat "." (email :: rest)))
       | _ => None
       end;
     bcrypt_hash := λ password _ salt, salt +:+ "$" +:+ password;
     bcrypt_compare := λ password hash,
       match split "$" hash with
       | [_; p] => bool_decide (p = password)
       | _ => false
       end;
     Date_parse := λ _, None |}.

Definition alice : User.t :=
  User.mk "u-alice" "Alice" "A" "alice@x.com" "s$pw-a" None 1 1.
Definition bob : User.t :=
  User.mk "u-bob" "Bob" "B" "bob@x.com" "s$pw-b" None 2 2.
Definition carol : User.t :=
  User.mk "u-carol" "Carol" "C" "carol@x.com" "s$pw-c" None 3 3.

Definition sprint1 : Project.t :=
  Project.mk "p-1" "Sprint 1" None "00112233AABBCCDD" active None "u-alice" 4 4.
Definition sprint2 : Project.t :=
  Project.mk "p-2" "Sprint 2" None "FFEEDDCC00112233" active None "u-bob" 5 5.

Definition writeSpec : Task.t :=
  Task.mk "t-1" "Write spec" None todo medium "p-1" (Some "u-alice") "u-alice" 8 8.

(** Alice owns Sprint 1, which Carol joined; Bob owns Sprint 2.  The one
    task belongs to Sprint 1, was created by Alice and is assigned to her. *)
Definition store : Store :=
  {| users := [alice; bob; carol];
     projects := [sprint1; sprint2];
     projectMembers :=
       [ ProjectMember.mk "m-1" "p-1" "u-alice" owner 4;
         ProjectMember.mk "m-2" "p-2" "u-bob" owner 5;
         ProjectMember.mk "m-3" "p-1" "u-carol" member 6 ];
     tasks := [writeSpec] |}.

(** One open socket that asked for Sprint 2, one closed socket. *)
Definition world : World :=
  {| db := store;
     wss_clients :=
       [ mkConn OPEN [joined_project (Some (JStr "p-2"))];
         mkConn CLOSED [] ] |}.

Definition env : Env :=
  {| now := 100; uuid1 := "id-1"; uuid2 := "id-2";
     random := λ n, nth n [Byte.x00; Byte.x1a; Byte.xff; Byte.xc3] Byte.x7e;
     salt := "s" |}.

(** The header of a request by [user], with the token [libs] issues. *)
Definition authorizationOf (user : User.t) : option string :=
  Some ("Bearer " +:+ User.id user +:+ "." +:+ User.email user).

(** Bob, who is no member of Sprint 1, moves its task to "done" through
    the URL of his own project. *)
Definition bobPatchesThroughSprint2 : Req.t :=
  Req.mk (authorizationOf bob) "p-2" "t-1" {[ "status" := JStr "done" ]}.

(** Carol, a "member" of Sprint 1 who neither created the task nor is its
    assignee, moves it to "done". *)
Definition carolPatchesStatus : Req.t :=
  Req.mk (authorizationOf carol) "p-1" "t-1" {[ "status" := JStr "done" ]}.

(** The same request on [PUT /api/tasks/t-1]. *)
Definition carolPutsStatus : Req.t :=
  Req.mk (authorizationOf carol) EmptyString "t-1" {[ "status" := JStr "done" ]}.

(** Carol sends other columns than the status on the PATCH route. *)
Definition carolPatchesOtherColumns : Req.t :=
  Req.mk (authorizationOf carol) "p-1" "t-1"
    (<[ "title" := JStr "Renamed" ]>
     (<[ "description" := JStr "rewritten" ]>
     (<[ "priority" := JStr "high" ]>
     {[ "assigneeId" := JStr "u-carol" ]}))).

(** Alice, owner of Sprint 1, renames it and tries to move its identity. *)
Definition aliceUpdatesSprint1 : Req.t :=
  Req.mk (authorizationOf alice) "p-1" EmptyString
    (<[ "name" := JStr "Sprint 1b" ]>
     (<[ "id" := JStr "p-9" ]>
     (<[ "createdBy" := JStr "u-bob" ]>
     {[ "inviteCode" := JStr "MINE" ]}))).

(** Alice tries to move her task to Sprint 2 and to hand its authorship
    to Bob. *)
Definition aliceMovesTask : Req.t :=
  Req.mk (authorizationOf alice) EmptyString "t-1"
    (<[ "title" := JStr "Write the spec" ]>
     (<[ "id" := JStr "t-9" ]>
     (<[ "projectId" := JStr "p-2" ]>
     {[ "createdBy" := JStr "u-bob" ]}))).

Definition aliceDeletesSprint1 : Req.t :=
  Req.mk (authorizationOf alice) "p-1" EmptyString ∅.

Definition aliceGetsSprint1 : Req.t :=
  Req.mk (authorizationOf alice) "p-1" EmptyString ∅.

Definition carolCreatesProject : Req.t :=
  Req.mk (authorizationOf carol) EmptyString EmptyString {[ "name" := JStr "Sprint 3" ]}.

(** A registration of Dave under [email]. *)
Definition registration (email : string) : Req.t :=
  Req.mk None EmptyString EmptyString
    (<[ "firstName" := JStr "Dave" ]>
     (<[ "lastName" := JStr "D" ]>
     (<[ "email" := JStr email ]>
     {[ "password" := JStr "pw-d" ]}))).

(** A first name of 101 characters. *)
Definition longName : string := String "D" (string_of_list_ascii (replicate 100 "d"%char)).

Definition registrationAs (firstName email : string) : Req.t :=
  Req.mk None EmptyString EmptyString
    (<[ "firstName" := JStr firstName ]>
     (<[ "lastName" := JStr "D" ]>
     (<[ "email" := JStr email ]>
     {[ "password" := JStr "pw-d" ]}))).

Definition meWith (token : string) : Req.t :=
  Req.mk (Some ("Bearer " +:+ token)) EmptyString EmptyString ∅.


(** The scenario of the specification, from an empty database with two open
    sockets: Alice registers and creates "Sprint 1"; Bob registers and
    redeems its invite code; Alice creates "Write spec" for Bob; Bob moves
    it to "in_progress". *)
Definition draws (uuid : string) : Env :=
  {| now := 100; uuid1 := uuid; uuid2 := uuid +:+ "-owner";
     random := random env; salt := "s" |}.

Definition registers (first email : string) : Req.t :=
  Req.mk None EmptyString EmptyString
    (<[ "firstName" := JStr first ]>
     (<[ "lastName" := JStr "X" ]>
     (<[ "email" := JStr email ]>
     {[ "password" := JStr "pw" ]}))).

Definition as_ (id email : string) : option string :=
  Some ("Bearer " +:+ id +:+ "." +:+ email).

Definition scenario : list (Route * Env * Req.t) :=
  [ (POST_auth_register, draws "u-a", registers "Alice" "alice@x.com");
    (POST_projects, draws "p-1",
       Req.mk (as_ "u-a" "alice@x.com") EmptyString EmptyString {[ "name" := JStr "Sprint 1" ]});
    (POST_auth_register, draws "u-b", registers "Bob" "bob@x.com");
    (POST_projects_join, draws "m-b",
       Req.mk (as_ "u-b" "bob@x.com") EmptyString EmptyString {[ "inviteCode" := JStr "001AFFC37E7E7E7E" ]});
    (POST_project_tasks, draws "t-1",
       Req.mk (as_ "u-a" "alice@x.com") "p-1" EmptyString
         (<[ "title" := JStr "Write spec" ]> {[ "assigneeId" := JStr "u-b" ]}));
    (PATCH_project_task, draws "unused",
       Req.mk (as_ "u-b" "bob@x.com") "p-1" "t-1" {[ "status" := JStr "in_progress" ]}) ].

(** The responses, oldest first, and the world the requests lead to. *)
Definition play (requests : list (Route * Env * Req.t)) (w : World)
    : list Response * World :=
  foldl (λ acc r, let out := @serve libs r.1.1 r.1.2 r.2 acc.2 in (acc.1 ++ [out.1], out.2))
    ([], w) requests.

(** The world the scenario ends in. *)
Definition start : World := mkWorld emptyStore [mkConn OPEN []; mkConn OPEN []].
Definition final : World := (play scenario start).2.

(** Requests served in [final]. *)
Definition aliceListsTasks : Req.t :=
  Req.mk (as_ "u-a" "alice@x.com") "p-1" EmptyString ∅.

Definition bobListsTasks : Req.t := Req.mk (as_ "u-b" "bob@x.com") "p-1" EmptyString ∅.

Definition bobListsProjects : Req.t :=
  Req.mk (as_ "u-b" "bob@x.com") EmptyString EmptyString ∅.

Definition bobMovesTaskToDone : Req.t :=
  Req.mk (as_ "u-b" "bob@x.com") "p-1" "t-1" {[ "status" := JStr "done" ]}.

(** Requests served in [world]. *)
Definition logsIn (email password : string) : Req.t :=
  Req.mk None EmptyString EmptyString
    (<[ "email" := JStr email ]> {[ "password" := JStr password ]}).

(** Alice's token under another scheme word. *)
Definition basicAlice : Req.t :=
  Req.mk (Some "Basic u-alice.alice@x.com") EmptyString EmptyString ∅.

Definition aliceDeletesTask : Req.t :=
  Req.mk (authorizationOf alice) EmptyString "t-1" ∅.

(** Carol, a member of Sprint 1, names Sprint 2, Bob and a stored id in the
    body. *)
Definition carolCreatesTask : Req.t :=
  Req.mk (authorizationOf carol) "p-1" EmptyString
    (<[ "title" := JStr "Review" ]>
     (<[ "projectId" := JStr "p-2" ]>
     (<[ "createdBy" := JStr "u-bob" ]>
     {[ "id" := JStr "t-1" ]}))).

Definition carolPatchesBadStatus : Req.t :=
  Req.mk (authorizationOf carol) "p-1" "t-1" {[ "status" := JStr "blocked" ]}.

(** Draws in which the uuid of the second insert is the id of a stored
    membership row. *)
Definition clash : Env :=
  {| now := 100; uuid1 := "id-1"; uuid2 := "m-1"; random := random env; salt := "s" |}.

End Example.

(** ** The client: board, statistics and socket hook

    The pages read tasks as the JSON of [TaskWithDetails], in which an enum
    value is its label. *)

Definition taskStatusLabel (status : TaskStatus) : string :=
  match status with
  | todo => "todo"
  | in_progress => "in_progress"
  | done_ => "done"
  end.

Definition taskPriorityLabel (priority : TaskPriority) : string :=
  match priority with
  | low => "low"
  | medium => "medium"
  | high => "high"
  end.

(** The board of a project: [KanbanBoard]. *)
Module KanbanBoard.

Definition columns : list string := ["todo"; "in_progress"; "done"].

Definition getTasksByStatus (tasks : list TaskWithDetails) (status : string)
    : list TaskWithDetails :=
  filter (λ task, taskStatusLabel (Task.status (twd_row task)) = status) tasks.

(** [updateTaskMutation.mutate({ taskId, newStatus })]: the request sent.
    [authorization] is the header [apiRequest] attaches. *)
Definition updateTaskMutation (authorization : option string) (projectId taskId : string)
    (newStatus : string) : Route * Req.t :=
  (PATCH_project_task,
   Req.mk authorization projectId taskId {[ "status" := JStr newStatus ]}).

(** The request [handleDrop] sends, if any. *)
Definition handleDrop (authorization : option string) (projectId : string)
    (draggedTask : option TaskWithDetails) (newStatus : string) : option (Route * Req.t) :=
  match draggedTask with
  | Some task =>
    if bool_decide (taskStatusLabel (Task.status (twd_row task)) ≠ newStatus)
    then Some (updateTaskMutation authorization projectId (Task.id (twd_row task)) newStatus)
    else None
  | None => None
  end.

End KanbanBoard.

(** The statistics and the filters of the task pages. *)
Module MyTasks.

Definition filteredTasks (tasks : list TaskWithDetails) (filterStatus filterPriority : string)
    : list TaskWithDetails :=
  filter (λ task,
            let matchesStatus :=
              bool_decide (filterStatus = "all") ||
              bool_decide (taskStatusLabel (Task.status (twd_row task)) = filterStatus) in
            let matchesPriority :=
              bool_decide (filterPriority = "all") ||
              bool_decide (taskPriorityLabel (Task.priority (twd_row task)) = filterPriority) in
            matchesStatus && matchesPriority) tasks.

Record Stats := mkStats {
  total : nat;
  completed : nat;
  inProgress : nat;
  todo : nat }.

Definition taskStats (tasks : list TaskWithDetails) : Stats :=
  {| total := length tasks;
     completed :=
       length (filter (λ t, taskStatusLabel (Task.status (twd_row t)) = "done") tasks);
     inProgress :=
       length (filter (λ t, taskStatusLabel (Task.status (twd_row t)) = "in_progress") tasks);
     todo :=
       length (filter (λ t, taskStatusLabel (Task.status (twd_row t)) = "todo") tasks) |}.

End MyTasks.

(** The hook [useWebSocket]. *)
Module useWebSocket.
(** [ws.current.onopen]: the messages the hook sends when its socket opens. *)
Definition onopen (projectId : option string) : list (gmap string jsval) :=
  match projectId with
  | Some projectId =>
    if decide (projectId = EmptyString) then []
    else [ {[ "type" := JStr "join_project"; "projectId" := JStr projectId ]} ]
  | None => []
  end.
End useWebSocket.

(** The dialog that creates a task: [CreateTaskModal]. *)
Module CreateTaskModal.

(** [CreateTaskFormData]: what the form holds. *)
Record CreateTaskFormData := mkData {
  title : string;
  description : option string;
  priority : string;
  assigneeId : option string }.

(** [createTaskSchema]: the validation of the form. *)
Definition createTaskSchema (data : CreateTaskFormData) : bool :=
  bool_decide (1 ≤ String.length (title data))%nat && fits 200 (title data) &&
  fits_opt 1000 (description data) &&
  bool_decide (is_Some (taskPriorityEnum (priority data))).

(** [{ ...data, projectId, assigneeId: data.assigneeId || null }], as
    [JSON.stringify] writes it: a property that is [undefined] is left out. *)
Definition payload (projectId : string) (data : CreateTaskFormData) : gmap string jsval :=
  <[ "assigneeId" :=
       match assigneeId data with
       | Some a => if decide (a = EmptyString) then JNull else JStr a
       | None => JNull
       end ]>
  (<[ "projectId" := JStr projectId ]>
  (<[ "priority" := JStr (priority data) ]>
  (<[ "title" := JStr (title data) ]>
   match description data with
   | Some d => {[ "description" := JStr d ]}
   | None => ∅
   end))).

(** [handleSubmit(onSubmit)]: the request sent when the form is valid. *)
Definition onSubmit (authorization : option string) (projectId : string)
    (data : CreateTaskFormData) : option (Route * Req.t) :=
  if createTaskSchema data
  then Some (POST_project_tasks,
             Req.mk authorization projectId EmptyString (payload projectId data))
  else None.

End CreateTaskModal.

(** The card of a task: [TaskCard]. *)
Module TaskCard.

(** [updateTaskMutation.mutate(updates)]: [PUT /api/tasks/${task.id}]. *)
Definition updateTaskMutation (authorization : option string) (task : TaskWithDetails)
    (updates : gmap string jsval) : Route * Req.t :=
  (PUT_task, Req.mk authorization EmptyString (Task.id (twd_row task)) updates).

Definition handleStatusChange (authorization : option string) (task : TaskWithDetails)
    (newStatus : string) : Route * Req.t :=
  updateTaskMutation authorization task {[ "status" := JStr newStatus ]}.

Definition handleAssigneeChange (authorization : option string) (task : TaskWithDetails)
    (assigneeId : string) : Route * Req.t :=
  updateTaskMutation authorization task
    {[ "assigneeId" := if decide (assigneeId = "unassign") then JNull else JStr assigneeId ]}.

End TaskCard.

(** Alice unassigns her task from its card. *)
Definition aliceUnassigns : Route * Req.t :=
  TaskCard.handleAssigneeChange (Example.authorizationOf Example.alice)
    (mkTWD Example.writeSpec (Some Example.alice) (Some Example.alice) (Some Example.sprint1))
    "unassign".

(** ** Notions used by the statements *)

(** The identity a request is served under: the payload [authenticateToken]
    hands to the handler, if it lets the request through. *)
Definition caller `{Libs} (e : Env) (req : Req.t) : option Claims :=
  authHeader ← Req.authorization req;
  token ← split " " authHeader !! 1%nat;
  if decide (token = EmptyString) then None else jwt_verify token JWT_SECRET (now e).

(** The header a client sends with a token. *)
Definition bearer (token : string) : option string := Some ("Bearer " +:+ token).

Definition no_space (str : string) : Prop := " "%char ∉ list_ascii_of_string str.

(** Referential integrity of the membership table. *)
Definition members_reference_projects (s : Store) : Prop :=
  ∀ m, m ∈ projectMembers s → ProjectMember.projectId m ∈ Project.id <$> projects s.

Definition upperHexChar (c : ascii) : Prop :=
  c ∈ list_ascii_of_string "0123456789ABCDEF".

(** A 16-character uppercase hexadecimal string. *)
Definition inviteCodeShape (code : string) : Prop :=
  String.length code = 16%nat ∧ Forall upperHexChar (list_ascii_of_string code).

(** A user object embedded in a response is a row of [users], whole: it
    has the [password] column of the row. *)
Definition creator_stored (s : Store) (createdBy : string) (creator : option User.t) : Prop :=
  creator = getUser createdBy s ∧
  ∀ u, creator = Some u → u ∈ users s ∧ User.id u = createdBy.

Definition project_users_stored (s : Store) (pw : ProjectWithMembers) : Prop :=
  creator_stored s (Project.createdBy (pwm_row pw)) (pwm_creator pw) ∧
  ∀ m u, (m, Some u) ∈ pwm_members pw →
    m ∈ projectMembers s ∧ u ∈ users s ∧ User.id u = ProjectMember.userId m.

Definition task_users_stored (s : Store) (tw : TaskWithDetails) : Prop :=
  creator_stored s (Task.createdBy (twd_row tw)) (twd_creator tw) ∧
  ∀ u, twd_assignee tw = Some u →
    u ∈ users s ∧ Task.assigneeId (twd_row tw) = Some (User.id u).

Definition response_users_stored (s : Store) (j : Json) : Prop :=
  match j with
  | ProjectJson (Some pw) => project_users_stored s pw
  | ProjectsJson pws => Forall (project_users_stored s) pws
  | TaskJson (Some tw) => task_users_stored s tw
  | TasksJson tws => Forall (task_users_stored s) tws
  | _ => True
  end.

(** The identity columns of a row. *)
Definition same_project_identity (p p' : Project.t) : Prop :=
  Project.id p' = Project.id p ∧
  Project.createdBy p' = Project.createdBy p ∧
  Project.inviteCode p' = Project.inviteCode p.

Definition same_task_identity (t t' : Task.t) : Prop :=
  Task.id t' = Task.id t ∧
  Task.projectId t' = Task.projectId t ∧
  Task.createdBy t' = Task.createdBy t.

(** The payload a task handler hands to [updateTask]. *)
Definition stripTask (body : gmap string jsval) : gmap string jsval :=
  delete "createdBy" (delete "projectId" (delete "id" body)).

(** The payload the project handler hands to [updateProject]. *)
Definition stripProject (body : gmap string jsval) : gmap string jsval :=
  delete "inviteCode" (delete "createdBy" (delete "id" body)).

(** The varchar bounds of [users]. *)
Definition users_varchars (userData : InsertUser.t) : Prop :=
  fits 100 (InsertUser.firstName userData) = true ∧
  fits 100 (InsertUser.lastName userData) = true ∧
  fits 255 (InsertUser.email userData) = true ∧
  fits_opt 500 (InsertUser.profileImageUrl userData) = true.

(** The texts of a new user, with the hash that stands for the password, are
    values the database stores: none has a character U+0000. *)
Definition users_texts (userData : InsertUser.t) (hashedPassword : string) : Prop :=
  text (InsertUser.firstName userData) = true ∧
  text (InsertUser.lastName userData) = true ∧
  text (InsertUser.email userData) = true ∧
  text hashedPassword = true ∧
  text_opt (InsertUser.profileImageUrl userData) = true.

(** The effects of the storage statements, as the routes call them. *)
Inductive db_step (e : Env) (s s' : Store) : Prop :=
| step_none :
    s' = s → db_step e s s'
| step_createUser u :
    users s' = users s ++ [u] → projects s' = projects s →
    projectMembers s' = projectMembers s → tasks s' = tasks s →
    db_step e s s'
| step_createProject p :
    users s' = users s → projects s' = projects s ++ [p] → tasks s' = tasks s →
    Project.id p = uuid1 e → uuid1 e ∉ Project.id <$> projects s →
    Project.inviteCode p = generateInviteCode e →
    (projectMembers s' = projectMembers s ∨
     ∃ m, projectMembers s' = projectMembers s ++ [m] ∧
          ProjectMember.projectId m = uuid1 e) →
    db_step e s s'
| step_addProjectMember m :
    users s' = users s → projects s' = projects s → tasks s' = tasks s →
    projectMembers s' = projectMembers s ++ [m] →
    ProjectMember.projectId m ∈ Project.id <$> projects s →
    db_step e s s'
| step_createTask t :
    users s' = users s → projects s' = projects s →
    projectMembers s' = projectMembers s → tasks s' = tasks s ++ [t] →
    Task.id t = uuid1 e → uuid1 e ∉ Task.id <$> tasks s →
    db_step e s s'
| step_updateProject :
    users s' = users s → projectMembers s' = projectMembers s → tasks s' = tasks s →
    Forall2 same_project_identity (projects s) (projects s') →
    db_step e s s'
| step_updateTask :
    users s' = users s → projects s' = projects s →
    projectMembers s' = projectMembers s →
    Forall2 same_task_identity (tasks s) (tasks s') →
    db_step e s s'
| step_deleteProject id :
    users s' = users s →
    projects s' = filter (λ p, Project.id p ≠ id) (projects s) →
    projectMembers s' = filter (λ m, ProjectMember.projectId m ≠ id) (projectMembers s) →
    tasks s' = filter (λ t, Task.projectId t ≠ id) (tasks s) →
    db_step e s s'
| step_deleteTask id :
    users s' = users s → projects s' = projects s →
    projectMembers s' = projectMembers s →
    tasks s' = filter (λ t, Task.id t ≠ id) (tasks s) →
    db_step e s s'.

(** Keys are unique, membership rows reference stored projects, and invite
    codes have the shape [generateInviteCode] gives them. *)
Record store_ok (s : Store) : Prop := mk_store_ok {
  ok_project_ids : NoDup (Project.id <$> projects s);
  ok_task_ids : NoDup (Task.id <$> tasks s);
  ok_members : members_reference_projects s;
  ok_codes : ∀ p, p ∈ projects s → inviteCodeShape (Project.inviteCode p) }.

(** The worlds the server goes through from an empty database when it
    serves one request after the other.  Requests that overlap interleave
    at the [await]s of their handlers; what is proved of these worlds holds
    for them as far as it rests on one statement or on the constraints of
    the schema. *)
Inductive reachable `{Libs} : World → Prop :=
| reachable_start clients :
    reachable (mkWorld emptyStore clients)
| reachable_serve route e req w :
    reachable w → reachable (serve route e req w).2
| reachable_ws ev w :
    reachable w → reachable (mkWorld (db w) (ws_step (wss_clients w) ev)).

(** The membership row [createProject] adds for the creator. *)
Definition ownerRow (e : Env) (p : Project.t) : ProjectMember.t :=
  ProjectMember.mk (uuid2 e) (Project.id p) (Project.createdBy p) owner (now e).

(** The storage call of a request, with what the database checked: a
    refinement of [db_step] that keeps the rows written and the constraints
    they passed. *)
Inductive db_write (e : Env) (s s' : Store) : Prop :=
| write_none :
    s' = s → db_write e s s'
| write_user u :
    users_constraints s u = Ok tt →
    s' = mkStore (users s ++ [u]) (projects s) (projectMembers s) (tasks s) →
    db_write e s s'
| write_project p :
    projects_constraints s p = Ok tt →
    Project.id p = uuid1 e →
    s' = mkStore (users s) (projects s ++ [p]) (projectMembers s) (tasks s) ∨
    s' = mkStore (users s) (projects s ++ [p]) (projectMembers s ++ [ownerRow e p]) (tasks s) →
    db_write e s s'
| write_member m :
    projectMembers_constraints s m = Ok tt →
    ProjectMember.role m = member →
    getUserProjectRole (ProjectMember.projectId m) (ProjectMember.userId m) s = None →
    s' = mkStore (users s) (projects s) (projectMembers s ++ [m]) (tasks s) →
    db_write e s s'
| write_task t :
    tasks_constraints s t = Ok tt →
    s' = mkStore (users s) (projects s) (projectMembers s) (tasks s ++ [t]) →
    db_write e s s'
| write_updateProject id body r :
    updateProject e id (stripProject body) s = (r, s') → db_write e s s'
| write_updateTask id body r :
    updateTask e id (stripTask body) s = (r, s') → db_write e s s'
| write_deleteProject id r :
    deleteProject id s = (r, s') → db_write e s s'
| write_deleteTask id r :
    deleteTask id s = (r, s') → db_write e s s'.

(** The pair a role is looked up by. *)
Definition role_key (m : ProjectMember.t) : string * string :=
  (ProjectMember.projectId m, ProjectMember.userId m).

(** Keys the schema declares unique are unique, foreign keys point at stored
    rows, and a row with role "owner" names the creator of its project.
    That a (project, user) pair has one membership row is kept by the
    lookup of the join handler, not by the schema: it holds when requests
    are served one after the other. *)
Record store_wf (s : Store) : Prop := mk_store_wf {
  wf_user_ids : NoDup (User.id <$> users s);
  wf_emails : NoDup (User.email <$> users s);
  wf_codes : NoDup (Project.inviteCode <$> projects s);
  wf_project_creators :
    ∀ p, p ∈ projects s → Project.createdBy p ∈ User.id <$> users s;
  wf_member_users :
    ∀ m, m ∈ projectMembers s → ProjectMember.userId m ∈ User.id <$> users s;
  wf_task_projects :
    ∀ t, t ∈ tasks s → Task.projectId t ∈ Project.id <$> projects s;
  wf_task_creators :
    ∀ t, t ∈ tasks s → Task.createdBy t ∈ User.id <$> users s;
  wf_task_assignees :
    ∀ t a, t ∈ tasks s → Task.assigneeId t = Some a → a ∈ User.id <$> users s;
  wf_roles : NoDup (role_key <$> projectMembers s);
  wf_owners :
    ∀ m, m ∈ projectMembers s → ProjectMember.role m = owner →
      ∃ p, p ∈ projects s ∧ Project.id p = ProjectMember.projectId m ∧
           Project.createdBy p = ProjectMember.userId m }.

(** A task row after an update: its identity columns are kept, and a new
    assignee is a stored user. *)
Definition task_kept (s : Store) (t t' : Task.t) : Prop :=
  same_task_identity t t' ∧
  ∀ a, Task.assigneeId t' = Some a → Task.assigneeId t = Some a ∨ a ∈ User.id <$> users s.

(** A hydrated object of a response, as the adapter builds it from the
    store. *)
Definition project_read (s : Store) (pw : ProjectWithMembers) : Prop :=
  pwm_row pw ∈ projects s ∧ pw = withMembers s (pwm_row pw).

Definition task_read (s : Store) (tw : TaskWithDetails) : Prop :=
  ∃ j, j ∈ tasksJoined s ∧ tw = withDetails s j.

Definition response_read (s : Store) (j : Json) : Prop :=
  match j with
  | ProjectJson (Some pw) => project_read s pw
  | ProjectsJson pws => Forall (project_read s) pws
  | TaskJson (Some tw) => task_read s tw
  | TasksJson tws => Forall (task_read s) tws
  | _ => True
  end.

(** No [null] where the adapter asserts a value ([m.users!],
    [task.projects!]) or types one ([creator: User]); the assignee is there
    exactly when the row names one. *)
Definition project_hydrated (pw : ProjectWithMembers) : Prop :=
  is_Some (pwm_creator pw) ∧
  ∀ m ou, (m, ou) ∈ pwm_members pw → is_Some ou.

Definition task_hydrated (tw : TaskWithDetails) : Prop :=
  is_Some (twd_creator tw) ∧
  is_Some (twd_project tw) ∧
  (is_Some (twd_assignee tw) ↔ is_Some (Task.assigneeId (twd_row tw))).

Definition response_hydrated (j : Json) : Prop :=
  match j with
  | ProjectJson (Some pw) => project_hydrated pw
  | ProjectsJson pws => Forall project_hydrated pws
  | TaskJson (Some tw) => task_hydrated tw
  | TasksJson tws => Forall task_hydrated tws
  | _ => True
  end.

(** The orders of the lists. *)
Definition newest_first (a b : TaskWithDetails) : Prop :=
  Task.createdAt (twd_row b) ≤ Task.createdAt (twd_row a).

Definition recently_updated_first (a b : ProjectWithMembers) : Prop :=
  Project.updatedAt (pwm_row b) ≤ Project.updatedAt (pwm_row a).

(** The kind of event a route publishes, if any. *)
Definition route_event (route : Route) : option string :=
  match route with
  | PUT_project => Some "project_updated"
  | POST_projects_join => Some "member_joined"
  | POST_project_tasks => Some "task_created"
  | PUT_task | PATCH_project_task => Some "task_updated"
  | DELETE_task => Some "task_deleted"
  | _ => None
  end.

(** Reading an uppercase hexadecimal text back: two digits a byte. *)
Definition hexValue (c : ascii) : N :=
  let n := N_of_ascii c in
  if (65 <=? n)%N then (n - 55)%N else (n - 48)%N.

Fixpoint fromHex (code : string) : list N :=
  match code with
  | String hi (String lo rest) => (hexValue hi * 16 + hexValue lo)%N :: fromHex rest
  | _ => []
  end.

(** The row after a change of status. *)
Definition moved (e : Env) (status : TaskStatus) (t : Task.t) : Task.t :=
  {| Task.id := Task.id t;
     Task.title := Task.title t;
     Task.description := Task.description t;
     Task.status := status;
     Task.priority := Task.priority t;
     Task.projectId := Task.projectId t;
     Task.assigneeId := Task.assigneeId t;
     Task.createdBy := Task.createdBy t;
     Task.createdAt := Task.createdAt t;
     Task.updatedAt := now e |}.

(** The row after a change of assignee. *)
Definition assigned (e : Env) (assigneeId : option string) (t : Task.t) : Task.t :=
  {| Task.id := Task.id t;
     Task.title := Task.title t;
     Task.description := Task.description t;
     Task.status := Task.status t;
     Task.priority := Task.priority t;
     Task.projectId := Task.projectId t;
     Task.assigneeId := assigneeId;
     Task.createdBy := Task.createdBy t;
     Task.createdAt := Task.createdAt t;
     Task.updatedAt := now e |}.

(** * Properties *)

(** ** Lists, outcomes and strings *)

(** [const [x] = rows.filter(P)] is [undefined] exactly when no row satisfies
    [P]. *)
Lemma head_filter_None {A} (P : A → Prop) `{∀ x, Decision (P x)} (l : list A) :
  (∀ x, x ∈ l → ¬ P x) → head (filter P l) = None.
Proof.
  intros Hno. destruct (filter P l) as [|x l'] eqn:E; [reflexivity|].
  assert (x ∈ filter P l) as Hx by (rewrite E; left).
  apply list_elem_of_filter in Hx as [HP Hx]. destruct (Hno x Hx HP).
Qed.

Lemma head_filter_Some {A} (P : A → Prop) `{∀ x, Decision (P x)} (l : list A) x :
  head (filter P l) = Some x → x ∈ l ∧ P x.
Proof.
  intros Hh. apply head_Some_elem_of in Hh.
  apply list_elem_of_filter in Hh as [HP Hx]. split; assumption.
Qed.

Lemma head_filter_None_inv {A} (P : A → Prop) `{∀ x, Decision (P x)} (l : list A) :
  head (filter P l) = None → ∀ x, x ∈ l → ¬ P x.
Proof.
  intros Hh x Hx HP.
  assert (x ∈ filter P l) as Hin by (apply list_elem_of_filter; split; assumption).
  destruct (filter P l); [inversion Hin|discriminate].
Qed.

Lemma filter_nil_not_elem {A} (P : A → Prop) `{∀ x, Decision (P x)} (l : list A) :
  (∀ x, x ∈ l → ¬ P x) → filter P l = [].
Proof.
  intros Hno. destruct (filter P l) as [|x l'] eqn:E; [reflexivity|].
  assert (x ∈ filter P l) as Hx by (rewrite E; left).
  apply list_elem_of_filter in Hx as [HP Hx]. destruct (Hno x Hx HP).
Qed.

(** An element of the right list has a partner in the left one. *)
Lemma Forall2_elem_of_r {A B} (Q : A → B → Prop) l k y :
  Forall2 Q l k → y ∈ k → ∃ x, x ∈ l ∧ Q x y.
Proof.
  intros HF Hy. apply list_elem_of_lookup_1 in Hy as [i Hi].
  destruct (Forall2_lookup_r _ _ _ _ _ HF Hi) as (x & Hx & HQ).
  exists x. split; [eapply list_elem_of_lookup_2; exact Hx|exact HQ].
Qed.

Lemma NoDup_fmap_filter {A B} (f : A → B) (P : A → Prop) `{∀ x, Decision (P x)} l :
  NoDup (f <$> l) → NoDup (f <$> filter P l).
Proof.
  induction l as [|x l IH]; [intros; constructor|].
  rewrite fmap_cons. intros Hnd. apply NoDup_cons in Hnd as [Hx Hnd].
  rewrite filter_cons. destruct (decide (P x)); [|apply IH; exact Hnd].
  rewrite fmap_cons. apply NoDup_cons. split; [|apply IH; exact Hnd].
  intros Hin. apply Hx. apply list_elem_of_fmap in Hin as (y & Hy & Hin).
  apply list_elem_of_filter in Hin as [_ Hin]. rewrite Hy.
  apply list_elem_of_fmap_2. exact Hin.
Qed.

Lemma NoDup_snoc {A} (l : list A) x : NoDup l → x ∉ l → NoDup (l ++ [x]).
Proof.
  intros Hnd Hx. apply NoDup_app. split; [exact Hnd|]. split.
  - intros y Hy Hin. apply list_elem_of_singleton in Hin. subst. contradiction.
  - apply NoDup_singleton.
Qed.

(** Under a unique key, two rows with the same key are the same row. *)
Lemma NoDup_fmap_inj_on {A B} (f : A → B) (l : list A) x y :
  NoDup (f <$> l) → x ∈ l → y ∈ l → f x = f y → x = y.
Proof.
  induction l as [|z l IH]; [intros _ Hx; inversion Hx|].
  rewrite fmap_cons. intros Hnd Hx Hy Hf. apply NoDup_cons in Hnd as [Hz Hnd].
  apply elem_of_cons in Hx as [->|Hx]; apply elem_of_cons in Hy as [->|Hy].
  - reflexivity.
  - exfalso. apply Hz. rewrite Hf. apply list_elem_of_fmap_2. exact Hy.
  - exfalso. apply Hz. rewrite <- Hf. apply list_elem_of_fmap_2. exact Hx.
  - apply IH; assumption.
Qed.

(** [x ∉ l] for a concrete list [l]. *)
Ltac absent :=
  let Hin := fresh "Hin" in
  intros Hin;
  repeat (apply elem_of_cons in Hin as [Hin|Hin]; [discriminate|]);
  inversion Hin.

(** A sequence that returns went through each of its steps. *)
Lemma outcome_bind_Ok {A B} (m : outcome A) (f : A → outcome B) (b : B) :
  m ≫= f = Ok b → ∃ a, m = Ok a ∧ f a = Ok b.
Proof. destruct m as [a|err]; simpl; [eauto|discriminate]. Qed.

Ltac bind_inv H :=
  repeat (apply outcome_bind_Ok in H;
          let a := fresh "v" in let Ha := fresh "Hv" in
          destruct H as (a & Ha & H)).

Lemma guard_db_Ok b err u : guard_db b err = Ok u → b = true.
Proof. destruct b; [reflexivity|discriminate]. Qed.

Lemma split_no_sep sep str :
  sep ∉ list_ascii_of_string str → split sep str = [str].
Proof.
  induction str as [|c str IH]; simpl; intros Hno; [reflexivity|].
  destruct (Ascii.eqb c sep) eqn:Hc.
  - apply Ascii.eqb_eq in Hc. subst. exfalso. apply Hno. left.
  - rewrite IH; [reflexivity|]. intros Hin. apply Hno. right. exact Hin.
Qed.

(** ["Bearer <token>".split(' ')[1]] is the token when it has no space. *)
Lemma split_bearer token :
  no_space token → split " " ("Bearer " +:+ token) !! 1%nat = Some token.
Proof.
  intros Hno.
  change ("Bearer " +:+ token) with
    (String "B" (String "e" (String "a" (String "r" (String "e" (String "r"
       (String " " token))))))).
  assert (split " " (String " " token) = [EmptyString; token]) as Hsp.
  { change (split " " (String " " token)) with (EmptyString :: split " " token).
    rewrite (split_no_sep _ _ Hno). reflexivity. }
  change (split " " (String "B" (String "e" (String "a" (String "r" (String "e" (String "r"
            (String " " token)))))))) with
    (match split " " (String " " token) with
     | [] => ["Bearer"]
     | h :: t => ("Bearer" +:+ h) :: t
     end).
  rewrite Hsp. reflexivity.
Qed.

(** ** The storage adapter: queries *)

(** A joined row pairs a row of the left table with [null] or with a row
    of the right table that satisfies the join condition. *)
Lemma leftJoin_elem_of {A B} (on : A → B → bool) (l : list A) (r : list B) a ob :
  (a, ob) ∈ leftJoin on l r →
  a ∈ l ∧ ∀ b, ob = Some b → b ∈ r ∧ on a b = true.
Proof.
  unfold leftJoin. intros Hin.
  apply list_elem_of_bind in Hin as (a0 & Hin & Ha0).
  destruct (filter (λ b, on a0 b) r) as [|b0 bs] eqn:Hf.
  - apply list_elem_of_singleton in Hin. inversion Hin; subst.
    split; [exact Ha0|]. intros b Hb. discriminate.
  - apply list_elem_of_fmap in Hin as (b & Heq & Hb). inversion Heq; subst.
    split; [exact Ha0|]. intros b' Hb'. inversion Hb'; subst.
    rewrite <- Hf in Hb. apply list_elem_of_filter in Hb as [Hon Hb].
    split; [exact Hb|]. apply Is_true_eq_true. exact Hon.
Qed.

Lemma tasksJoined_elem_of s t ou op :
  ((t, ou), op) ∈ tasksJoined s →
  t ∈ tasks s ∧
  (∀ u, ou = Some u → u ∈ users s ∧ Task.assigneeId t = Some (User.id u)) ∧
  (∀ p, op = Some p → p ∈ projects s ∧ Task.projectId t = Project.id p).
Proof.
  unfold tasksJoined. intros Hin.
  apply leftJoin_elem_of in Hin as [Hin Hp].
  apply leftJoin_elem_of in Hin as [Hin Hu].
  split; [exact Hin|]. split.
  - intros u Hou. destruct (Hu u Hou) as [Hu1 Hu2]. split; [exact Hu1|].
    apply bool_decide_eq_true in Hu2. exact Hu2.
  - intros p Hop. destruct (Hp p Hop) as [Hp1 Hp2]. split; [exact Hp1|].
    apply bool_decide_eq_true in Hp2. exact Hp2.
Qed.

(** The task [getTask] returns is the stored row of that id. *)
Lemma getTask_row id s tw :
  getTask id s = Some tw → twd_row tw ∈ tasks s ∧ Task.id (twd_row tw) = id.
Proof.
  unfold getTask. intros Hg.
  destruct (head (filter (λ j, Task.id j.1.1 = id) (tasksJoined s)))
    as [[[t ou] op]|] eqn:Hh; inversion Hg; subst; clear Hg.
  apply head_filter_Some in Hh as [Hin Hid]. simpl in *.
  apply tasksJoined_elem_of in Hin as (Hin & _). split; assumption.
Qed.


(** The role lookup, read off the membership rows of the project. *)
Lemma getUserProjectRole_filter projectId userId s :
  getUserProjectRole projectId userId s =
  ProjectMember.role <$>
    head (filter (λ m, ProjectMember.userId m = userId)
            (filter (λ m, ProjectMember.projectId m = projectId) (projectMembers s))).
Proof.
  unfold getUserProjectRole. f_equal. f_equal.
  induction (projectMembers s) as [|m l IH]; [reflexivity|].
  rewrite !filter_cons.
  destruct (decide (ProjectMember.projectId m = projectId)) as [Hp|Hp].
  - rewrite filter_cons.
    destruct (decide (ProjectMember.userId m = userId)) as [Hu|Hu].
    + rewrite decide_True by (split; assumption). f_equal. exact IH.
    + rewrite decide_False by (intros [_ ?]; contradiction). exact IH.
  - rewrite decide_False by (intros [? _]; contradiction). exact IH.
Qed.

Lemma creator_lookup_stored s createdBy :
  creator_stored s createdBy (head (filter (λ u, User.id u = createdBy) (users s))).
Proof.
  split; [reflexivity|].
  intros u Hu. apply (head_filter_Some (λ u, User.id u = createdBy)) in Hu. exact Hu.
Qed.

(** The creator and the users of the members of a hydrated project are
    stored rows. *)
Lemma withMembers_stored s project : project_users_stored s (withMembers s project).
Proof.
  split; [apply creator_lookup_stored|].
  simpl. unfold getProjectMembers. intros m u Hin.
  apply list_elem_of_filter in Hin as [_ Hin].
  apply leftJoin_elem_of in Hin as [Hm Hu]. destruct (Hu u eq_refl) as [Hu1 Hu2].
  apply bool_decide_eq_true in Hu2. repeat split; [assumption..|]. symmetry. exact Hu2.
Qed.

Lemma getProjectWithMembers_stored id s pw :
  getProjectWithMembers id s = Some pw → project_users_stored s pw.
Proof.
  unfold getProjectWithMembers.
  destruct (head _) as [project|]; intros Hg; inversion Hg; subst.
  apply withMembers_stored.
Qed.

Lemma getUserProjects_stored userId s :
  Forall (project_users_stored s) (getUserProjects userId s).
Proof.
  unfold getUserProjects. destruct (_ <$> _); [constructor|].
  apply Forall_fmap, Forall_forall. intros project _. apply withMembers_stored.
Qed.

(** The creator and the assignee of a hydrated task are stored rows. *)
Lemma withDetails_stored s j : j ∈ tasksJoined s → task_users_stored s (withDetails s j).
Proof.
  destruct j as [[t ou] op]. intros Hin.
  apply tasksJoined_elem_of in Hin as (_ & Hu & _).
  split; [apply creator_lookup_stored|]. simpl. exact Hu.
Qed.

Lemma getTask_stored id s tw : getTask id s = Some tw → task_users_stored s tw.
Proof.
  unfold getTask.
  destruct (head _) as [j|] eqn:Hh; intros Hg; inversion Hg; subst.
  apply withDetails_stored. apply head_Some_elem_of in Hh.
  apply list_elem_of_filter in Hh as [_ Hh]. exact Hh.
Qed.

Lemma sorted_details_stored s (P : (Task.t * option User.t) * option Project.t → Prop)
    `{∀ j, Decision (P j)} :
  Forall (task_users_stored s)
    (withDetails s <$> merge_sort desc_createdAt (filter P (tasksJoined s))).
Proof.
  apply Forall_fmap, Forall_forall. intros j Hin. apply withDetails_stored.
  rewrite merge_sort_Permutation in Hin.
  apply list_elem_of_filter in Hin as [_ Hin]. exact Hin.
Qed.

Lemma getProjectTasks_stored projectId s :
  Forall (task_users_stored s) (getProjectTasks projectId s).
Proof. apply sorted_details_stored. Qed.

Lemma getUserTasks_stored userId s :
  Forall (task_users_stored s) (getUserTasks userId s).
Proof. apply sorted_details_stored. Qed.

(** ** The storage adapter: inserts and deletes *)

(** A statement that returns was accepted and wrote; one that throws wrote
    nothing. *)
Lemma statement_Ok {A} chk (a b : A) write s s' :
  statement chk a write s = (Ok b, s') → chk s = Ok tt ∧ b = a ∧ s' = write s.
Proof.
  unfold statement. destruct (chk s) as [[]|err]; intros Hs; inversion Hs; subst.
  repeat split.
Qed.

Lemma statement_Throw {A} chk (a : A) write s err s' :
  statement chk a write s = (Throw err, s') → s' = s.
Proof.
  unfold statement. destruct (chk s) as [[]|err']; intros Hs; inversion Hs; subst.
  reflexivity.
Qed.

Lemma statement_cases {A} chk (a : A) write s r s' :
  statement chk a write s = (r, s') →
  (chk s = Ok tt ∧ r = Ok a ∧ s' = write s) ∨ (∃ err, r = Throw err ∧ s' = s).
Proof.
  unfold statement. destruct (chk s) as [[]|err]; intros Hs; inversion Hs; subst.
  - left. repeat split.
  - right. exists err. split; reflexivity.
Qed.

(** What [createProject] wrote when it returns. *)
Lemma createProject_Ok e projectData createdBy s p s' :
  createProject e projectData createdBy s = (Ok p, s') →
  Project.id p = uuid1 e ∧
  Project.createdBy p = createdBy ∧
  Project.inviteCode p = generateInviteCode e ∧
  (uuid1 e ∉ Project.id <$> projects s) ∧
  users s' = users s ∧ tasks s' = tasks s ∧
  projects s' = projects s ++ [p] ∧
  projectMembers s' =
    projectMembers s ++ [ProjectMember.mk (uuid2 e) (uuid1 e) createdBy owner (now e)].
Proof.
  unfold createProject, st_bind, st_ret. intros Hc.
  destruct (statement _ _ _ s) as [[p0|err] s0] eqn:Hp; [|inversion Hc].
  apply statement_Ok in Hp as (Hchk & -> & ->).
  destruct (addMemberRow _ _ _ _) as [[m|err] s1] eqn:Hm; inversion Hc; subst; clear Hc.
  unfold addMemberRow in Hm. apply statement_Ok in Hm as (_ & -> & ->). simpl.
  repeat split.
  bind_inv Hchk. unfold projects_constraints in Hchk. bind_inv Hchk.
  apply guard_db_Ok, bool_decide_eq_true in Hv5. exact Hv5.
Qed.

(** A membership insert either leaves the database alone or appends one row
    that references a stored project. *)
Lemma addMemberRow_cases id e values s r s' :
  addMemberRow id e values s = (r, s') →
  s' = s ∨
  ∃ m, ProjectMember.projectId m = InsertProjectMember.projectId values ∧
       ProjectMember.projectId m ∈ Project.id <$> projects s ∧
       s' = mkStore (users s) (projects s) (projectMembers s ++ [m]) (tasks s).
Proof.
  unfold addMemberRow. intros Hs.
  apply statement_cases in Hs as [(Hchk & _ & ->)|(err & _ & ->)]; [|left; reflexivity].
  right.
  exists (ProjectMember.mk id (InsertProjectMember.projectId values)
            (InsertProjectMember.userId values)
            (default member (InsertProjectMember.role values)) (now e)).
  split; [reflexivity|]. split; [|reflexivity].
  unfold projectMembers_constraints in Hchk. bind_inv Hchk.
  apply guard_db_Ok in Hv0. apply bool_decide_eq_true in Hv0. exact Hv0.
Qed.

(** A delete that removed a project removed its membership rows and its
    tasks with it. *)
Lemma deleteProject_cascade id s success s' :
  deleteProject id s = (Ok success, s') →
  success = true →
  users s' = users s ∧
  projects s' = filter (λ p, Project.id p ≠ id) (projects s) ∧
  projectMembers s' = filter (λ m, ProjectMember.projectId m ≠ id) (projectMembers s) ∧
  tasks s' = filter (λ t, Task.projectId t ≠ id) (tasks s).
Proof.
  unfold deleteProject. intros Hd ->.
  destruct (filter (λ p, Project.id p = id) (projects s)); inversion Hd; subst.
  repeat split.
Qed.

Lemma not_found_after_delete id s s' :
  projects s' = filter (λ p, Project.id p ≠ id) (projects s) →
  getProject id s' = None ∧ getProjectWithMembers id s' = None.
Proof.
  intros Hp.
  assert (head (filter (λ p, Project.id p = id) (projects s')) = None) as Hnone.
  { apply head_filter_None. intros p Hin. rewrite Hp in Hin.
    apply list_elem_of_filter in Hin as [Hne _]. exact Hne. }
  unfold getProject, getProjectWithMembers. rewrite Hnone. split; reflexivity.
Qed.

(** ** The storage adapter: updates *)

Lemma notNull_absent {A} (cur a : A) : notNull cur None = Ok a → a = cur.
Proof. simpl. congruence. Qed.

(** The table after an update relates row by row to the table before, by any
    reflexive relation the row function respects; and each returned row is
    the image of a selected row. *)
Lemma update_rows_Forall2 {R} (Q : R → R → Prop) hit f (rows table returning : list R) :
  (∀ r, Q r r) →
  (∀ r r', f r = Ok r' → Q r r') →
  update_rows hit f rows = Ok (table, returning) →
  Forall2 Q rows table ∧
  Forall (λ r', ∃ r, r ∈ rows ∧ hit r = true ∧ f r = Ok r') returning.
Proof.
  intros Hrefl Hf. revert table returning.
  induction rows as [|r rows IH]; intros table returning Hup; simpl in Hup.
  - inversion Hup; subst. split; constructor.
  - destruct (hit r) eqn:Hhit.
    + apply outcome_bind_Ok in Hup as (r' & Hr' & Hup).
      apply outcome_bind_Ok in Hup as ([table' returning'] & Hrest & Hup).
      inversion Hup; subst; clear Hup. simpl.
      destruct (IH _ _ Hrest) as [IH1 IH2]. split.
      * constructor; [apply Hf; exact Hr'|exact IH1].
      * constructor.
        -- exists r. split; [left|]. split; assumption.
        -- eapply Forall_impl; [exact IH2|]. simpl.
           intros x (r0 & Hin & Hh & Hfx). exists r0. split; [right; exact Hin|]. split; assumption.
    + apply outcome_bind_Ok in Hup as ([table' returning'] & Hrest & Hup).
      inversion Hup; subst; clear Hup. simpl.
      destruct (IH _ _ Hrest) as [IH1 IH2]. split.
      * constructor; [apply Hrefl|exact IH1].
      * eapply Forall_impl; [exact IH2|]. simpl.
        intros x (r0 & Hin & Hh & Hfx). exists r0. split; [right; exact Hin|]. split; assumption.
Qed.

Lemma col_text_absent k (updates : gmap string jsval) :
  updates !! k = None → col_text k updates = None.
Proof. unfold col_text. intros ->. reflexivity. Qed.

Lemma col_varchar_absent n k (updates : gmap string jsval) :
  updates !! k = None → col_varchar n k updates = Ok None.
Proof. unfold col_varchar. intros ->. reflexivity. Qed.

Lemma col_string_absent k (updates : gmap string jsval) :
  updates !! k = None → col_string k updates = Ok None.
Proof. unfold col_string. intros ->. reflexivity. Qed.

(** After the three [delete]s the payload does not name the identity
    columns. *)
Lemma stripTask_absent body :
  stripTask body !! "id" = None ∧
  stripTask body !! "projectId" = None ∧
  stripTask body !! "createdBy" = None.
Proof.
  unfold stripTask. repeat split.
  - rewrite !lookup_delete_ne by discriminate. apply lookup_delete_eq.
  - rewrite lookup_delete_ne by discriminate. apply lookup_delete_eq.
  - apply lookup_delete_eq.
Qed.

Lemma stripProject_absent body :
  stripProject body !! "id" = None ∧
  stripProject body !! "createdBy" = None ∧
  stripProject body !! "inviteCode" = None.
Proof.
  unfold stripProject. repeat split.
  - rewrite !lookup_delete_ne by discriminate. apply lookup_delete_eq.
  - rewrite lookup_delete_ne by discriminate. apply lookup_delete_eq.
  - apply lookup_delete_eq.
Qed.

(** A row rewritten from a stripped payload keeps its identity columns. *)
Lemma task_apply_stripped s e body set t t' :
  task_set (stripTask body) = Ok set →
  task_apply s e set t = Ok t' →
  same_task_identity t t'.
Proof.
  intros Hset Happly.
  destruct (stripTask_absent body) as (Hid & Hpid & Hcb).
  unfold task_set in Hset. bind_inv Hset. inversion Hset; subst; clear Hset.
  unfold task_apply in Happly. simpl in Happly.
  rewrite (col_text_absent _ _ Hid), (col_text_absent _ _ Hpid),
    (col_text_absent _ _ Hcb) in Happly.
  simpl in Happly. bind_inv Happly. inversion Happly; subst; clear Happly.
  repeat split.
Qed.

Lemma project_apply_stripped s e body set p p' :
  project_set (stripProject body) = Ok set →
  project_apply s e set p = Ok p' →
  same_project_identity p p'.
Proof.
  intros Hset Happly.
  destruct (stripProject_absent body) as (Hid & Hcb & Hic).
  unfold project_set in Hset. bind_inv Hset. inversion Hset; subst; clear Hset.
  rewrite (col_varchar_absent _ _ _ Hic) in *.
  match goal with Hx : Ok None = Ok _ |- _ => inversion Hx; subst; clear Hx end.
  unfold project_apply in Happly. simpl in Happly.
  rewrite (col_text_absent _ _ Hid), (col_text_absent _ _ Hcb) in Happly.
  simpl in Happly. bind_inv Happly. inversion Happly; subst; clear Happly.
  repeat split.
Qed.

Lemma Forall2_same_task_refl l : Forall2 same_task_identity l l.
Proof. apply Forall_Forall2_diag, Forall_forall. intros t _. repeat split. Qed.

Lemma Forall2_same_project_refl l : Forall2 same_project_identity l l.
Proof. apply Forall_Forall2_diag, Forall_forall. intros t _. repeat split. Qed.

(** [updateTask] under a stripped payload touches the [tasks] table only,
    and no identity column of it. *)
Lemma updateTask_stripped e id body s r s' :
  updateTask e id (stripTask body) s = (r, s') →
  users s' = users s ∧ projects s' = projects s ∧
  projectMembers s' = projectMembers s ∧
  Forall2 same_task_identity (tasks s) (tasks s').
Proof.
  unfold updateTask. intros Hup.
  assert (Forall2 same_task_identity (tasks s) (tasks s)) as Hsame.
  { apply Forall_Forall2_diag, Forall_forall. intros t _. repeat split. }
  destruct (task_set (stripTask body)) as [set|err] eqn:Hset; simpl in Hup;
    [|inversion Hup; subst; repeat split; exact Hsame].
  destruct (update_rows _ _ _) as [[table returning]|err] eqn:Hrows;
    inversion Hup; subst; clear Hup; simpl; [|repeat split; exact Hsame].
  repeat split.
  eapply (update_rows_Forall2 same_task_identity) in Hrows as [Hrows _]; [exact Hrows| |].
  - intros t. repeat split.
  - intros t t' Ht. eapply task_apply_stripped; eassumption.
Qed.

(** [updateProject] under a stripped payload touches the [projects] table
    only, and no identity column of it; the row it returns has the id asked
    for. *)
Lemma updateProject_stripped e id body s r s' :
  updateProject e id (stripProject body) s = (r, s') →
  users s' = users s ∧ tasks s' = tasks s ∧
  projectMembers s' = projectMembers s ∧
  Forall2 same_project_identity (projects s) (projects s') ∧
  ∀ p', r = Ok (Some p') →
    Project.id p' = id ∧ ∃ p, p ∈ projects s ∧ same_project_identity p p'.
Proof.
  unfold updateProject. intros Hup.
  assert (Forall2 same_project_identity (projects s) (projects s)) as Hsame.
  { apply Forall_Forall2_diag, Forall_forall. intros t _. repeat split. }
  destruct (project_set (stripProject body)) as [set|err] eqn:Hset; simpl in Hup;
    [|inversion Hup; subst; repeat split; [exact Hsame|discriminate|discriminate]].
  destruct (update_rows _ _ _) as [[table returning]|err] eqn:Hrows;
    inversion Hup; subst; clear Hup; simpl;
    [|repeat split; [exact Hsame|discriminate|discriminate]].
  eapply (update_rows_Forall2 same_project_identity) in Hrows as [Hrows Hret].
  - split; [reflexivity|]. split; [reflexivity|]. split; [reflexivity|].
    split; [exact Hrows|]. intros p' Hp'. inversion Hp' as [Hhead]; clear Hp'.
    apply head_Some_elem_of in Hhead.
    rewrite Forall_forall in Hret. destruct (Hret p' Hhead) as (p & Hin & Hhit & Happ).
    apply bool_decide_eq_true in Hhit.
    pose proof (project_apply_stripped _ _ _ _ _ _ Hset Happ) as Hid.
    split; [destruct Hid as (-> & _); exact Hhit|]. exists p. split; assumption.
  - intros t. repeat split.
  - intros t t' Ht. eapply project_apply_stripped; eassumption.
Qed.

(** Tables related by identity have the same ids and invite codes, in
    order. *)
Lemma same_project_identity_ids l l' :
  Forall2 same_project_identity l l' →
  Project.id <$> l' = Project.id <$> l ∧
  Project.inviteCode <$> l' = Project.inviteCode <$> l.
Proof.
  induction 1 as [|p p' l l' (Hid & _ & Hcode) _ [IH1 IH2]]; [split; reflexivity|].
  rewrite !fmap_cons, Hid, Hcode, IH1, IH2. split; reflexivity.
Qed.

Lemma same_task_identity_ids l l' :
  Forall2 same_task_identity l l' → Task.id <$> l' = Task.id <$> l.
Proof.
  induction 1 as [|t t' l l' (Hid & _ & _) _ IH]; [reflexivity|].
  rewrite !fmap_cons, Hid, IH. reflexivity.
Qed.

(** ** Invite codes *)

Lemma toHex_length buf : String.length (toHex buf) = (2 * length buf)%nat.
Proof. induction buf as [|b buf IH]; simpl; [reflexivity|]. rewrite IH. lia. Qed.

Lemma toUpperCase_length str : String.length (toUpperCase str) = String.length str.
Proof. induction str as [|c str IH]; simpl; [reflexivity|]. rewrite IH. reflexivity. Qed.

(** An uppercased hexadecimal digit is one of [0-9A-F]. *)
Lemma upperChar_hexDigit n : upperHexChar (upperChar (hexDigit n)).
Proof.
  unfold hexDigit, upperHexChar.
  repeat match goal with
         | |- context [match ?p with _ => _ end] => destruct p
         end;
    vm_compute; repeat constructor.
Qed.

Lemma toUpperCase_toHex buf :
  Forall upperHexChar (list_ascii_of_string (toUpperCase (toHex buf))).
Proof.
  induction buf as [|b buf IH]; simpl; [constructor|].
  constructor; [apply upperChar_hexDigit|].
  constructor; [apply upperChar_hexDigit|exact IH].
Qed.

(** 8 random bytes give 16 characters among [0-9A-F]. *)
Lemma generateInviteCode_shape e : inviteCodeShape (generateInviteCode e).
Proof.
  unfold inviteCodeShape, generateInviteCode. split.
  - rewrite toUpperCase_length, toHex_length. unfold randomBytes.
    rewrite length_fmap, length_seq. reflexivity.
  - apply toUpperCase_toHex.
Qed.

(** Reading the digits back gives the bytes. *)
Lemma fromHex_byte b :
  (hexValue (upperChar (hexDigit (Byte.to_N b / 16))) * 16 +
   hexValue (upperChar (hexDigit (Byte.to_N b mod 16))))%N = Byte.to_N b.
Proof. destruct b; vm_compute; reflexivity. Qed.

Lemma fromHex_toHex buf : fromHex (toUpperCase (toHex buf)) = Byte.to_N <$> buf.
Proof.
  induction buf as [|b buf IH]; [reflexivity|].
  change (fromHex (toUpperCase (toHex (b :: buf)))) with
    ((hexValue (upperChar (hexDigit (Byte.to_N b / 16))) * 16 +
      hexValue (upperChar (hexDigit (Byte.to_N b mod 16))))%N ::
     fromHex (toUpperCase (toHex buf))).
  rewrite fromHex_byte, IH. reflexivity.
Qed.

Lemma to_N_fmap_inj (l l' : list Byte.byte) : Byte.to_N <$> l = Byte.to_N <$> l' → l = l'.
Proof.
  revert l'. induction l as [|b l IH]; intros [|b' l'] Heq; try discriminate; [reflexivity|].
  rewrite !fmap_cons in Heq. inversion Heq as [[Hb Hl]]. f_equal; [|apply IH; exact Hl].
  pose proof (Byte.of_to_N b) as Hof. rewrite Hb, Byte.of_to_N in Hof. congruence.
Qed.


(** ** Middleware and validation *)

(** A request is served under its [caller], or turned away by [authenticateToken]
    with 401 or 403 and no effect. *)
Lemma authenticateToken_cases `{Libs} e req next w :
  (∃ user, caller e req = Some user ∧ authenticateToken e req next w = next user w) ∨
  (caller e req = None ∧
   ∃ code message, (code = 401 ∨ code = 403)%nat ∧
     authenticateToken e req next w = (mkResponse code (Message message), w)).
Proof.
  unfold authenticateToken, caller.
  destruct (Req.authorization req) as [authHeader|]; simpl;
    [|right; split; [reflexivity|]; eexists _, _; split; [left|]; reflexivity].
  destruct (split " " authHeader !! 1%nat) as [token|]; simpl;
    [|right; split; [reflexivity|]; eexists _, _; split; [left|]; reflexivity].
  destruct token as [|c token]; simpl;
    [right; split; [reflexivity|]; eexists _, _; split; [left|]; reflexivity|].
  destruct (jwt_verify (String c token) JWT_SECRET (now e)) as [user|].
  - left. exists user. split; reflexivity.
  - right. split; [reflexivity|]. eexists _, _. split; [right|]; reflexivity.
Qed.

Lemma authenticateToken_caller `{Libs} e req next w user :
  caller e req = Some user → authenticateToken e req next w = next user w.
Proof.
  intros Hc. destruct (authenticateToken_cases e req next w) as [(u & Hu & ->)|(Hn & _)].
  - congruence.
  - congruence.
Qed.

(** A request that carries a token the library accepts is served under the
    payload of the token. *)
Lemma caller_bearer `{Libs} e req token user :
  Req.authorization req = bearer token →
  token ≠ EmptyString → no_space token →
  jwt_verify token JWT_SECRET (now e) = Some user →
  caller e req = Some user.
Proof.
  intros Hauth Hne Hno Hverify. unfold caller. rewrite Hauth. unfold bearer.
  cbv beta iota delta [mbind option_bind].
  rewrite (split_bearer _ Hno).
  rewrite decide_False by exact Hne. exact Hverify.
Qed.

Lemma zod_string_Ok k body v :
  zod_string k body = Ok v → body !! k = Some (JStr v).
Proof.
  unfold zod_string. destruct (body !! k) as [[|s]|]; intros Hz; inversion Hz; reflexivity.
Qed.

Lemma zod_string_max_Ok n k body v :
  zod_string_max n k body = Ok v → body !! k = Some (JStr v) ∧ fits n v = true.
Proof.
  unfold zod_string_max. intros Hz. apply outcome_bind_Ok in Hz as (s & Hs & Hz).
  destruct (fits n s) eqn:Hfits; inversion Hz; subst.
  split; [apply zod_string_Ok; exact Hs|exact Hfits].
Qed.

Lemma zod_nullish_string_max_Ok n k body v :
  zod_nullish_string_max n k body = Ok v →
  zod_nullish_string k body = Ok v ∧ fits_opt n v = true.
Proof.
  unfold zod_nullish_string_max. intros Hz. apply outcome_bind_Ok in Hz as (s & Hs & Hz).
  destruct (fits_opt n s) eqn:Hfits; inversion Hz; subst. split; assumption.
Qed.

(** A value within the bound is stored as it is. *)
Lemma varchar_fits n s : fits n s = true → varchar n s = s.
Proof. unfold varchar. intros ->. reflexivity. Qed.

Lemma varchar_fits_opt n s : fits_opt n s = true → varchar n <$> s = s.
Proof. destruct s as [x|]; simpl; [|reflexivity]. intros Hx. rewrite varchar_fits; auto. Qed.

(** The [email] of parsed user data is the string of the body. *)
Lemma insertUserSchema_email body userData :
  insertUserSchema body = Ok userData →
  body !! "email" = Some (JStr (InsertUser.email userData)).
Proof.
  unfold insertUserSchema. intros Hparse. bind_inv Hparse.
  inversion Hparse; subst; clear Hparse. simpl. apply zod_string_max_Ok in Hv1 as [Hv1 _].
  exact Hv1.
Qed.

(** Parsed user data is within the varchar bounds of [users]. *)
Lemma insertUserSchema_varchars body userData :
  insertUserSchema body = Ok userData → users_varchars userData.
Proof.
  unfold insertUserSchema. intros Hparse. bind_inv Hparse.
  inversion Hparse; subst; clear Hparse. unfold users_varchars. simpl.
  apply zod_string_max_Ok in Hv as [_ Hv], Hv0 as [_ Hv0], Hv1 as [_ Hv1].
  apply zod_nullish_string_max_Ok in Hv3 as [_ Hv3]. repeat split; assumption.
Qed.

(** The schema throws nothing but a [ZodError]. *)
Lemma insertUserSchema_Throw body err :
  insertUserSchema body = Throw err → err = ZodError.
Proof.
  unfold insertUserSchema, zod_string_max, zod_nullish_string_max, zod_string,
    zod_nullish_string.
  repeat match goal with
         | |- context [body !! ?k] => destruct (body !! k) as [[|?]|]; simpl
         | |- context [fits ?n ?x] => destruct (fits n x); simpl
         end;
    intros Hparse; inversion Hparse; reflexivity.
Qed.

(** The monadic glue of the handlers, unfolded. *)
Ltac glue :=
  cbv beta iota zeta delta
    [try_catch st_bind st_ret st_query storage storage_get reply zod broadcast
     checkProjectPermission catch_all catch_zod] in *.

(** Entering a route: [authenticateToken] either answers itself, or hands over to the
    handler under the caller's identity. *)
Ltac authenticated H user Hcaller :=
  match type of H with
  | authenticateToken ?e ?req ?next ?w = _ =>
    let Hgo := fresh "Hgo" in
    let code := fresh "code" in
    let message := fresh "message" in
    let Hcode := fresh "Hcode" in
    destruct (authenticateToken_cases e req next w)
      as [(user & Hcaller & Hgo)|(Hcaller & code & message & Hcode & Hgo)];
    rewrite Hgo in H; clear Hgo;
    [glue|inversion H; subst; clear H]
  end.

Ltac finish H := inversion H; subst; clear H; simpl in *.

(** Case analysis along a handler body: the innermost scrutinee first. *)
Ltac explore H :=
  repeat match type of H with
         | context [match ?x with _ => _ end] =>
           lazymatch x with
           | context [match _ with _ => _ end] => fail
           | _ => let E := fresh "E" in destruct x eqn:E
           end
         end.

Ltac enter H :=
  match type of H with
  | authenticateToken ?e ?req ?next ?w = _ =>
    let user := fresh "user" in
    let Hcaller := fresh "Hcaller" in
    authenticated H user Hcaller
  end.

(** ** What one request can do to the database *)

(** Each storage statement, whatever it returns, is a [db_step]. *)
Lemma createUser_step e insertUser s r s' :
  createUser e insertUser s = (r, s') → db_step e s s'.
Proof.
  unfold createUser. intros Hs.
  apply statement_cases in Hs as [(_ & _ & ->)|(err & _ & ->)].
  - eapply step_createUser; reflexivity.
  - apply step_none. reflexivity.
Qed.

Lemma addProjectMember_step e values s r s' :
  addProjectMember e values s = (r, s') → db_step e s s'.
Proof.
  unfold addProjectMember. intros Hs.
  apply addMemberRow_cases in Hs as [->|(m & _ & Hin & ->)].
  - apply step_none. reflexivity.
  - eapply (step_addProjectMember _ _ _ m); try reflexivity. exact Hin.
Qed.

Lemma createProject_step e projectData createdBy s r s' :
  createProject e projectData createdBy s = (r, s') → db_step e s s'.
Proof.
  unfold createProject, st_bind, st_ret. intros Hc.
  destruct (statement _ _ _ s) as [[p0|err] s0] eqn:Hp.
  - apply statement_Ok in Hp as (Hchk & -> & ->).
    assert (uuid1 e ∉ Project.id <$> projects s) as Hfresh.
    { bind_inv Hchk. unfold projects_constraints in Hchk. bind_inv Hchk.
      apply guard_db_Ok, bool_decide_eq_true in Hv5. exact Hv5. }
    destruct (addMemberRow _ _ _ _) as [r1 s1] eqn:Hm.
    assert (s' = s1) as -> by (destruct r1; inversion Hc; reflexivity).
    apply addMemberRow_cases in Hm as [->|(m & Hpid & _ & ->)].
    + eapply step_createProject; try reflexivity; [exact Hfresh|left; reflexivity].
    + eapply step_createProject; try reflexivity; [exact Hfresh|].
      right. exists m. split; [reflexivity|exact Hpid].
  - apply statement_Throw in Hp as ->. inversion Hc; subst. apply step_none. reflexivity.
Qed.

Lemma createTask_step e taskData createdBy s r s' :
  createTask e taskData createdBy s = (r, s') → db_step e s s'.
Proof.
  unfold createTask. intros Hs.
  apply statement_cases in Hs as [(Hchk & _ & ->)|(err & _ & ->)].
  - eapply step_createTask; try reflexivity.
    unfold tasks_constraints in Hchk. bind_inv Hchk.
    apply guard_db_Ok, bool_decide_eq_true in Hv2. exact Hv2.
  - apply step_none. reflexivity.
Qed.

Lemma updateTask_step e id body s r s' :
  updateTask e id (stripTask body) s = (r, s') → db_step e s s'.
Proof.
  intros Hs. apply updateTask_stripped in Hs as (Hu & Hp & Hm & Ht).
  apply step_updateTask; assumption.
Qed.

Lemma updateProject_step e id body s r s' :
  updateProject e id (stripProject body) s = (r, s') → db_step e s s'.
Proof.
  intros Hs. apply updateProject_stripped in Hs as (Hu & Ht & Hm & Hp & _).
  apply step_updateProject; assumption.
Qed.

Lemma deleteProject_step e id s r s' :
  deleteProject id s = (r, s') → db_step e s s'.
Proof.
  unfold deleteProject. intros Hs.
  destruct (filter _ (projects s)); inversion Hs; subst.
  - apply step_none. reflexivity.
  - eapply step_deleteProject; reflexivity.
Qed.

Lemma deleteTask_step e id s r s' :
  deleteTask id s = (r, s') → db_step e s s'.
Proof.
  unfold deleteTask. intros Hs. inversion Hs; subst.
  eapply step_deleteTask; reflexivity.
Qed.

(** Every route moves the database by one of these steps, or by none. *)
Lemma serve_db_step `{Libs} route e req w res w' :
  serve route e req w = (res, w') → db_step e (db w) (db w').
Proof.
  intros Hrun.
  destruct route; simpl in Hrun;
    unfold post_auth_register, post_auth_login, get_auth_me, get_projects, post_projects,
      get_project, put_project, delete_project, post_projects_join, get_my_tasks,
      get_project_tasks, post_project_tasks, put_task, patch_project_task, delete_task
      in Hrun;
    try enter Hrun; try (apply step_none; reflexivity); glue; explore Hrun; finish Hrun;
    try (apply step_none; reflexivity);
    eauto using createUser_step, createProject_step, addProjectMember_step, createTask_step,
      updateTask_step, updateProject_step, deleteProject_step, deleteTask_step.
Qed.

(** Every step preserves the invariants. *)
Lemma db_step_store_ok e s s' : db_step e s s' → store_ok s → store_ok s'.
Proof.
  intros Hstep [Hpids Htids Hmem Hcodes].
  destruct Hstep as
    [->
    |u Hu Hp Hm Ht
    |p Hu Hp Ht Hid Hfresh Hcode Hm
    |m Hu Hp Ht Hm Hin
    |t Hu Hp Hm Ht Hid Hfresh
    |Hu Hm Ht Hp
    |Hu Hp Hm Ht
    |id Hu Hp Hm Ht
    |id Hu Hp Hm Ht].
  - constructor; assumption.
  - constructor; unfold members_reference_projects; rewrite ?Hp, ?Hm, ?Ht; assumption.
  - constructor.
    + rewrite Hp, fmap_app. apply NoDup_snoc; [exact Hpids|]. simpl. rewrite Hid. exact Hfresh.
    + rewrite Ht. exact Htids.
    + unfold members_reference_projects. rewrite Hp, fmap_app. intros m0 Hm0.
      apply elem_of_app. destruct Hm as [Hm|(m & Hm & Hpid)]; rewrite Hm in Hm0.
      * left. apply Hmem. exact Hm0.
      * apply elem_of_app in Hm0 as [Hm0|Hm0]; [left; apply Hmem; exact Hm0|].
        apply list_elem_of_singleton in Hm0. subst m0. right. simpl.
        rewrite Hpid, Hid. left.
    + rewrite Hp. intros q Hq. apply elem_of_app in Hq as [Hq|Hq]; [apply Hcodes; exact Hq|].
      apply list_elem_of_singleton in Hq. subst q. rewrite Hcode.
      apply generateInviteCode_shape.
  - constructor; rewrite ?Hp, ?Ht; try assumption.
    unfold members_reference_projects. rewrite Hp, Hm. intros m0 Hm0.
    apply elem_of_app in Hm0 as [Hm0|Hm0]; [apply Hmem; exact Hm0|].
    apply list_elem_of_singleton in Hm0. subst m0. exact Hin.
  - constructor; unfold members_reference_projects; rewrite ?Hp, ?Hm; try assumption.
    rewrite Ht, fmap_app. apply NoDup_snoc; [exact Htids|]. simpl. rewrite Hid. exact Hfresh.
  - destruct (same_project_identity_ids _ _ Hp) as [Hids Hcs].
    constructor; unfold members_reference_projects; rewrite ?Hids, ?Hm, ?Ht; try assumption.
    intros p' Hp'.
    destruct (Forall2_elem_of_r _ _ _ _ Hp Hp') as (q & Hin & _ & _ & Hc).
    rewrite Hc. apply Hcodes. exact Hin.
  - constructor; unfold members_reference_projects; rewrite ?Hp, ?Hm; try assumption.
    rewrite (same_task_identity_ids _ _ Ht). exact Htids.
  - constructor.
    + rewrite Hp. apply NoDup_fmap_filter. exact Hpids.
    + rewrite Ht. apply NoDup_fmap_filter. exact Htids.
    + unfold members_reference_projects. rewrite Hp, Hm. intros m0 Hm0.
      apply list_elem_of_filter in Hm0 as [Hne Hm0].
      specialize (Hmem m0 Hm0). apply list_elem_of_fmap in Hmem as (q & Hq & Hin).
      apply list_elem_of_fmap. exists q. split; [exact Hq|].
      apply list_elem_of_filter. split; [rewrite <- Hq; exact Hne|exact Hin].
    + rewrite Hp. intros q Hq. apply list_elem_of_filter in Hq as [_ Hq].
      apply Hcodes. exact Hq.
  - constructor; unfold members_reference_projects; rewrite ?Hp, ?Hm; try assumption.
    rewrite Ht. apply NoDup_fmap_filter. exact Htids.
Qed.

Lemma serve_store_ok `{Libs} route e req w :
  store_ok (db w) → store_ok (db (serve route e req w).2).
Proof.
  intros Hok. destruct (serve route e req w) as [res w'] eqn:Hrun.
  eapply db_step_store_ok; [|exact Hok]. eapply serve_db_step. exact Hrun.
Qed.

(** Every world the server reaches has a database that satisfies the
    invariants: in particular every stored invite code is a 16-character
    uppercase hexadecimal string, whatever was sent to the update route. *)
Lemma reachable_store_ok `{Libs} w : reachable w → store_ok (db w).
Proof.
  induction 1 as [clients|route e req w _ IH|ev w _ IH].
  - constructor; simpl.
    + constructor.
    + constructor.
    + intros m Hm. inversion Hm.
    + intros p Hp. inversion Hp.
  - apply serve_store_ok. exact IH.
  - exact IH.
Qed.

(** X8. Whatever the route and the request, a task that is stored before
    and after under the same id has kept its project and its creator:
    updates, creations and deletions alike. *)
Lemma task_stays_in_project `{Libs} route e req w res w' t t' :
  store_ok (db w) →
  serve route e req w = (res, w') →
  t ∈ tasks (db w) → t' ∈ tasks (db w') → Task.id t' = Task.id t →
  same_task_identity t t'.
Proof.
  intros Hok Hrun Ht Ht' Hid. apply serve_db_step in Hrun.
  pose proof (ok_task_ids _ Hok) as Hnd.
  assert (∀ t0, t0 ∈ tasks (db w) → Task.id t0 = Task.id t → t0 = t) as Huniq.
  { intros t0 Ht0 Hid0. eapply NoDup_fmap_inj_on; eassumption. }
  assert (t' ∈ tasks (db w) → same_task_identity t t') as Hold.
  { intros Hin. rewrite (Huniq t' Hin Hid). repeat split. }
  destruct Hrun as
    [Heq
    |u _ _ _ Heq
    |p _ _ Heq _ _ _ _
    |m _ _ Heq _ _
    |t0 _ _ _ Heq Hid0 Hfresh
    |_ _ Heq _
    |_ _ _ Hsame
    |id _ _ _ Heq
    |id _ _ _ Heq]; try (apply Hold; rewrite <- ?Heq; exact Ht').
  - rewrite Heq in Ht'. apply elem_of_app in Ht' as [Ht'|Ht']; [apply Hold; exact Ht'|].
    apply list_elem_of_singleton in Ht'. subst t'. exfalso. apply Hfresh.
    rewrite <- Hid0, Hid. apply list_elem_of_fmap_2. exact Ht.
  - destruct (Forall2_elem_of_r _ _ _ _ Hsame Ht') as (t0 & Ht0 & Hsame0).
    assert (t0 = t) as ->; [|exact Hsame0].
    apply Huniq; [exact Ht0|]. destruct Hsame0 as (Hid0 & _). congruence.
  - apply Hold. rewrite Heq in Ht'. apply list_elem_of_filter in Ht' as [_ Ht']. exact Ht'.
  - apply Hold. rewrite Heq in Ht'. apply list_elem_of_filter in Ht' as [_ Ht']. exact Ht'.
Qed.

(** X9. A project id that resolves to nothing, a deleted project for one,
    keeps doing so whatever is served next, as long as the database does not
    draw that uuid again: no route brings a project back or renames one into
    that id. *)
Lemma getProject_stays_None `{Libs} route e req w res w' id :
  serve route e req w = (res, w') →
  uuid1 e ≠ id →
  getProject id (db w) = None → getProject id (db w') = None.
Proof.
  intros Hrun Hne Hnone. apply serve_db_step in Hrun.
  pose proof (head_filter_None_inv _ _ Hnone) as Hno.
  unfold getProject. apply head_filter_None. intros p' Hp'.
  destruct Hrun as
    [Heq
    |u _ Heq _ _
    |p _ Heq _ Hid _ _ _
    |m _ Heq _ _ _
    |t0 _ Heq _ _ _ _
    |_ _ _ Hsame
    |_ Heq _ _
    |id0 _ Heq _ _
    |id0 _ Heq _ _]; try (apply Hno; rewrite <- ?Heq; exact Hp').
  - rewrite Heq in Hp'. apply elem_of_app in Hp' as [Hp'|Hp']; [apply Hno; exact Hp'|].
    apply list_elem_of_singleton in Hp'. subst p'. congruence.
  - destruct (Forall2_elem_of_r _ _ _ _ Hsame Hp') as (p & Hp & Hid & _).
    rewrite Hid. apply Hno. exact Hp.
  - rewrite Heq in Hp'. apply list_elem_of_filter in Hp' as [_ Hp']. apply Hno. exact Hp'.
Qed.

(** ** Registration *)

Import Example.

(** C5. A registration under the email of a stored user is answered 400 and
    creates no user: with "User already exists" when its body passes
    [insertUserSchema], with "Invalid input data" when it does not; the
    schema is checked first.  A registration whose body passes the schema,
    under an email no stored user has, with a row the database accepts
    (texts, a uuid not in use), is answered 201 with a token and the new
    user, who is stored; and any [/me] request carrying that token, served
    while the library accepts the token it issued, is answered 200 with the
    id and the email of that user.  The emails are texts the database can be
    asked about: they have no character U+0000. *)
Theorem register_conflict_or_credential `{Libs} (e : Env) (req : Req.t) (w : World) :
  (∀ email,
     Req.body req !! "email" = Some (JStr email) →
     text email = true →
     is_Some (getUserByEmail email (db w)) →
     post_auth_register e req w =
       (mkResponse 400
          match insertUserSchema (Req.body req) with
          | Ok _ => Message "User already exists"
          | Throw _ => InvalidInput
          end, w)) ∧
  (∀ userData,
     insertUserSchema (Req.body req) = Ok userData →
     getUserByEmail (InsertUser.email userData) (db w) = None →
     users_texts userData (bcrypt_hash (InsertUser.password userData) 12 (salt e)) →
     uuid1 e ∉ User.id <$> users (db w) →
     let token :=
       jwt_sign (mkClaims (uuid1 e) (InsertUser.email userData)) JWT_SECRET expiresIn
         (now e) in
     ∃ user w',
       post_auth_register e req w = (mkResponse 201 (TokenAndUser token user), w') ∧
       pu_id user = uuid1 e ∧
       pu_email user = InsertUser.email userData ∧
       User.id <$> users (db w') = (User.id <$> users (db w)) ++ [uuid1 e] ∧
       ∀ e' req',
         Req.authorization req' = bearer token →
         token ≠ EmptyString → no_space token →
         jwt_verify token JWT_SECRET (now e') =
           Some (mkClaims (uuid1 e) (InsertUser.email userData)) →
         get_auth_me e' req' w' = (mkResponse 200 (UserJson user), w')).
Proof.
  split.
  - intros email Hemail _ [existing Hex]. unfold post_auth_register. glue.
    destruct (insertUserSchema (Req.body req)) as [userData|err] eqn:Hparse.
    + apply insertUserSchema_email in Hparse as Heq. rewrite Hemail in Heq.
      inversion Heq as [Heq']. rewrite <- Heq', Hex. reflexivity.
    + apply insertUserSchema_Throw in Hparse as ->. reflexivity.
  - intros userData Hparse Hfresh (Ht1 & Ht2 & Ht3 & Ht4 & Ht5) Hid token.
    destruct (insertUserSchema_varchars _ _ Hparse) as (Hf1 & Hf2 & Hf3 & Hf4).
    set (row :=
      {| User.id := uuid1 e;
         User.firstName := InsertUser.firstName userData;
         User.lastName := InsertUser.lastName userData;
         User.email := InsertUser.email userData;
         User.password := bcrypt_hash (InsertUser.password userData) 12 (salt e);
         User.profileImageUrl := InsertUser.profileImageUrl userData;
         User.createdAt := now e;
         User.updatedAt := now e |}).
    exists (publicUser row).
    exists (mkWorld (mkStore (users (db w) ++ [row]) (projects (db w))
                       (projectMembers (db w)) (tasks (db w))) (wss_clients w)).
    assert (InsertUser.email userData ∉ User.email <$> users (db w)) as Hemail.
    { intros Hin. apply list_elem_of_fmap in Hin as (u & Heq & Hu).
      apply (head_filter_None_inv _ _ Hfresh u Hu). symmetry. exact Heq. }
    split; [|split; [reflexivity|split; [reflexivity|split]]].
    + unfold post_auth_register. glue. rewrite Hparse, Hfresh.
      unfold createUser, statement, users_constraints. simpl.
      rewrite !varchar_fits, (varchar_fits_opt _ _ Hf4) by assumption.
      rewrite Ht1, Ht2, Ht3, Ht4, Ht5, Hf1, Hf2, Hf3, Hf4. simpl.
      rewrite !bool_decide_eq_true_2 by assumption. simpl. reflexivity.
    + simpl. rewrite fmap_app. reflexivity.
    + intros e' req' Hauth Hne Hno Hverify. unfold get_auth_me.
      rewrite (authenticateToken_caller _ _ _ _ _
                 (caller_bearer e' req' token _ Hauth Hne Hno Hverify)).
      glue. simpl. unfold getUser. simpl. rewrite filter_app.
      rewrite (filter_nil_not_elem _ (users (db w))).
      * simpl. rewrite filter_cons, decide_True by reflexivity. reflexivity.
      * intros u Hu Heq. apply Hid. rewrite <- Heq. apply list_elem_of_fmap_2. exact Hu.
Qed.

(** Registering under the email of Alice is refused, as a conflict when the
    body is whole and as invalid input when it has no names; Dave registers
    and his token opens [/me]. *)
Lemma register_conflict_or_credential_witness :
  @post_auth_register libs env (registration "alice@x.com") world =
    (mkResponse 400 (Message "User already exists"), world) ∧
  @post_auth_register libs env (logsIn "alice@x.com" "pw-d") world =
    (mkResponse 400 InvalidInput, world) ∧
  ∃ user w',
    @post_auth_register libs env (registration "dave@x.com") world =
      (mkResponse 201 (TokenAndUser "id-1.dave@x.com" user), w') ∧
    pu_id user = "id-1" ∧
    pu_email user = "dave@x.com" ∧
    @get_auth_me libs env (meWith "id-1.dave@x.com") w' = (mkResponse 200 (UserJson user), w').
Proof.
  split; [|split].
  - apply (proj1 (@register_conflict_or_credential libs env (registration "alice@x.com")
                    world) "alice@x.com").
    + vm_compute. reflexivity.
    + vm_compute. reflexivity.
    + exists alice. vm_compute. reflexivity.
  - apply (proj1 (@register_conflict_or_credential libs env (logsIn "alice@x.com" "pw-d")
                    world) "alice@x.com").
    + vm_compute. reflexivity.
    + vm_compute. reflexivity.
    + exists alice. vm_compute. reflexivity.
  - destruct (proj2 (@register_conflict_or_credential libs env (registration "dave@x.com")
                       world) (InsertUser.mk "Dave" "D" "dave@x.com" "pw-d" None))
      as (user & w' & Hreg & Hid & Hemail & _ & Hme).
    + vm_compute. reflexivity.
    + vm_compute. reflexivity.
    + vm_compute. repeat split.
    + vm_compute. absent.
    + exists user, w'. split; [exact Hreg|]. split; [exact Hid|]. split; [exact Hemail|].
      apply Hme.
      * reflexivity.
      * discriminate.
      * unfold no_space. vm_compute. absent.
      * vm_compute. reflexivity.
Defined.

(** C5, refuted as stated.  Alice is a stored user; a registration under her
    email whose body has no first and last name is answered with the
    validation error "Invalid input data", not with the conflict "User
    already exists": the schema is checked before the email is looked up.
    A name of 101 characters does the same. *)
Lemma taken_email_with_invalid_body_is_invalid_input :
  is_Some (getUserByEmail "alice@x.com" (db world)) ∧
  Req.body (logsIn "alice@x.com" "pw-d") !! "email" = Some (JStr "alice@x.com") ∧
  @post_auth_register libs env (logsIn "alice@x.com" "pw-d") world =
    (mkResponse 400 InvalidInput, world) ∧
  @post_auth_register libs env (registrationAs longName "alice@x.com") world =
    (mkResponse 400 InvalidInput, world) ∧
  @post_auth_register libs env (registrationAs "Dave" "alice@x.com") world =
    (mkResponse 400 (Message "User already exists"), world).
Proof. vm_compute. repeat split. exists alice. reflexivity. Qed.

(** ** Creating a project *)

(** C6. After a project creation that succeeds (201), the project is stored
    with the caller as its creator, the membership rows of the project are
    exactly one row, which names the caller with role "owner", and the
    caller's role in the project is "owner".  The membership table is taken
    to satisfy its foreign key to [projects]. *)
Theorem creator_is_sole_owner `{Libs} (e : Env) (req : Req.t) (w w' : World)
    (res : Response) (user : Claims) :
  members_reference_projects (db w) →
  caller e req = Some user →
  post_projects e req w = (res, w') →
  statusCode res = 201%nat →
  ∃ p,
    getProject (uuid1 e) (db w') = Some p ∧
    Project.createdBy p = claims_id user ∧
    filter (λ m, ProjectMember.projectId m = Project.id p) (projectMembers (db w')) =
      [ProjectMember.mk (uuid2 e) (Project.id p) (claims_id user) owner (now e)] ∧
    getUserProjectRole (Project.id p) (claims_id user) (db w') = Some owner.
Proof.
  intros Hfk Hcaller Hrun Hcode. unfold post_projects in Hrun.
  rewrite (authenticateToken_caller _ _ _ _ _ Hcaller) in Hrun. glue.
  destruct (insertProjectSchema (Req.body req)) as [projectData|err];
    [|destruct err; finish Hrun; discriminate].
  destruct (createProject e projectData (claims_id user) (db w)) as [[p|err] s'] eqn:Hc;
    [|destruct err; finish Hrun; discriminate].
  finish Hrun.
  apply createProject_Ok in Hc as (Hid & Hcb & _ & Hfresh & _ & _ & Hp & Hm).
  assert (filter (λ m, ProjectMember.projectId m = Project.id p) (projectMembers s') =
          [ProjectMember.mk (uuid2 e) (Project.id p) (claims_id user) owner (now e)]) as Hrows.
  { rewrite Hm, filter_app, Hid.
    rewrite (filter_nil_not_elem _ (projectMembers (db w))).
    - rewrite filter_cons, decide_True by reflexivity. reflexivity.
    - intros m Hin Heq. apply Hfresh. rewrite <- Heq. apply Hfk. exact Hin. }
  exists p. split; [|split; [exact Hcb|split; [exact Hrows|]]].
  - unfold getProject. rewrite Hp, filter_app.
    rewrite (filter_nil_not_elem _ (projects (db w))).
    + simpl. rewrite filter_cons, decide_True by exact Hid. reflexivity.
    + intros q Hin Heq. apply Hfresh. rewrite <- Heq.
      apply list_elem_of_fmap_2. exact Hin.
  - rewrite getUserProjectRole_filter, Hrows.
    rewrite filter_cons, decide_True by reflexivity. reflexivity.
Qed.

(** The example database satisfies the foreign key of the membership
    table. *)
Lemma store_members_reference_projects : members_reference_projects store.
Proof.
  unfold members_reference_projects. apply Forall_forall.
  repeat constructor.
Qed.

(** Carol creates a project and is its only member, as owner. *)
Lemma creator_is_sole_owner_witness :
  ∃ p,
    getProject "id-1" (db (@post_projects libs env carolCreatesProject world).2) = Some p ∧
    Project.createdBy p = "u-carol" ∧
    filter (λ m, ProjectMember.projectId m = Project.id p)
      (projectMembers (db (@post_projects libs env carolCreatesProject world).2)) =
      [ProjectMember.mk "id-2" (Project.id p) "u-carol" owner 100] ∧
    getUserProjectRole (Project.id p) "u-carol"
      (db (@post_projects libs env carolCreatesProject world).2) = Some owner.
Proof.
  apply (@creator_is_sole_owner libs env carolCreatesProject world _
           (@post_projects libs env carolCreatesProject world).1
           (mkClaims "u-carol" "carol@x.com")).
  - exact store_members_reference_projects.
  - vm_compute. reflexivity.
  - vm_compute. reflexivity.
  - vm_compute. reflexivity.
Defined.

(** ** Joining by invite code *)




(** ** Who may touch a project and its tasks *)

(** The routes under [/api/projects/:projectId] that pass through
    [checkProjectPermission] turn a non-member away. *)
Lemma non_member_project_routes `{Libs} e req w user :
  caller e req = Some user →
  getUserProjectRole (Req.projectId req) (claims_id user) (db w) = None →
  let denied := (mkResponse 403 (Message "Access denied to this project"), w) in
  get_project e req w = denied ∧
  put_project e req w = denied ∧
  delete_project e req w = denied ∧
  get_project_tasks e req w = denied ∧
  post_project_tasks e req w = denied.
Proof.
  intros Hcaller Hrole. simpl.
  unfold get_project, put_project, delete_project, get_project_tasks, post_project_tasks.
  rewrite !(authenticateToken_caller _ _ _ _ _ Hcaller).
  unfold checkProjectPermission. rewrite Hrole. repeat split.
Qed.

(** [PUT] and [DELETE /api/tasks/:taskId] look the role up in the project
    of the task. *)
Lemma non_member_task_routes `{Libs} e req w user task :
  caller e req = Some user →
  getTask (Req.taskId req) (db w) = Some task →
  getUserProjectRole (Task.projectId (twd_row task)) (claims_id user) (db w) = None →
  let denied := (mkResponse 403 (Message "Access denied"), w) in
  put_task e req w = denied ∧ delete_task e req w = denied.
Proof.
  intros Hcaller Htask Hrole. simpl. unfold put_task, delete_task.
  rewrite !(authenticateToken_caller _ _ _ _ _ Hcaller). glue.
  rewrite Htask, Hrole. split; reflexivity.
Qed.

(** [PATCH] looks the role up in the project named by the URL. *)
Lemma non_member_patch `{Libs} e req w user :
  caller e req = Some user →
  is_Some (getTask (Req.taskId req) (db w)) →
  getUserProjectRole (Req.projectId req) (claims_id user) (db w) = None →
  patch_project_task e req w = (mkResponse 403 (Message "Access denied"), w).
Proof.
  intros Hcaller [task Htask] Hrole. unfold patch_project_task.
  rewrite (authenticateToken_caller _ _ _ _ _ Hcaller). glue.
  rewrite Htask, Hrole. reflexivity.
Qed.

(** A member of the project named by the URL is served, whichever project
    the task belongs to: from here on the handler is the update itself. *)
Lemma patch_served_for_member_of_url_project `{Libs} e req w user task role :
  caller e req = Some user →
  getTask (Req.taskId req) (db w) = Some task →
  getUserProjectRole (Req.projectId req) (claims_id user) (db w) = Some role →
  patch_project_task e req w =
  try_catch
    (let* updatedTask :=
       storage (updateTask e (Req.taskId req) (stripTask (Req.body req))) in
     match updatedTask with
     | None => reply 404 (Message "Task not found")
     | Some updatedTask =>
       let* fullTask := storage_get (getTask (Task.id updatedTask)) in
       let* _ := broadcast (Task.projectId (twd_row task)) (task_updated fullTask) in
       reply 200 (TaskJson fullTask)
     end)%st
    (catch_all "Failed to update task") w.
Proof.
  intros Hcaller Htask Hrole. unfold patch_project_task.
  rewrite (authenticateToken_caller _ _ _ _ _ Hcaller). glue.
  rewrite Htask, Hrole. reflexivity.
Qed.

(** C1, at the failing input. Bob holds no membership row for Sprint 1, the
    project of the task; his PATCH under the URL of Sprint 2, which he owns,
    is answered 200 and rewrites the task.  [PUT] and [DELETE] of the same
    task look the role up in the project of the task and answer 403. *)
Theorem patch_checks_role_in_url_project :
  getUserProjectRole "p-1" "u-bob" store = None ∧
  twd_row <$> getTask "t-1" store = Some writeSpec ∧
  Task.projectId writeSpec = "p-1" ∧
  statusCode (@patch_project_task libs env bobPatchesThroughSprint2 world).1 = 200%nat ∧
  tasks (db (@patch_project_task libs env bobPatchesThroughSprint2 world).2) =
    [Task.mk "t-1" "Write spec" None done_ medium "p-1" (Some "u-alice") "u-alice" 8 100] ∧
  statusCode (@put_task libs env bobPatchesThroughSprint2 world).1 = 403%nat ∧
  statusCode (@delete_task libs env bobPatchesThroughSprint2 world).1 = 403%nat.
Proof. vm_compute. repeat split. Qed.

(** C2, as the code has it. On [PUT /api/tasks/:taskId] a caller whose role
    in the project of the task is "member" and who neither created the
    task nor is its assignee gets 403 and nothing changes; so an update by
    a "member" that succeeds is by the creator or the assignee. *)
Theorem put_task_member_own_tasks `{Libs} e req w user task :
  caller e req = Some user →
  getTask (Req.taskId req) (db w) = Some task →
  getUserProjectRole (Task.projectId (twd_row task)) (claims_id user) (db w) = Some member →
  (Task.assigneeId (twd_row task) ≠ Some (claims_id user) →
   Task.createdBy (twd_row task) ≠ claims_id user →
   put_task e req w = (mkResponse 403 (Message "Can only edit your own tasks"), w)) ∧
  (∀ res w', put_task e req w = (res, w') → statusCode res = 200%nat →
     Task.createdBy (twd_row task) = claims_id user ∨
     Task.assigneeId (twd_row task) = Some (claims_id user)).
Proof.
  intros Hcaller Htask Hrole.
  assert (Task.assigneeId (twd_row task) ≠ Some (claims_id user) →
          Task.createdBy (twd_row task) ≠ claims_id user →
          put_task e req w = (mkResponse 403 (Message "Can only edit your own tasks"), w))
    as Hdenied.
  { intros Hassignee Hcreator. unfold put_task.
    rewrite (authenticateToken_caller _ _ _ _ _ Hcaller). glue.
    rewrite Htask, Hrole.
    rewrite !bool_decide_eq_true_2 by (assumption || reflexivity). reflexivity. }
  split; [exact Hdenied|].
  intros res w' Hrun Hcode.
  destruct (decide (Task.createdBy (twd_row task) = claims_id user)) as [|Hcreator];
    [left; assumption|].
  destruct (decide (Task.assigneeId (twd_row task) = Some (claims_id user))) as [|Hassignee];
    [right; assumption|].
  rewrite (Hdenied Hassignee Hcreator) in Hrun. inversion Hrun; subst. discriminate.
Qed.

(** Carol's PUT on the task of Alice is refused. *)
Lemma put_task_member_own_tasks_witness :
  @put_task libs env carolPutsStatus world =
    (mkResponse 403 (Message "Can only edit your own tasks"), world).
Proof.
  refine (proj1 (@put_task_member_own_tasks libs env carolPutsStatus world
                   (mkClaims "u-carol" "carol@x.com")
                   (mkTWD writeSpec (Some alice) (Some alice) (Some sprint1)) _ _ _) _ _).
  - vm_compute. reflexivity.
  - vm_compute. reflexivity.
  - vm_compute. reflexivity.
  - vm_compute. discriminate.
  - vm_compute. discriminate.
Defined.

(** C2, refuted as stated. Carol's role in Sprint 1 is "member"; the task was
    created by Alice and is assigned to Alice; Carol's PATCH is answered 200
    and rewrites the task, while her PUT of the same body is answered 403. *)
Lemma member_patches_task_of_another_user :
  getUserProjectRole "p-1" "u-carol" store = Some member ∧
  Task.createdBy writeSpec ≠ "u-carol" ∧
  Task.assigneeId writeSpec ≠ Some "u-carol" ∧
  statusCode (@patch_project_task libs env carolPatchesStatus world).1 = 200%nat ∧
  tasks (db (@patch_project_task libs env carolPatchesStatus world).2) ≠ tasks (db world) ∧
  @put_task libs env carolPutsStatus world =
    (mkResponse 403 (Message "Can only edit your own tasks"), world).
Proof. vm_compute. repeat split; discriminate. Qed.

(** C3, at the failing input. A PATCH that is answered 200 rewrote the
    title, the description, the priority and the assignee of the task, and
    left its status alone. *)
Theorem patch_rewrites_other_columns :
  statusCode (@patch_project_task libs env carolPatchesOtherColumns world).1 = 200%nat ∧
  tasks (db world) =
    [Task.mk "t-1" "Write spec" None todo medium "p-1" (Some "u-alice") "u-alice" 8 8] ∧
  tasks (db (@patch_project_task libs env carolPatchesOtherColumns world).2) =
    [Task.mk "t-1" "Renamed" (Some "rewritten") todo high "p-1" (Some "u-carol") "u-alice"
       8 100].
Proof. vm_compute. repeat split. Qed.

(** ** Updates keep the identity columns *)

(** The update route of projects, whatever it answers. *)
Lemma put_project_identity `{Libs} e req w res w' :
  put_project e req w = (res, w') →
  Forall2 same_project_identity (projects (db w)) (projects (db w')) ∧
  ∀ p', json res = ProjectRowJson p' →
    Project.id p' = Req.projectId req ∧
    ∃ p, p ∈ projects (db w) ∧ same_project_identity p p'.
Proof.
  unfold put_project. intros Hrun. authenticated Hrun user Hcaller.
  2: { split; [apply Forall2_same_project_refl|discriminate]. }
  destruct (getUserProjectRole _ _ _) as [role|];
    [|finish Hrun; split; [apply Forall2_same_project_refl|discriminate]].
  case_bool_decide;
    [finish Hrun; split; [apply Forall2_same_project_refl|discriminate]|].
  destruct (updateProject e (Req.projectId req) _ (db w)) as [r s'] eqn:Hup.
  apply (updateProject_stripped e _ (Req.body req)) in Hup as (_ & _ & _ & Hsame & Hret).
  destruct r as [[p'|]|err]; finish Hrun; (split; [exact Hsame|]);
    try discriminate.
  intros p0 Hp0. inversion Hp0; subst. apply Hret. reflexivity.
Qed.

(** The part the two task routes share, from [updateTask] on. *)
Lemma task_update_identity `{Libs} e req w res w' projectId :
  try_catch
    (let* updatedTask := storage (updateTask e (Req.taskId req) (stripTask (Req.body req))) in
     match updatedTask with
     | None => reply 404 (Message "Task not found")
     | Some updatedTask =>
       let* fullTask := storage_get (getTask (Task.id updatedTask)) in
       let* _ := broadcast projectId (task_updated fullTask) in
       reply 200 (TaskJson fullTask)
     end)%st
    (catch_all "Failed to update task") w = (res, w') →
  Forall2 same_task_identity (tasks (db w)) (tasks (db w')) ∧
  ∀ tw, json res = TaskJson (Some tw) →
    ∃ t, t ∈ tasks (db w) ∧ same_task_identity t (twd_row tw).
Proof.
  intros Hrun. glue.
  destruct (updateTask e (Req.taskId req) _ (db w)) as [r s'] eqn:Hup.
  apply updateTask_stripped in Hup as (_ & _ & _ & Hsame).
  destruct r as [[t'|]|err]; finish Hrun; (split; [exact Hsame|]); try discriminate.
  intros tw Htw. inversion Htw as [Hget]; clear Htw.
  apply getTask_row in Hget as [Hin _].
  eapply Forall2_elem_of_r; eassumption.
Qed.

(** [PUT /api/tasks/:taskId], whatever it answers. *)
Lemma put_task_identity `{Libs} e req w res w' :
  put_task e req w = (res, w') →
  Forall2 same_task_identity (tasks (db w)) (tasks (db w')) ∧
  ∀ tw, json res = TaskJson (Some tw) →
    ∃ t, t ∈ tasks (db w) ∧ same_task_identity t (twd_row tw).
Proof.
  unfold put_task. intros Hrun. authenticated Hrun user Hcaller.
  2: { split; [apply Forall2_same_task_refl|discriminate]. }
  destruct (getTask (Req.taskId req) (db w)) as [task|];
    [|finish Hrun; split; [apply Forall2_same_task_refl|discriminate]].
  destruct (getUserProjectRole _ _ _) as [role|];
    [|finish Hrun; split; [apply Forall2_same_task_refl|discriminate]].
  destruct (_ && _);
    [finish Hrun; split; [apply Forall2_same_task_refl|discriminate]|].
  eapply (task_update_identity e req w res w'). glue. exact Hrun.
Qed.

(** [PATCH /api/projects/:projectId/tasks/:taskId], whatever it answers. *)
Lemma patch_project_task_identity `{Libs} e req w res w' :
  patch_project_task e req w = (res, w') →
  Forall2 same_task_identity (tasks (db w)) (tasks (db w')) ∧
  ∀ tw, json res = TaskJson (Some tw) →
    ∃ t, t ∈ tasks (db w) ∧ same_task_identity t (twd_row tw).
Proof.
  unfold patch_project_task. intros Hrun. authenticated Hrun user Hcaller.
  2: { split; [apply Forall2_same_task_refl|discriminate]. }
  destruct (getTask (Req.taskId req) (db w)) as [task|];
    [|finish Hrun; split; [apply Forall2_same_task_refl|discriminate]].
  destruct (getUserProjectRole _ _ _) as [role|];
    [|finish Hrun; split; [apply Forall2_same_task_refl|discriminate]].
  eapply (task_update_identity e req w res w'). glue. exact Hrun.
Qed.

(** C8. Whatever the payload, a project update leaves the [id], [createdBy]
    and [inviteCode] of every project row as they were, and a task update
    (PUT or PATCH) leaves the [id], [projectId] and [createdBy] of every
    task row as they were; the row sent back has the identity columns of a
    row stored before the call.  A task therefore stays in its project. *)
Theorem updates_keep_identity `{Libs} (e : Env) (req : Req.t) (w w' : World)
    (res : Response) :
  (put_project e req w = (res, w') →
   Forall2 same_project_identity (projects (db w)) (projects (db w')) ∧
   ∀ p', json res = ProjectRowJson p' →
     Project.id p' = Req.projectId req ∧
     ∃ p, p ∈ projects (db w) ∧ same_project_identity p p') ∧
  (put_task e req w = (res, w') ∨ patch_project_task e req w = (res, w') →
   Forall2 same_task_identity (tasks (db w)) (tasks (db w')) ∧
   ∀ tw, json res = TaskJson (Some tw) →
     ∃ t, t ∈ tasks (db w) ∧ same_task_identity t (twd_row tw)).
Proof.
  split.
  - apply put_project_identity.
  - intros [Hrun|Hrun].
    + eapply put_task_identity; exact Hrun.
    + eapply patch_project_task_identity; exact Hrun.
Qed.

(** Alice's payloads name other ids, creators and codes; both updates
    succeed and the rows keep their own. *)
Lemma updates_keep_identity_witness :
  Forall2 same_project_identity [sprint1; sprint2]
    (projects (db (@put_project libs env aliceUpdatesSprint1 world).2)) ∧
  Forall2 same_task_identity [writeSpec]
    (tasks (db (@put_task libs env aliceMovesTask world).2)) ∧
  statusCode (@put_project libs env aliceUpdatesSprint1 world).1 = 200%nat ∧
  statusCode (@put_task libs env aliceMovesTask world).1 = 200%nat.
Proof.
  split; [|split; [|vm_compute; split; reflexivity]].
  - refine (proj1 (proj1 (@updates_keep_identity libs env aliceUpdatesSprint1 world
                            (@put_project libs env aliceUpdatesSprint1 world).2
                            (@put_project libs env aliceUpdatesSprint1 world).1) _)).
    vm_compute. reflexivity.
  - refine (proj1 (proj2 (@updates_keep_identity libs env aliceMovesTask world
                            (@put_task libs env aliceMovesTask world).2
                            (@put_task libs env aliceMovesTask world).1) _)).
    left. vm_compute. reflexivity.
Defined.

(** Without the three [delete]s of the handler, the same payload moves the
    task to the other project and rewrites its id and its creator. *)
Lemma updateTask_unstripped_moves_task :
  tasks (updateTask env "t-1" (Req.body aliceMovesTask) store).2 =
    [Task.mk "t-9" "Write the spec" None todo medium "p-2" (Some "u-alice") "u-bob" 8 100].
Proof. vm_compute. reflexivity. Qed.

(** ** Deleting a project *)

(** A project deletion that succeeds (204) leaves no membership row and no
    task row of that project, and the adapter's lookups of the project by
    its id return [undefined]. *)
Lemma delete_project_rows `{Libs} (e : Env) (req : Req.t) (w w' : World)
    (res : Response) :
  delete_project e req w = (res, w') →
  statusCode res = 204%nat →
  (∀ m, m ∈ projectMembers (db w') → ProjectMember.projectId m ≠ Req.projectId req) ∧
  (∀ t, t ∈ tasks (db w') → Task.projectId t ≠ Req.projectId req) ∧
  getProject (Req.projectId req) (db w') = None ∧
  getProjectWithMembers (Req.projectId req) (db w') = None.
Proof.
  unfold delete_project. intros Hrun Hcode. authenticated Hrun user Hcaller.
  2: { simpl in Hcode. destruct Hcode0; congruence. }
  destruct (getUserProjectRole _ _ _) as [role|]; [|finish Hrun; discriminate].
  case_bool_decide; [finish Hrun; discriminate|].
  destruct (deleteProject (Req.projectId req) (db w)) as [[success|err] s'] eqn:Hdel;
    [|finish Hrun; discriminate].
  destruct success; [|finish Hrun; discriminate].
  finish Hrun.
  destruct (deleteProject_cascade _ _ _ _ Hdel eq_refl) as (_ & Hp & Hm & Ht).
  split; [|split; [|apply (not_found_after_delete _ (db w)); exact Hp]].
  - intros m Hin. rewrite Hm in Hin. apply list_elem_of_filter in Hin as [Hne _]. exact Hne.
  - intros t Hin. rewrite Ht in Hin. apply list_elem_of_filter in Hin as [Hne _]. exact Hne.
Qed.

(** On the HTTP side the lookup of a deleted project does not reach the 404
    of the handler: the membership rows are gone with the project, and
    [checkProjectPermission] answers first. *)
Lemma get_project_after_delete `{Libs} e req w res w' e' req' user :
  delete_project e req w = (res, w') →
  statusCode res = 204%nat →
  caller e' req' = Some user →
  Req.projectId req' = Req.projectId req →
  get_project e' req' w' = (mkResponse 403 (Message "Access denied to this project"), w').
Proof.
  intros Hrun Hcode Hcaller Hpid.
  destruct (delete_project_rows e req w w' res Hrun Hcode) as (Hm & _).
  refine (proj1 (non_member_project_routes e' req' w' user Hcaller _)).
  rewrite getUserProjectRole_filter, Hpid.
  rewrite (filter_nil_not_elem (λ m, ProjectMember.projectId m = Req.projectId req)).
  - reflexivity.
  - intros m Hin. apply Hm. exact Hin.
Qed.

(** C9, as the code has it. A project deletion that succeeds (204) leaves no
    membership row and no task row of that project; the adapter's lookups of
    the project by its id, [getProject] and [getProjectWithMembers], return
    [undefined]; and [GET /api/projects/:projectId] for that id is answered
    403, for every caller, not 404. *)
Theorem delete_project_cascades `{Libs} (e : Env) (req : Req.t) (w w' : World)
    (res : Response) :
  delete_project e req w = (res, w') →
  statusCode res = 204%nat →
  (∀ m, m ∈ projectMembers (db w') → ProjectMember.projectId m ≠ Req.projectId req) ∧
  (∀ t, t ∈ tasks (db w') → Task.projectId t ≠ Req.projectId req) ∧
  getProject (Req.projectId req) (db w') = None ∧
  getProjectWithMembers (Req.projectId req) (db w') = None ∧
  ∀ e' req' user,
    caller e' req' = Some user →
    Req.projectId req' = Req.projectId req →
    get_project e' req' w' = (mkResponse 403 (Message "Access denied to this project"), w').
Proof.
  intros Hrun Hcode.
  destruct (delete_project_rows e req w w' res Hrun Hcode) as (Hm & Ht & Hg & Hgw).
  repeat (split; [assumption|]).
  intros e' req' user Hcaller Hpid. eapply get_project_after_delete; eassumption.
Qed.

(** Alice deletes Sprint 1: its rows are gone, and her next GET is denied. *)
Lemma delete_project_cascades_witness :
  (∀ m, m ∈ projectMembers (db (@delete_project libs env aliceDeletesSprint1 world).2) →
        ProjectMember.projectId m ≠ "p-1") ∧
  (∀ t, t ∈ tasks (db (@delete_project libs env aliceDeletesSprint1 world).2) →
        Task.projectId t ≠ "p-1") ∧
  getProject "p-1" (db (@delete_project libs env aliceDeletesSprint1 world).2) = None ∧
  getProjectWithMembers "p-1" (db (@delete_project libs env aliceDeletesSprint1 world).2) = None ∧
  @get_project libs env aliceGetsSprint1 (@delete_project libs env aliceDeletesSprint1 world).2 =
    (mkResponse 403 (Message "Access denied to this project"),
     (@delete_project libs env aliceDeletesSprint1 world).2).
Proof.
  destruct (@delete_project_cascades libs env aliceDeletesSprint1 world
              (@delete_project libs env aliceDeletesSprint1 world).2
              (@delete_project libs env aliceDeletesSprint1 world).1)
    as (Hm & Ht & Hg & Hgw & Hhttp).
  - vm_compute. reflexivity.
  - vm_compute. reflexivity.
  - repeat (split; [assumption|]).
    apply (Hhttp env aliceGetsSprint1 (mkClaims "u-alice" "alice@x.com")).
    + vm_compute. reflexivity.
    + reflexivity.
Defined.

(** C9, refuted as stated on the HTTP side. Alice deletes Sprint 1 (204);
    her next [GET /api/projects/p-1] is answered 403, not 404. *)
Lemma deleted_project_lookup_is_denied :
  statusCode (@delete_project libs env aliceDeletesSprint1 world).1 = 204%nat ∧
  statusCode
    (@get_project libs env aliceGetsSprint1
       (@delete_project libs env aliceDeletesSprint1 world).2).1 = 403%nat ∧
  statusCode
    (@get_project libs env aliceGetsSprint1
       (@delete_project libs env aliceDeletesSprint1 world).2).1 ≠ 404%nat.
Proof. vm_compute. repeat split. discriminate. Qed.

(** ** Hydrated responses *)

(** C4. Whatever route answers, the user objects embedded in a hydrated
    project (creator, user of each member) and in a hydrated task (creator,
    assignee) of the response are rows of the [users] table as stored when
    the response is built: complete rows, [password] column included. *)
Theorem hydrated_users_are_stored_rows `{Libs} (route : Route) (e : Env) (req : Req.t)
    (w w' : World) (res : Response) :
  serve route e req w = (res, w') →
  response_users_stored (db w') (json res).
Proof.
  intros Hrun.
  destruct route; simpl in Hrun;
    unfold post_auth_register, post_auth_login, get_auth_me, get_projects, post_projects,
      get_project, put_project, delete_project, post_projects_join, get_my_tasks,
      get_project_tasks, post_project_tasks, put_task, patch_project_task, delete_task
      in Hrun;
    try enter Hrun; try exact I; glue; explore Hrun; finish Hrun; try exact I;
    eauto using getProjectWithMembers_stored, getUserProjects_stored, getTask_stored,
      getProjectTasks_stored, getUserTasks_stored.
  all: match goal with
       | |- match ?x with _ => _ end => destruct x eqn:Hfull; [|exact I]
       end;
    eauto using getProjectWithMembers_stored, getTask_stored.
Qed.

(** The project Alice reads embeds her own row, password hash included. *)
Lemma hydrated_users_are_stored_rows_witness :
  response_users_stored store (json (@get_project libs env aliceGetsSprint1 world).1) ∧
  (pwm_creator <$>
     match json (@get_project libs env aliceGetsSprint1 world).1 with
     | ProjectJson project => project
     | _ => None
     end) = Some (Some alice) ∧
  User.password alice = "s$pw-a".
Proof.
  split; [|vm_compute; split; reflexivity].
  apply (@hydrated_users_are_stored_rows libs GET_project env aliceGetsSprint1 world world).
  vm_compute. reflexivity.
Defined.

(** ** The real-time channel *)

(** [broadcast] acts on each socket on its own. *)
Lemma broadcast_clients_lookup projectId data clients i :
  broadcast_clients projectId data clients !! i =
  (λ client, if bool_decide (readyState client = OPEN)
             then send (envelope projectId data) client else client) <$> clients !! i.
Proof. unfold broadcast_clients. apply list_lookup_fmap. Qed.

Lemma broadcast_clients_length projectId data clients :
  length (broadcast_clients projectId data clients) = length clients.
Proof. unfold broadcast_clients. apply length_fmap. Qed.

(** A [join_project] message leaves on the socket an acknowledgement and
    nothing else: the state of a socket has no room to filter on. *)
Lemma on_message_readyState data ws : readyState (on_message data ws) = readyState ws.
Proof.
  unfold on_message. destruct data as [data|]; [|reflexivity].
  case_bool_decide; reflexivity.
Qed.

(** C10. Publishing an event writes the envelope, which carries the affected
    project id and the event kind, to every socket that is open, whatever
    the sockets went through before: in particular whichever project a
    socket named in a [join_project] message. *)
Theorem broadcast_reaches_every_open_client
    (clients : list Conn) (evs : list WsEvent) (s : Store)
    (projectId : string) (data : EventData) (i : nat) (client : Conn) :
  ws_run clients evs !! i = Some client →
  readyState client = OPEN →
  ∃ w' frame,
    broadcast projectId data (mkWorld s (ws_run clients evs)) = (Ok tt, w') ∧
    db w' = s ∧
    wss_clients w' !! i = Some (mkConn OPEN (sent client ++ [frame])) ∧
    frame = envelope projectId data ∧
    frame_projectId frame = Some (JStr projectId) ∧
    frame_type frame = event_type data.
Proof.
  intros Hi Hopen. exists (mkWorld s (broadcast_clients projectId data (ws_run clients evs))).
  exists (envelope projectId data). repeat split.
  simpl. rewrite broadcast_clients_lookup, Hi. simpl.
  rewrite bool_decide_eq_true_2 by exact Hopen.
  unfold send. rewrite Hopen. reflexivity.
Qed.

(** A socket that asked for one project receives the event of another. *)
Lemma broadcast_reaches_every_open_client_witness :
  ∃ w' frame,
    broadcast "p-1" (task_deleted "t-1")
      (mkWorld Example.store
         (ws_run [] [ws_connection;
                     ws_message 0 (Some {[ "type" := JStr "join_project";
                                           "projectId" := JStr "p-2" ]})])) = (Ok tt, w') ∧
    db w' = Example.store ∧
    wss_clients w' !! 0%nat =
      Some (mkConn OPEN ([joined_project (Some (JStr "p-2"))] ++ [frame])) ∧
    frame = envelope "p-1" (task_deleted "t-1") ∧
    frame_projectId frame = Some (JStr "p-1") ∧
    frame_type frame = "task_deleted".
Proof.
  apply (broadcast_reaches_every_open_client [] _ Example.store "p-1" (task_deleted "t-1") 0
           (mkConn OPEN [joined_project (Some (JStr "p-2"))])).
  - vm_compute. reflexivity.
  - reflexivity.
Defined.

(** ** The scenario of the specification *)

(** Every request of the scenario succeeds; Alice ends up "owner" and Bob
    "member" of the project; the task is "in_progress"; and both sockets,
    which never named a project, received three envelopes for project
    [p-1], the last of them of kind [task_updated]. *)
Lemma scenario_runs :
  let out := play scenario (mkWorld emptyStore [mkConn OPEN []; mkConn OPEN []]) in
  statusCode <$> out.1 = [201; 201; 201; 200; 201; 200]%nat ∧
  getUserProjectRole "p-1" "u-a" (db out.2) = Some owner ∧
  getUserProjectRole "p-1" "u-b" (db out.2) = Some member ∧
  Task.status <$> tasks (db out.2) = [in_progress] ∧
  Forall (λ client,
            (λ frame, (frame_projectId frame, frame_type frame)) <$> sent client =
            [ (Some (JStr "p-1"), "member_joined");
              (Some (JStr "p-1"), "task_created");
              (Some (JStr "p-1"), "task_updated") ])
    (wss_clients out.2).
Proof. vm_compute. repeat split; repeat constructor. Qed.

(** ** Requests that fail or only read *)

Lemma World_eta w : mkWorld (db w) (wss_clients w) = w.
Proof. destruct w. reflexivity. Qed.

Lemma Store_eta s : mkStore (users s) (projects s) (projectMembers s) (tasks s) = s.
Proof. destruct s. reflexivity. Qed.

Lemma filter_all {A} (P : A → Prop) `{∀ x, Decision (P x)} (l : list A) :
  (∀ x, x ∈ l → P x) → filter P l = l.
Proof.
  induction l as [|x l IH]; [reflexivity|]. intros Hall.
  rewrite filter_cons, decide_True by (apply Hall; left).
  rewrite IH; [reflexivity|]. intros y Hy. apply Hall. right. exact Hy.
Qed.

(** An update that returns no row selected none and rewrote none. *)
Lemma update_rows_none {R} hit f (rows table : list R) :
  update_rows hit f rows = Ok (table, []) → table = rows.
Proof.
  revert table. induction rows as [|r rows IH]; intros table Hup; simpl in Hup.
  - inversion Hup. reflexivity.
  - destruct (hit r).
    + apply outcome_bind_Ok in Hup as (r' & _ & Hup).
      apply outcome_bind_Ok in Hup as (rest & _ & Hup). inversion Hup.
    + apply outcome_bind_Ok in Hup as ([table' returning'] & Hrest & Hup).
      inversion Hup; subst; clear Hup. simpl in *. subst. rewrite (IH _ Hrest). reflexivity.
Qed.

(** A refused insert wrote nothing. *)
Lemma createUser_Throw e insertUser s err s' :
  createUser e insertUser s = (Throw err, s') → s' = s.
Proof. apply statement_Throw. Qed.

Lemma createTask_Throw e taskData createdBy s err s' :
  createTask e taskData createdBy s = (Throw err, s') → s' = s.
Proof. apply statement_Throw. Qed.

Lemma addProjectMember_Throw e values s err s' :
  addProjectMember e values s = (Throw err, s') → s' = s.
Proof. apply statement_Throw. Qed.

(** An update that returns no row wrote nothing. *)
Lemma updateTask_unchanged e id updates s r s' :
  updateTask e id updates s = (r, s') → (∀ t, r ≠ Ok (Some t)) → s' = s.
Proof.
  unfold updateTask. intros Hup Hr.
  destruct (_ ≫= _) as [[table returning]|err] eqn:Hrows; inversion Hup; subst; clear Hup;
    [|reflexivity].
  destruct returning as [|t returning]; [|destruct (Hr t); reflexivity].
  apply outcome_bind_Ok in Hrows as (set & _ & Hrows).
  apply update_rows_none in Hrows as ->. apply Store_eta.
Qed.

Lemma updateProject_unchanged e id updates s r s' :
  updateProject e id updates s = (r, s') → (∀ p, r ≠ Ok (Some p)) → s' = s.
Proof.
  unfold updateProject. intros Hup Hr.
  destruct (_ ≫= _) as [[table returning]|err] eqn:Hrows; inversion Hup; subst; clear Hup;
    [|reflexivity].
  destruct returning as [|t returning]; [|destruct (Hr t); reflexivity].
  apply outcome_bind_Ok in Hrows as (set & _ & Hrows).
  apply update_rows_none in Hrows as ->. apply Store_eta.
Qed.

(** A delete that reports [false] removed nothing. *)
Lemma deleteProject_unchanged id s r s' :
  deleteProject id s = (r, s') → r ≠ Ok true → s' = s.
Proof.
  unfold deleteProject. intros Hd Hr.
  destruct (filter _ (projects s)); inversion Hd; subst; [reflexivity|]. destruct Hr. reflexivity.
Qed.

Lemma deleteTask_unchanged id s r s' :
  deleteTask id s = (r, s') → r ≠ Ok true → s' = s.
Proof.
  unfold deleteTask. intros Hd Hr. inversion Hd; subst; clear Hd.
  case_bool_decide as Hhit; [destruct Hr; reflexivity|].
  assert (filter (λ t, Task.id t = id) (tasks s) = []) as Hnone.
  { destruct (filter _ (tasks s)); [reflexivity|]. discriminate Hhit. }
  rewrite (filter_all (λ t, Task.id t ≠ id)); [apply Store_eta|].
  intros t Ht Hid.
  assert (t ∈ filter (λ t, Task.id t = id) (tasks s)) as Hin
    by (apply list_elem_of_filter; split; assumption).
  rewrite Hnone in Hin. inversion Hin.
Qed.

(** Storage calls that did not return what the success branch of their
    handler needs left the database as it was. *)
Ltac unchanged :=
  repeat match goal with
         | E : createUser _ _ _ = (Throw _, _) |- _ => apply createUser_Throw in E; subst
         | E : createTask _ _ _ _ = (Throw _, _) |- _ => apply createTask_Throw in E; subst
         | E : addProjectMember _ _ _ = (Throw _, _) |- _ =>
           apply addProjectMember_Throw in E; subst
         | E : updateTask _ _ _ _ = (_, _) |- _ =>
           apply updateTask_unchanged in E; [subst|intros ?; discriminate]
         | E : updateProject _ _ _ _ = (_, _) |- _ =>
           apply updateProject_unchanged in E; [subst|intros ?; discriminate]
         | E : deleteProject _ _ = (_, _) |- _ =>
           apply deleteProject_unchanged in E; [subst|discriminate]
         | E : deleteTask _ _ = (_, _) |- _ =>
           apply deleteTask_unchanged in E; [subst|discriminate]
         end.

(** The handlers behind [serve]. *)
Ltac routes H :=
  unfold post_auth_register, post_auth_login, get_auth_me, get_projects, post_projects,
    get_project, put_project, delete_project, post_projects_join, get_my_tasks,
    get_project_tasks, post_project_tasks, put_task, patch_project_task, delete_task in H.

(** X1. Whatever route but [POST /api/projects] answers with a status of 400
    or more, the request changed nothing: the four tables and every socket
    are as they were.  (Creating a project runs two inserts without a
    transaction; see X17.) *)
Lemma failed_request_unchanged `{Libs} route e req w res w' :
  route ≠ POST_projects →
  serve route e req w = (res, w') →
  (400 ≤ statusCode res)%nat →
  w' = w.
Proof.
  intros Hroute Hrun Hcode.
  destruct route; try congruence; simpl in Hrun; routes Hrun;
    try enter Hrun; try reflexivity; glue; explore Hrun; finish Hrun;
    try reflexivity; try (exfalso; lia); unchanged; try apply World_eta.
Qed.

(** A registration under the email of Alice is refused and leaves the world alone. *)
Lemma failed_request_unchanged_witness :
  (@serve libs POST_auth_register env (registration "alice@x.com") world).2 = world.
Proof.
  apply (@failed_request_unchanged libs POST_auth_register env (registration "alice@x.com")
           world (@serve libs POST_auth_register env (registration "alice@x.com") world).1).
  - discriminate.
  - vm_compute. reflexivity.
  - vm_compute. lia.
Defined.

(** X2. Login, [/me] and the four GET routes never write: whatever they
    answer, the database and the sockets are as they were, and nothing is
    published. *)
Theorem reading_changes_nothing `{Libs} (e : Env) (req : Req.t) (w : World) :
  (post_auth_login e req w).2 = w ∧
  (get_auth_me e req w).2 = w ∧
  (get_projects e req w).2 = w ∧
  (get_project e req w).2 = w ∧
  (get_my_tasks e req w).2 = w ∧
  (get_project_tasks e req w).2 = w.
Proof.
  repeat split;
    match goal with
    | |- (?f e req w).2 = w =>
      destruct (f e req w) as [res w'] eqn:Hrun; simpl; routes Hrun;
        try enter Hrun; try reflexivity; glue; explore Hrun; finish Hrun; reflexivity
    end.
Qed.

(** ** One storage call per request *)

Ltac guards H :=
  bind_inv H;
  repeat match goal with
         | Hg : guard_db _ _ = Ok _ |- _ => apply guard_db_Ok in Hg
         end;
  unfold references_user, references_project in *;
  repeat match goal with
         | Hb : bool_decide _ = true |- _ => apply bool_decide_eq_true in Hb
         end.

(** What an accepted row satisfied. *)
Lemma users_constraints_Ok s u :
  users_constraints s u = Ok tt →
  (User.id u ∉ User.id <$> users s) ∧ (User.email u ∉ User.email <$> users s).
Proof. unfold users_constraints. intros Hchk. guards Hchk. split; assumption. Qed.

Lemma projects_constraints_Ok s p :
  projects_constraints s p = Ok tt →
  (Project.id p ∉ Project.id <$> projects s) ∧
  (Project.inviteCode p ∉ Project.inviteCode <$> projects s) ∧
  Project.createdBy p ∈ User.id <$> users s.
Proof. unfold projects_constraints. intros Hchk. guards Hchk. repeat split; assumption. Qed.

Lemma projectMembers_constraints_Ok s m :
  projectMembers_constraints s m = Ok tt →
  (ProjectMember.id m ∉ ProjectMember.id <$> projectMembers s) ∧
  ProjectMember.projectId m ∈ Project.id <$> projects s ∧
  ProjectMember.userId m ∈ User.id <$> users s.
Proof. unfold projectMembers_constraints. intros Hchk. guards Hchk. repeat split; assumption. Qed.

Lemma tasks_constraints_Ok s t :
  tasks_constraints s t = Ok tt →
  (Task.id t ∉ Task.id <$> tasks s) ∧
  Task.projectId t ∈ Project.id <$> projects s ∧
  (∀ a, Task.assigneeId t = Some a → a ∈ User.id <$> users s) ∧
  Task.createdBy t ∈ User.id <$> users s.
Proof.
  unfold tasks_constraints. intros Hchk. guards Hchk. repeat split; try assumption.
  intros a Ha. rewrite Ha in *.
  match goal with Hb : bool_decide _ = true |- _ => apply bool_decide_eq_true in Hb; exact Hb end.
Qed.

(** A membership insert is refused for one of three reasons. *)
Lemma projectMembers_constraints_Throw s m err :
  projectMembers_constraints s m = Throw err →
  err = DbErr UniqueViolation ∧ ProjectMember.id m ∈ ProjectMember.id <$> projectMembers s ∨
  ProjectMember.projectId m ∉ Project.id <$> projects s ∨
  ProjectMember.userId m ∉ User.id <$> users s.
Proof.
  unfold projectMembers_constraints, guard_db, references_project, references_user.
  destruct (bool_decide (ProjectMember.id m ∉ _)) eqn:Hid; simpl.
  - destruct (bool_decide (ProjectMember.projectId m ∈ _)) eqn:Hpid; simpl.
    + destruct (bool_decide (ProjectMember.userId m ∈ _)) eqn:Huid; simpl; [discriminate|].
      intros _. right. right. apply bool_decide_eq_false in Huid. exact Huid.
    + intros _. right. left. apply bool_decide_eq_false in Hpid. exact Hpid.
  - intros Hthrow. inversion Hthrow. left. split; [reflexivity|].
    apply bool_decide_eq_false in Hid. apply dec_stable. exact Hid.
Qed.

Lemma Forall2_elem_of_l {A B} (Q : A → B → Prop) l k x :
  Forall2 Q l k → x ∈ l → ∃ y, y ∈ k ∧ Q x y.
Proof.
  intros HF Hx. apply list_elem_of_lookup_1 in Hx as [i Hi].
  destruct (Forall2_lookup_l _ _ _ _ _ HF Hi) as (y & Hy & HQ).
  exists y. split; [eapply list_elem_of_lookup_2; exact Hy|exact HQ].
Qed.

(** Each storage call, as the routes make it, is a [db_write]. *)
Lemma createUser_write e insertUser s r s' :
  createUser e insertUser s = (r, s') → db_write e s s'.
Proof.
  unfold createUser. intros Hs.
  apply statement_cases in Hs as [(Hchk & _ & ->)|(err & _ & ->)].
  - eapply write_user; [exact Hchk|reflexivity].
  - apply write_none. reflexivity.
Qed.

Lemma createProject_write e projectData createdBy s r s' :
  createProject e projectData createdBy s = (r, s') → db_write e s s'.
Proof.
  unfold createProject, st_bind, st_ret. intros Hc.
  destruct (statement _ _ _ s) as [[p0|err] s0] eqn:Hp.
  - apply statement_Ok in Hp as (Hchk & -> & ->).
    apply outcome_bind_Ok in Hchk as (u & _ & Hchk). destruct u.
    destruct (addMemberRow _ _ _ _) as [r1 s1] eqn:Hm.
    assert (s' = s1) as -> by (destruct r1; inversion Hc; reflexivity).
    unfold addMemberRow in Hm.
    apply statement_cases in Hm as [(_ & _ & ->)|(err & _ & ->)].
    + eapply write_project; [exact Hchk|reflexivity|]. right. reflexivity.
    + eapply write_project; [exact Hchk|reflexivity|]. left. reflexivity.
  - apply statement_Throw in Hp as ->. inversion Hc; subst. apply write_none. reflexivity.
Qed.

Lemma addProjectMember_write e projectId userId s r s' :
  getUserProjectRole projectId userId s = None →
  addProjectMember e (InsertProjectMember.mk projectId userId (Some member)) s = (r, s') →
  db_write e s s'.
Proof.
  unfold addProjectMember, addMemberRow. intros Hrole Hs.
  apply statement_cases in Hs as [(Hchk & _ & ->)|(err & _ & ->)].
  - eapply write_member; [exact Hchk|reflexivity|exact Hrole|reflexivity].
  - apply write_none. reflexivity.
Qed.

Lemma createTask_write e taskData createdBy s r s' :
  createTask e taskData createdBy s = (r, s') → db_write e s s'.
Proof.
  unfold createTask. intros Hs.
  apply statement_cases in Hs as [(Hchk & _ & ->)|(err & _ & ->)].
  - eapply write_task; [exact Hchk|reflexivity].
  - apply write_none. reflexivity.
Qed.

(** Every route moves the database by one storage call, made as the
    handlers make it. *)
Lemma serve_db_write `{Libs} route e req w res w' :
  serve route e req w = (res, w') → db_write e (db w) (db w').
Proof.
  intros Hrun.
  destruct route; simpl in Hrun; routes Hrun;
    try enter Hrun; try (apply write_none; reflexivity); glue; explore Hrun; finish Hrun;
    try (apply write_none; reflexivity);
    eauto using createUser_write, createProject_write, addProjectMember_write,
      createTask_write, write_updateProject, write_updateTask, write_deleteProject,
      write_deleteTask.
Qed.

(** A new assignee is a stored user. *)
Lemma task_apply_assignee s e set t t' a :
  task_apply s e set t = Ok t' →
  Task.assigneeId t' = Some a →
  Task.assigneeId t = Some a ∨ a ∈ User.id <$> users s.
Proof.
  unfold task_apply. intros Happly. bind_inv Happly.
  inversion Happly; subst; clear Happly. simpl. intros Ha.
  repeat match goal with
         | Hg : guard_db _ _ = Ok _ |- _ => apply guard_db_Ok in Hg
         end.
  rewrite Ha in *.
  match goal with
  | Hg : bool_decide (Some a = _) || _ = true |- _ =>
    apply orb_true_iff in Hg as [Hg|Hg]; apply bool_decide_eq_true in Hg
  end.
  - left. symmetry. assumption.
  - right. assumption.
Qed.

Lemma updateTask_kept e id body s r s' :
  updateTask e id (stripTask body) s = (r, s') →
  Forall2 (task_kept s) (tasks s) (tasks s').
Proof.
  unfold updateTask. intros Hup.
  assert (Forall2 (task_kept s) (tasks s) (tasks s)) as Hsame.
  { apply Forall_Forall2_diag, Forall_forall. intros t _. split; [repeat split|]. auto. }
  destruct (task_set (stripTask body)) as [set|err] eqn:Hset; simpl in Hup;
    [|inversion Hup; subst; exact Hsame].
  destruct (update_rows _ _ _) as [[table returning]|err] eqn:Hrows;
    inversion Hup; subst; clear Hup; simpl; [|exact Hsame].
  eapply (update_rows_Forall2 (task_kept s)) in Hrows as [Hrows _]; [exact Hrows| |].
  - intros t. split; [repeat split|]. auto.
  - intros t t' Ht. split; [eapply task_apply_stripped; eassumption|].
    intros a. eapply task_apply_assignee. exact Ht.
Qed.

Lemma elem_of_snoc_fmap {A B} (f : A → B) (l : list A) (x : A) (y : B) :
  y ∈ f <$> l → y ∈ f <$> (l ++ [x]).
Proof. rewrite fmap_app. intros Hy. apply elem_of_app. left. exact Hy. Qed.

(** A pair without a role has no membership row. *)
Lemma role_free projectId userId s m :
  getUserProjectRole projectId userId s = None →
  m ∈ projectMembers s → role_key m ≠ (projectId, userId).
Proof.
  unfold getUserProjectRole, role_key. intros Hrole Hm Hkey. inversion Hkey; subst.
  destruct (head _) eqn:Hh; [discriminate|].
  eapply (head_filter_None_inv _ _ Hh); [exact Hm|]. split; reflexivity.
Qed.

(** Every storage call preserves the invariants. *)
Lemma db_write_store_wf e s s' : db_write e s s' → store_ok s → store_wf s → store_wf s'.
Proof.
  intros Hw [Hpids Htids Hmem Hshape]
    [Huids Hemails Hcodes Hpc Hmu Htp Htc Hta Hroles Howners].
  destruct Hw as
    [->
    |u Hchk ->
    |p Hchk Hid Hs'
    |m Hchk Hrole Hnone ->
    |t Hchk ->
    |id body r Hup
    |id body r Hup
    |id r Hdel
    |id r Hdel].
  - constructor; assumption.
  - apply users_constraints_Ok in Hchk as [Hfid Hfemail].
    constructor; simpl; try assumption.
    + rewrite fmap_app. apply NoDup_snoc; assumption.
    + rewrite fmap_app. apply NoDup_snoc; assumption.
    + intros p Hp. apply elem_of_snoc_fmap. auto.
    + intros m Hm. apply elem_of_snoc_fmap. auto.
    + intros t Ht. apply elem_of_snoc_fmap. auto.
    + intros t a Ht Ha. apply elem_of_snoc_fmap. eauto.
  - apply projects_constraints_Ok in Hchk as (Hfid & Hfcode & Hcreator).
    assert (∀ m, m ∈ projectMembers s → role_key m ≠ role_key (ownerRow e p)) as Hfree.
    { intros m Hm Hkey. inversion Hkey as [[Hpid Huid]]. apply Hfid. rewrite <- Hpid.
      apply Hmem. exact Hm. }
    assert (∀ m, m ∈ projectMembers s' →
              m ∈ projectMembers s ∨ m = ownerRow e p) as Hrows.
    { intros m Hm. destruct Hs' as [->| ->]; simpl in Hm; [left; exact Hm|].
      apply elem_of_app in Hm as [Hm|Hm]; [left; exact Hm|].
      apply list_elem_of_singleton in Hm. right. exact Hm. }
    assert (users s' = users s ∧ projects s' = projects s ++ [p] ∧ tasks s' = tasks s)
      as (Hu & Hp & Ht) by (destruct Hs' as [->| ->]; repeat split).
    constructor; rewrite ?Hu, ?Hp, ?Ht; try assumption.
    + rewrite fmap_app. apply NoDup_snoc; assumption.
    + intros q Hq. apply elem_of_app in Hq as [Hq|Hq]; [auto|].
      apply list_elem_of_singleton in Hq. subst q. exact Hcreator.
    + intros m Hm. destruct (Hrows m Hm) as [Hm'| ->]; [auto|exact Hcreator].
    + intros t Ht'. apply elem_of_snoc_fmap. auto.
    + destruct Hs' as [->| ->]; simpl; [exact Hroles|].
      rewrite fmap_app. apply NoDup_snoc; [exact Hroles|].
      intros Hin. apply list_elem_of_fmap in Hin as (m & Hkey & Hm).
      apply (Hfree m Hm). symmetry. exact Hkey.
    + intros m Hm Hr. destruct (Hrows m Hm) as [Hm'| ->].
      * destruct (Howners m Hm' Hr) as (q & Hq & Hq1 & Hq2). exists q.
        split; [apply elem_of_app; left; exact Hq|]. split; assumption.
      * exists p. split; [apply elem_of_app; right; left|]. split; reflexivity.
  - apply projectMembers_constraints_Ok in Hchk as (_ & _ & Huser).
    constructor; simpl; try assumption.
    + intros m0 Hm0. apply elem_of_app in Hm0 as [Hm0|Hm0]; [auto|].
      apply list_elem_of_singleton in Hm0. subst m0. exact Huser.
    + rewrite fmap_app. apply NoDup_snoc; [exact Hroles|].
      intros Hin. apply list_elem_of_fmap in Hin as (m0 & Hkey & Hm0).
      apply (role_free _ _ _ _ Hnone Hm0). symmetry. exact Hkey.
    + intros m0 Hm0 Hr. apply elem_of_app in Hm0 as [Hm0|Hm0]; [auto|].
      apply list_elem_of_singleton in Hm0. subst m0. congruence.
  - apply tasks_constraints_Ok in Hchk as (_ & Hproject & Hassignee & Hcreator).
    constructor; simpl; try assumption.
    + intros t0 Ht0. apply elem_of_app in Ht0 as [Ht0|Ht0]; [auto|].
      apply list_elem_of_singleton in Ht0. subst t0. exact Hproject.
    + intros t0 Ht0. apply elem_of_app in Ht0 as [Ht0|Ht0]; [auto|].
      apply list_elem_of_singleton in Ht0. subst t0. exact Hcreator.
    + intros t0 a Ht0 Ha. apply elem_of_app in Ht0 as [Ht0|Ht0]; [eauto|].
      apply list_elem_of_singleton in Ht0. subst t0. auto.
  - apply updateProject_stripped in Hup as (Hu & Ht & Hm & Hsame & _).
    destruct (same_project_identity_ids _ _ Hsame) as [Hids Hcs].
    constructor; rewrite ?Hu, ?Ht, ?Hm, ?Hids, ?Hcs; try assumption.
    + intros p' Hp'.
      destruct (Forall2_elem_of_r _ _ _ _ Hsame Hp') as (p & Hp & _ & Hcb & _).
      rewrite Hcb. auto.
    + intros m Hm' Hr. destruct (Howners m Hm' Hr) as (p & Hp & Hp1 & Hp2).
      destruct (Forall2_elem_of_l _ _ _ _ Hsame Hp) as (p' & Hp' & Hid' & Hcb & _).
      exists p'. split; [exact Hp'|]. split; congruence.
  - apply updateTask_stripped in Hup as Hkeep. destruct Hkeep as (Hu & Hp & Hm & _).
    apply updateTask_kept in Hup.
    constructor; rewrite ?Hu, ?Hp, ?Hm; try assumption.
    + intros t' Ht'.
      destruct (Forall2_elem_of_r _ _ _ _ Hup Ht') as (t & Ht & (_ & Hpid & _) & _).
      rewrite Hpid. auto.
    + intros t' Ht'.
      destruct (Forall2_elem_of_r _ _ _ _ Hup Ht') as (t & Ht & (_ & _ & Hcb) & _).
      rewrite Hcb. auto.
    + intros t' a Ht' Ha.
      destruct (Forall2_elem_of_r _ _ _ _ Hup Ht') as (t & Ht & _ & Hassignee).
      destruct (Hassignee a Ha) as [Hold|Hnew]; [eauto|exact Hnew].
  - unfold deleteProject in Hdel.
    destruct (filter (λ p, Project.id p = id) (projects s)) as [|p0 rest];
      inversion Hdel; subst; clear Hdel; [constructor; assumption|].
    constructor; simpl; try assumption.
    + apply NoDup_fmap_filter. exact Hcodes.
    + intros p Hp. apply list_elem_of_filter in Hp as [_ Hp]. auto.
    + intros m Hm. apply list_elem_of_filter in Hm as [_ Hm]. auto.
    + intros t Ht. apply list_elem_of_filter in Ht as [Hne Ht].
      specialize (Htp t Ht). apply list_elem_of_fmap in Htp as (q & Hq & Hin).
      apply list_elem_of_fmap. exists q. split; [exact Hq|].
      apply list_elem_of_filter. split; [rewrite <- Hq; exact Hne|exact Hin].
    + intros t Ht. apply list_elem_of_filter in Ht as [_ Ht]. auto.
    + intros t a Ht. apply list_elem_of_filter in Ht as [_ Ht]. eauto.
    + apply NoDup_fmap_filter. exact Hroles.
    + intros m Hm Hr. apply list_elem_of_filter in Hm as [Hne Hm].
      destruct (Howners m Hm Hr) as (q & Hq & Hq1 & Hq2). exists q.
      split; [|split; assumption].
      apply list_elem_of_filter. split; [rewrite Hq1; exact Hne|exact Hq].
  - unfold deleteTask in Hdel. inversion Hdel; subst; clear Hdel.
    constructor; simpl; try assumption.
    + intros t Ht. apply list_elem_of_filter in Ht as [_ Ht]. auto.
    + intros t Ht. apply list_elem_of_filter in Ht as [_ Ht]. auto.
    + intros t a Ht. apply list_elem_of_filter in Ht as [_ Ht]. eauto.
Qed.

(** The invariants hold in every world the server reaches. *)
Lemma reachable_store_wf `{Libs} w : reachable w → store_wf (db w).
Proof.
  induction 1 as [clients|route e req w Hw IH|ev w _ IH].
  - constructor; simpl; try constructor; intros x; intros;
      match goal with Hx : _ ∈ [] |- _ => inversion Hx end.
  - destruct (serve route e req w) as [res w'] eqn:Hrun. simpl.
    eapply db_write_store_wf; [eapply serve_db_write; exact Hrun| |exact IH].
    apply reachable_store_ok. exact Hw.
  - exact IH.
Qed.

(** No storage call a route makes rewrites or removes a user. *)
Lemma db_write_users e s s' : db_write e s s' → users s `prefix_of` users s'.
Proof.
  intros Hw.
  destruct Hw as
    [->
    |u Hchk ->
    |p Hchk Hid [->| ->]
    |m Hchk Hrole Hnone ->
    |t Hchk ->
    |id body r Hup
    |id body r Hup
    |id r Hdel
    |id r Hdel]; simpl; try reflexivity.
  - apply prefix_app_r. reflexivity.
  - apply updateProject_stripped in Hup as (-> & _). reflexivity.
  - apply updateTask_stripped in Hup as (-> & _). reflexivity.
  - unfold deleteProject in Hdel.
    destruct (filter _ (projects s)); inversion Hdel; subst; reflexivity.
  - unfold deleteTask in Hdel. inversion Hdel; subst. reflexivity.
Qed.

Lemma head_filter_prefix {A} (P : A → Prop) `{∀ x, Decision (P x)} (l k : list A) x :
  l `prefix_of` k → head (filter P l) = Some x → head (filter P k) = Some x.
Proof.
  intros [k' ->] Hh. rewrite filter_app. apply head_app_Some. left. exact Hh.
Qed.

(** Under a unique key the lookup by the key of a stored row returns that
    row. *)
Lemma head_filter_key {A B} `{EqDecision B} (f : A → B) (l : list A) x :
  NoDup (f <$> l) → x ∈ l → head (filter (λ y, f y = f x) l) = Some x.
Proof.
  induction l as [|z l IH]; [intros _ Hx; inversion Hx|].
  rewrite fmap_cons. intros Hnd Hx. apply NoDup_cons in Hnd as [Hz Hnd].
  rewrite filter_cons. apply elem_of_cons in Hx as [->|Hx].
  - rewrite decide_True by reflexivity. reflexivity.
  - rewrite decide_False; [apply IH; assumption|].
    intros Heq. apply Hz. rewrite Heq. apply list_elem_of_fmap_2. exact Hx.
Qed.

(** The worlds a run of requests goes through are reachable. *)
Lemma play_reachable requests w : @reachable libs w → @reachable libs (play requests w).2.
Proof.
  unfold play. intros Hw.
  change w with ((@nil Response, w).2) in Hw. revert Hw.
  generalize (@nil Response, w). induction requests as [|r requests IH]; intros acc Hacc.
  - exact Hacc.
  - simpl. apply IH. simpl. apply reachable_serve. exact Hacc.
Qed.

Lemma final_reachable : @reachable libs final.
Proof. apply play_reachable. apply reachable_start. Qed.

(** The example database satisfies the invariants of [store_ok]. *)
Lemma store_store_ok : store_ok store.
Proof.
  constructor.
  - vm_compute. repeat (constructor; [absent|]). constructor.
  - vm_compute. repeat (constructor; [absent|]). constructor.
  - exact store_members_reference_projects.
  - intros p Hp. vm_compute in Hp.
    repeat (apply elem_of_cons in Hp as [->|Hp];
            [split; [reflexivity|vm_compute; repeat constructor]|]).
    inversion Hp.
Qed.

(** ** Invariants of the databases the server reaches *)

(** X3. In every world the server reaches, no two stored users share an
    email or an id: the lookup by the email, and by the id, of a stored user
    returns that very row. *)
Theorem stored_users_are_found `{Libs} (w : World) (u : User.t) :
  reachable w →
  u ∈ users (db w) →
  getUserByEmail (User.email u) (db w) = Some u ∧
  getUser (User.id u) (db w) = Some u ∧
  ∀ u', u' ∈ users (db w) →
    User.email u' = User.email u ∨ User.id u' = User.id u → u' = u.
Proof.
  intros Hw Hu. apply reachable_store_wf in Hw as [Hids Hemails _ _ _ _ _ _ _ _].
  split; [|split].
  - apply (head_filter_key User.email); assumption.
  - apply (head_filter_key User.id); assumption.
  - intros u' Hu' [Heq|Heq].
    + eapply (NoDup_fmap_inj_on User.email); eassumption.
    + eapply (NoDup_fmap_inj_on User.id); eassumption.
Qed.

(** Bob is the second user of the scenario and is found by both lookups. *)
Lemma stored_users_are_found_witness :
  getUserByEmail "bob@x.com" (db final) =
    Some (User.mk "u-b" "Bob" "X" "bob@x.com" "s$pw" None 100 100) ∧
  getUser "u-b" (db final) =
    Some (User.mk "u-b" "Bob" "X" "bob@x.com" "s$pw" None 100 100).
Proof.
  destruct (@stored_users_are_found libs final
              (User.mk "u-b" "Bob" "X" "bob@x.com" "s$pw" None 100 100))
    as (Hemail & Hid & _).
  - exact final_reachable.
  - vm_compute. apply elem_of_cons. right. left.
  - split; [exact Hemail|exact Hid].
Defined.

(** X5. In every world the server reaches, a membership row with role "owner"
    belongs to the user who created the project, and a project has at most
    one such row: no route hands ownership over or adds a second owner. *)
Theorem owner_is_the_creator `{Libs} (w : World) (m : ProjectMember.t) :
  reachable w →
  m ∈ projectMembers (db w) →
  ProjectMember.role m = owner →
  (∃ p, getProject (ProjectMember.projectId m) (db w) = Some p ∧
        Project.createdBy p = ProjectMember.userId m) ∧
  ∀ m', m' ∈ projectMembers (db w) → ProjectMember.role m' = owner →
    ProjectMember.projectId m' = ProjectMember.projectId m → m' = m.
Proof.
  intros Hw Hm Hrole.
  pose proof (reachable_store_ok _ Hw) as [Hpids _ _ _].
  apply reachable_store_wf in Hw as [_ _ _ _ _ _ _ _ Hroles Howners].
  destruct (Howners m Hm Hrole) as (p & Hp & Hid & Hcb).
  assert (getProject (ProjectMember.projectId m) (db w) = Some p) as Hget.
  { unfold getProject. rewrite <- Hid. apply (head_filter_key Project.id); assumption. }
  split; [exists p; split; assumption|].
  intros m' Hm' Hrole' Hpid.
  destruct (Howners m' Hm' Hrole') as (p' & Hp' & Hid' & Hcb').
  assert (p' = p) as ->.
  { eapply (NoDup_fmap_inj_on Project.id); try eassumption. congruence. }
  eapply (NoDup_fmap_inj_on role_key); try eassumption. unfold role_key. congruence.
Qed.

Lemma owner_is_the_creator_witness :
  ∃ p, getProject "p-1" (db final) = Some p ∧ Project.createdBy p = "u-a".
Proof.
  apply (proj1 (@owner_is_the_creator libs final
                  (ProjectMember.mk "p-1-owner" "p-1" "u-a" owner 100) final_reachable
                  ltac:(vm_compute; apply elem_of_cons; left; reflexivity) eq_refl)).
Defined.

(** X6. In every world the server reaches, the invite code of a stored
    project is a 16-character uppercase hexadecimal string that no other
    project has: the lookup by that code returns that project, whatever was
    sent to the update route. *)
Theorem invite_codes_identify_projects `{Libs} (w : World) (p : Project.t) :
  reachable w →
  p ∈ projects (db w) →
  inviteCodeShape (Project.inviteCode p) ∧
  getProjectByInviteCode (Project.inviteCode p) (db w) = Some p ∧
  getProject (Project.id p) (db w) = Some p.
Proof.
  intros Hw Hp.
  pose proof (reachable_store_ok _ Hw) as [Hids _ _ Hshape].
  pose proof (wf_codes _ (reachable_store_wf _ Hw)) as Hcodes.
  split; [apply Hshape; exact Hp|]. split.
  - apply (head_filter_key Project.inviteCode); assumption.
  - apply (head_filter_key Project.id); assumption.
Qed.

Lemma invite_codes_identify_projects_witness :
  inviteCodeShape "001AFFC37E7E7E7E" ∧
  getProjectByInviteCode "001AFFC37E7E7E7E" (db final) =
    Some (Project.mk "p-1" "Sprint 1" None "001AFFC37E7E7E7E" active None "u-a" 100 100).
Proof.
  destruct (@invite_codes_identify_projects libs final
              (Project.mk "p-1" "Sprint 1" None "001AFFC37E7E7E7E" active None "u-a" 100 100)
              final_reachable ltac:(vm_compute; apply elem_of_cons; left; reflexivity))
    as (Hshape & Hcode & _).
  split; [exact Hshape|exact Hcode].
Defined.

(** X7. No route rewrites or removes a user: after any request the [users]
    table starts with the rows it had, so the lookups by id and by email
    return the rows they returned before, password hash included. *)
Theorem stored_users_never_change `{Libs} (route : Route) (e : Env) (req : Req.t) (w : World) :
  users (db w) `prefix_of` users (db (serve route e req w).2) ∧
  (∀ id u, getUser id (db w) = Some u → getUser id (db (serve route e req w).2) = Some u) ∧
  (∀ email u, getUserByEmail email (db w) = Some u →
     getUserByEmail email (db (serve route e req w).2) = Some u).
Proof.
  destruct (serve route e req w) as [res w'] eqn:Hrun. simpl.
  apply serve_db_write, db_write_users in Hrun.
  split; [exact Hrun|]. split.
  - intros id u. apply head_filter_prefix. exact Hrun.
  - intros email u. apply head_filter_prefix. exact Hrun.
Qed.

(** Alice's update names another project and another creator; the task keeps
    its own. *)
Lemma task_stays_in_project_witness :
  same_task_identity writeSpec
    (Task.mk "t-1" "Write the spec" None todo medium "p-1" (Some "u-alice") "u-alice" 8 100).
Proof.
  apply (@task_stays_in_project libs PUT_task env aliceMovesTask world
           (@put_task libs env aliceMovesTask world).1
           (@put_task libs env aliceMovesTask world).2).
  - exact store_store_ok.
  - vm_compute. reflexivity.
  - vm_compute. apply elem_of_cons. left. reflexivity.
  - vm_compute. apply elem_of_cons. left. reflexivity.
  - reflexivity.
Defined.

(** An id that names no project still names none after Carol creates one. *)
Lemma getProject_stays_None_witness :
  getProject "p-9" (db (@serve libs POST_projects env carolCreatesProject world).2) = None.
Proof.
  apply (@getProject_stays_None libs POST_projects env carolCreatesProject world
           (@serve libs POST_projects env carolCreatesProject world).1).
  - vm_compute. reflexivity.
  - discriminate.
  - vm_compute. reflexivity.
Defined.

(** ** Hydrated objects are complete *)

Lemma getProjectWithMembers_read id s pw :
  getProjectWithMembers id s = Some pw → project_read s pw.
Proof.
  unfold getProjectWithMembers.
  destruct (head _) as [project|] eqn:Hh; intros Hg; inversion Hg; subst.
  apply head_filter_Some in Hh as [Hin _]. split; [exact Hin|reflexivity].
Qed.

Lemma getUserProjects_read userId s : Forall (project_read s) (getUserProjects userId s).
Proof.
  unfold getUserProjects. destruct (_ <$> _) as [|i ids]; [constructor|].
  apply Forall_fmap, Forall_forall. intros project Hin.
  rewrite merge_sort_Permutation in Hin. apply list_elem_of_filter in Hin as [_ Hin].
  split; [exact Hin|reflexivity].
Qed.

Lemma getTask_read id s tw : getTask id s = Some tw → task_read s tw.
Proof.
  unfold getTask.
  destruct (head _) as [j|] eqn:Hh; intros Hg; inversion Hg; subst.
  apply head_Some_elem_of in Hh. apply list_elem_of_filter in Hh as [_ Hh].
  exists j. split; [exact Hh|reflexivity].
Qed.

Lemma sorted_details_read s (P : (Task.t * option User.t) * option Project.t → Prop)
    `{∀ j, Decision (P j)} :
  Forall (task_read s)
    (withDetails s <$> merge_sort desc_createdAt (filter P (tasksJoined s))).
Proof.
  apply Forall_fmap, Forall_forall. intros j Hin.
  rewrite merge_sort_Permutation in Hin. apply list_elem_of_filter in Hin as [_ Hin].
  exists j. split; [exact Hin|reflexivity].
Qed.

Lemma getProjectTasks_read projectId s : Forall (task_read s) (getProjectTasks projectId s).
Proof. apply sorted_details_read. Qed.

Lemma getUserTasks_read userId s : Forall (task_read s) (getUserTasks userId s).
Proof. apply sorted_details_read. Qed.

(** Whatever a route answers, the hydrated objects of the response were
    read from the database as the request left it. *)
Lemma serve_response_read `{Libs} route e req w res w' :
  serve route e req w = (res, w') → response_read (db w') (json res).
Proof.
  intros Hrun.
  destruct route; simpl in Hrun; routes Hrun;
    try enter Hrun; try exact I; glue; explore Hrun; finish Hrun; try exact I;
    eauto using getProjectWithMembers_read, getUserProjects_read, getTask_read,
      getProjectTasks_read, getUserTasks_read.
  all: match goal with
       | |- match ?x with _ => _ end => destruct x eqn:Hfull; [|exact I]
       end;
    eauto using getProjectWithMembers_read, getTask_read.
Qed.

Lemma head_filter_is_Some {A} (P : A → Prop) `{∀ x, Decision (P x)} (l : list A) x :
  x ∈ l → P x → is_Some (head (filter P l)).
Proof.
  intros Hx HP. destruct (head (filter P l)) eqn:Hh; [eexists; reflexivity|].
  destruct (head_filter_None_inv _ _ Hh x Hx HP).
Qed.

(** A row of the left table is joined with [null] only when no row of the
    right table matches it. *)
Lemma leftJoin_None {A B} (on : A → B → bool) (l : list A) (r : list B) a b :
  (a, None) ∈ leftJoin on l r → b ∈ r → on a b = false.
Proof.
  unfold leftJoin. intros Hin Hb.
  apply list_elem_of_bind in Hin as (a0 & Hin & Ha0).
  destruct (filter (λ b, on a0 b) r) as [|b0 bs] eqn:Hf.
  - apply list_elem_of_singleton in Hin. inversion Hin; subst.
    destruct (on a0 b) eqn:Hon; [|reflexivity].
    assert (b ∈ filter (λ b, on a0 b) r) as Hin'.
    { apply list_elem_of_filter. split; [rewrite Hon; exact I|exact Hb]. }
    rewrite Hf in Hin'. inversion Hin'.
  - apply list_elem_of_fmap in Hin as (b' & Heq & _). inversion Heq.
Qed.

Lemma stored_user id s : id ∈ User.id <$> users s → ∃ u, u ∈ users s ∧ User.id u = id.
Proof.
  intros Hin. apply list_elem_of_fmap in Hin as (u & Hid & Hu). exists u. split; auto.
Qed.

Lemma project_read_hydrated s pw : store_wf s → project_read s pw → project_hydrated pw.
Proof.
  intros Hwf [Hin ->]. split; simpl.
  - destruct (stored_user _ _ (wf_project_creators _ Hwf _ Hin)) as (u & Hu & Hid).
    apply (head_filter_is_Some (λ u, User.id u = Project.createdBy (pwm_row pw)) _ u);
      assumption.
  - unfold getProjectMembers. intros m ou Hm.
    apply list_elem_of_filter in Hm as [_ Hm].
    destruct ou as [u|]; [eexists; reflexivity|]. exfalso.
    apply leftJoin_elem_of in Hm as Hrow. destruct Hrow as [Hrow _].
    destruct (stored_user _ _ (wf_member_users _ Hwf _ Hrow)) as (u & Hu & Hid).
    pose proof (leftJoin_None _ _ _ _ u Hm Hu) as Hoff.
    apply bool_decide_eq_false in Hoff. apply Hoff. symmetry. exact Hid.
Qed.

Lemma task_read_hydrated s tw : store_wf s → task_read s tw → task_hydrated tw.
Proof.
  intros Hwf ([[t ou] op] & Hin & ->).
  apply tasksJoined_elem_of in Hin as Hrow. destruct Hrow as (Ht & Hou & Hop).
  unfold tasksJoined in Hin. split; [|split]; simpl.
  - destruct (stored_user _ _ (wf_task_creators _ Hwf _ Ht)) as (u & Hu & Hid).
    apply (head_filter_is_Some (λ u, User.id u = Task.createdBy t) _ u); assumption.
  - destruct op as [p|]; [eexists; reflexivity|]. exfalso.
    pose proof (wf_task_projects _ Hwf _ Ht) as Hp.
    apply list_elem_of_fmap in Hp as (p & Hid & Hp).
    pose proof (leftJoin_None _ _ _ _ p Hin Hp) as Hoff.
    apply bool_decide_eq_false in Hoff. apply Hoff. exact Hid.
  - split.
    + intros [u ->]. destruct (Hou u eq_refl) as [_ ->]. eexists; reflexivity.
    + intros [a Ha]. destruct ou as [u|]; [eexists; reflexivity|]. exfalso.
      apply leftJoin_elem_of in Hin as [Hin _].
      destruct (stored_user _ _ (wf_task_assignees _ Hwf _ _ Ht Ha)) as (u & Hu & Hid).
      pose proof (leftJoin_None _ _ _ _ u Hin Hu) as Hoff.
      apply bool_decide_eq_false in Hoff. apply Hoff. rewrite Ha, Hid. reflexivity.
Qed.

Lemma response_read_hydrated s j : store_wf s → response_read s j → response_hydrated j.
Proof.
  intros Hwf. destruct j as [| | | |[pw|]|pws| |[tw|]|tws|]; simpl; try (intros; exact I).
  - apply project_read_hydrated. exact Hwf.
  - intros Hall. eapply Forall_impl; [exact Hall|].
    intros pw. apply project_read_hydrated. exact Hwf.
  - apply task_read_hydrated. exact Hwf.
  - intros Hall. eapply Forall_impl; [exact Hall|].
    intros tw. apply task_read_hydrated. exact Hwf.
Qed.

(** X10. In every world the server reaches, the hydrated objects of a response
    are complete: a project has its creator and each of its members has its
    user; a task has its project and its creator, and has an assignee exactly
    when its row names one.  The non-null assertions of the adapter hold. *)
Theorem responses_are_fully_hydrated `{Libs} (route : Route) (e : Env) (req : Req.t)
    (w w' : World) (res : Response) :
  reachable w →
  serve route e req w = (res, w') →
  response_hydrated (json res).
Proof.
  intros Hw Hrun.
  assert (reachable w') as Hw'.
  { pose proof (reachable_serve route e req w Hw) as Hr. rewrite Hrun in Hr. exact Hr. }
  eapply response_read_hydrated; [apply reachable_store_wf; exact Hw'|].
  eapply serve_response_read. exact Hrun.
Qed.

(** The task Alice lists carries Bob, its assignee. *)
Lemma responses_are_fully_hydrated_witness :
  response_hydrated (json (@serve libs GET_project_tasks env aliceListsTasks final).1) ∧
  (twd_assignee <$>
     match json (@serve libs GET_project_tasks env aliceListsTasks final).1 with
     | TasksJson tasks => tasks
     | _ => []
     end) = [Some (User.mk "u-b" "Bob" "X" "bob@x.com" "s$pw" None 100 100)].
Proof.
  split; [|vm_compute; reflexivity].
  apply (@responses_are_fully_hydrated libs GET_project_tasks env aliceListsTasks final
           (@serve libs GET_project_tasks env aliceListsTasks final).2).
  - exact final_reachable.
  - vm_compute. reflexivity.
Defined.

(** ** Accounts *)



Lemma head_None_nil {A} (l : list A) : head l = None → l = [].
Proof. destruct l; [reflexivity|discriminate]. Qed.

(** X12. After a registration that succeeds, a login with the same email and
    password is answered 200 with a token for the new user and the user
    object of the registration, provided bcrypt accepts the hash it made
    (401 otherwise); but when the email or the password registered is the
    empty string, which the registration schema lets through, every login
    is refused with 400. *)
Theorem login_after_register `{Libs} (e e' : Env) (req req' : Req.t) (w w' : World)
    (token : string) (user : PublicUser) (email password : string) :
  post_auth_register e req w = (mkResponse 201 (TokenAndUser token user), w') →
  Req.body req !! "email" = Some (JStr email) →
  Req.body req !! "password" = Some (JStr password) →
  Req.body req' !! "email" = Some (JStr email) →
  Req.body req' !! "password" = Some (JStr password) →
  (email = EmptyString ∨ password = EmptyString →
   post_auth_login e' req' w' = (mkResponse 400 (Message "Email and password required"), w')) ∧
  (email ≠ EmptyString → password ≠ EmptyString →
   post_auth_login e' req' w' =
     (if bcrypt_compare password (bcrypt_hash password 12 (salt e))
      then mkResponse 200
             (TokenAndUser
                (jwt_sign (mkClaims (uuid1 e) email) JWT_SECRET expiresIn (now e')) user)
      else mkResponse 401 (Message "Invalid credentials"),
      w')).
Proof.
  intros Hrun Hemail Hpassword Hemail' Hpassword'.
  split.
  - intros Hempty. unfold post_auth_login. glue. rewrite Hemail', Hpassword'. simpl.
    destruct Hempty as [->| ->]; simpl; [reflexivity|].
    destruct (decide (email = EmptyString)); reflexivity.
  - intros Hne Hnp. unfold post_auth_register in Hrun. glue.
    destruct (insertUserSchema (Req.body req)) as [userData|err] eqn:Hparse;
      [|destruct err; inversion Hrun].
    pose proof (insertUserSchema_email _ _ Hparse) as Heq. rewrite Hemail in Heq.
    inversion Heq as [Heq']; clear Heq.
    assert (InsertUser.password userData = password) as Hpw.
    { unfold insertUserSchema in Hparse. bind_inv Hparse.
      inversion Hparse; subst; clear Hparse. simpl.
      match goal with
      | Hz : zod_string "password" _ = Ok _ |- _ =>
        apply zod_string_Ok in Hz; rewrite Hpassword in Hz; inversion Hz; reflexivity
      end. }
    destruct (getUserByEmail (InsertUser.email userData) (db w)) as [existing|] eqn:Hex;
      [inversion Hrun|].
    destruct (createUser e _ (db w)) as [[row|err] s'] eqn:Hc; [|destruct err; inversion Hrun].
    unfold createUser in Hc. apply statement_Ok in Hc as (_ & -> & ->).
    inversion Hrun; subst; clear Hrun.
    unfold post_auth_login. glue. rewrite Hemail', Hpassword'. simpl.
    rewrite !decide_False by assumption.
    destruct (insertUserSchema_varchars _ _ Hparse) as (_ & _ & Hfits & _).
    unfold getUserByEmail in *. simpl. rewrite (varchar_fits _ _ Hfits), filter_app.
    rewrite (head_None_nil _ Hex). simpl.
    rewrite filter_cons, decide_True by reflexivity. simpl.
    destruct (bcrypt_compare _ _); reflexivity.
Qed.

(** Dave registers and logs in. *)
Lemma login_after_register_witness :
  ∃ w', (@post_auth_register libs env (registration "dave@x.com") world).2 = w' ∧
  @post_auth_login libs env (logsIn "dave@x.com" "pw-d") w' =
    (mkResponse 200
       (TokenAndUser "id-1.dave@x.com" (mkPublicUser "id-1" "Dave" "D" "dave@x.com" None)),
     w').
Proof.
  eexists. split; [reflexivity|].
  refine (proj2 (@login_after_register libs env env (registration "dave@x.com")
                   (logsIn "dave@x.com" "pw-d") world _
                   "id-1.dave@x.com" (mkPublicUser "id-1" "Dave" "D" "dave@x.com" None)
                   "dave@x.com" "pw-d" _ _ _ _ _) _ _).
  - vm_compute. reflexivity.
  - vm_compute. reflexivity.
  - vm_compute. reflexivity.
  - vm_compute. reflexivity.
  - vm_compute. reflexivity.
  - discriminate.
  - discriminate.
Defined.

Lemma split_words first second :
  no_space first → no_space second →
  split " " (first +:+ " " +:+ second) = [first; second].
Proof.
  unfold no_space. intros Hfirst Hsecond. induction first as [|c first IH].
  - change (EmptyString +:+ " " +:+ second) with (String " " second).
    change (split " " (String " " second)) with (EmptyString :: split " " second).
    rewrite (split_no_sep _ _ Hsecond). reflexivity.
  - change (String c first +:+ " " +:+ second) with (String c (first +:+ " " +:+ second)).
    simpl in Hfirst. simpl.
    destruct (Ascii.eqb c " ") eqn:Hc.
    + apply Ascii.eqb_eq in Hc. subst. exfalso. apply Hfirst. left.
    + rewrite IH; [reflexivity|]. intros Hin. apply Hfirst. right. exact Hin.
Qed.

(** X13. [authenticateToken] reads the token as the second space-separated
    word of the header: a request without header, or with a header of one
    word, is answered 401; with two words the second is verified, 403 when
    it is rejected, whatever the first word is.  The scheme is not required
    to be "Bearer". *)
Theorem token_is_the_second_word `{Libs} (e : Env) (req : Req.t)
    (next : Claims → World → Response * World) (w : World) :
  (Req.authorization req = None →
   authenticateToken e req next w = (mkResponse 401 (Message "Access token required"), w)) ∧
  (∀ word, Req.authorization req = Some word → no_space word →
   authenticateToken e req next w = (mkResponse 401 (Message "Access token required"), w)) ∧
  (∀ scheme token,
     Req.authorization req = Some (scheme +:+ " " +:+ token) →
     no_space scheme → no_space token → token ≠ EmptyString →
     authenticateToken e req next w =
       match jwt_verify token JWT_SECRET (now e) with
       | None => (mkResponse 403 (Message "Invalid token"), w)
       | Some user => next user w
       end).
Proof.
  unfold authenticateToken. split; [|split].
  - intros ->. reflexivity.
  - intros word -> Hword. simpl. rewrite (split_no_sep _ _ Hword). reflexivity.
  - intros scheme token -> Hscheme Htoken Hne. simpl.
    rewrite (split_words _ _ Hscheme Htoken). simpl.
    destruct token; [contradiction|reflexivity].
Qed.

(** Alice is served under the scheme word "Basic". *)
Lemma token_is_the_second_word_witness :
  @get_auth_me libs env basicAlice world =
    (mkResponse 200 (UserJson (publicUser alice)), world).
Proof.
  unfold get_auth_me.
  rewrite (proj2 (proj2 (@token_is_the_second_word libs env basicAlice _ world))
             "Basic" "u-alice.alice@x.com" eq_refl).
  - vm_compute. reflexivity.
  - unfold no_space. vm_compute. absent.
  - unfold no_space. vm_compute. absent.
  - discriminate.
Defined.

(** ** Changing projects and tasks *)

(** X14. An update or a deletion of a project that changes anything, or that is
    answered 200 or 204, was asked by a caller whose role in that project is
    "owner". *)
Theorem project_changes_need_owner `{Libs} (e : Env) (req : Req.t) (w w' : World)
    (res : Response) :
  put_project e req w = (res, w') ∨ delete_project e req w = (res, w') →
  (w' ≠ w ∨ statusCode res = 200 ∨ statusCode res = 204)%nat →
  ∃ user,
    caller e req = Some user ∧
    getUserProjectRole (Req.projectId req) (claims_id user) (db w) = Some owner.
Proof.
  intros Hrun Heffect.
  assert (w' = w → (statusCode res ≠ 200 ∧ statusCode res ≠ 204)%nat → False) as Hno.
  { intros -> [H200 H204]. destruct Heffect as [Hne|[Hc|Hc]]; congruence. }
  destruct Hrun as [Hrun|Hrun]; routes Hrun; authenticated Hrun user Hcaller.
  - destruct (getUserProjectRole _ _ _) as [role|] eqn:Hrole;
      [|finish Hrun; destruct Hno; [reflexivity|split; discriminate]].
    case_bool_decide as Howner;
      [finish Hrun; destruct Hno; [reflexivity|split; discriminate]|].
    exists user. split; [exact Hcaller|]. rewrite Hrole, Howner. reflexivity.
  - destruct Hno; [reflexivity|]. destruct Hcode as [->| ->]; split; discriminate.
  - destruct (getUserProjectRole _ _ _) as [role|] eqn:Hrole;
      [|finish Hrun; destruct Hno; [reflexivity|split; discriminate]].
    case_bool_decide as Howner;
      [finish Hrun; destruct Hno; [reflexivity|split; discriminate]|].
    exists user. split; [exact Hcaller|]. rewrite Hrole, Howner. reflexivity.
  - destruct Hno; [reflexivity|]. destruct Hcode as [->| ->]; split; discriminate.
Qed.

Lemma project_changes_need_owner_witness :
  getUserProjectRole "p-1" "u-alice" store = Some owner.
Proof.
  destruct (@project_changes_need_owner libs env aliceDeletesSprint1 world
              (@delete_project libs env aliceDeletesSprint1 world).2
              (@delete_project libs env aliceDeletesSprint1 world).1)
    as (user & Hcaller & Hrole).
  - right. vm_compute. reflexivity.
  - right. right. vm_compute. reflexivity.
  - vm_compute in Hcaller. inversion Hcaller; subst. exact Hrole.
Defined.

(** A left join keeps every row of the left table. *)
Lemma leftJoin_total {A B} (on : A → B → bool) (l : list A) (r : list B) a :
  a ∈ l → ∃ ob, (a, ob) ∈ leftJoin on l r.
Proof.
  unfold leftJoin. intros Ha.
  destruct (filter (λ b, on a b) r) as [|b bs] eqn:Hf.
  - exists None. apply list_elem_of_bind. exists a. split; [|exact Ha].
    rewrite Hf. left.
  - exists (Some b). apply list_elem_of_bind. exists a. split; [|exact Ha].
    rewrite Hf. left.
Qed.

Lemma tasksJoined_total s t : t ∈ tasks s → ∃ ou op, ((t, ou), op) ∈ tasksJoined s.
Proof.
  intros Ht. unfold tasksJoined.
  destruct (leftJoin_total (λ t u, bool_decide (Task.assigneeId t = Some (User.id u)))
              (tasks s) (users s) t Ht) as [ou Hou].
  destruct (leftJoin_total (λ tu p, bool_decide (Task.projectId tu.1 = Project.id p))
              _ (projects s) (t, ou) Hou) as [op Hop].
  exists ou, op. exact Hop.
Qed.

(** [getTask] finds a task exactly when a row has the id. *)
Lemma getTask_is_Some s t : t ∈ tasks s → is_Some (getTask (Task.id t) s).
Proof.
  intros Ht. destruct (tasksJoined_total s t Ht) as (ou & op & Hin).
  unfold getTask.
  destruct (head_filter_is_Some (λ j, Task.id j.1.1 = Task.id t) (tasksJoined s)
              ((t, ou), op) Hin eq_refl) as [j ->].
  eexists. reflexivity.
Qed.

Lemma getTask_None id s : (∀ t, t ∈ tasks s → Task.id t ≠ id) → getTask id s = None.
Proof.
  intros Hno. unfold getTask. rewrite head_filter_None; [reflexivity|].
  intros [[t ou] op] Hin. apply tasksJoined_elem_of in Hin as (Ht & _). simpl.
  apply Hno. exact Ht.
Qed.

(** X15. A task deletion that succeeds (204) was asked by a member of the
    project of the task who is its owner or created the task; it removes the
    rows of that id from [tasks] and nothing else, after which the task is
    not found, and it publishes [task_deleted] under the project of the
    task. *)
Theorem delete_task_by_owner_or_creator `{Libs} (e : Env) (req : Req.t) (w w' : World)
    (res : Response) :
  delete_task e req w = (res, w') →
  statusCode res = 204%nat →
  ∃ user task role,
    caller e req = Some user ∧
    getTask (Req.taskId req) (db w) = Some task ∧
    getUserProjectRole (Task.projectId (twd_row task)) (claims_id user) (db w) = Some role ∧
    (role = owner ∨ Task.createdBy (twd_row task) = claims_id user) ∧
    db w' =
      mkStore (users (db w)) (projects (db w)) (projectMembers (db w))
        (filter (λ t, Task.id t ≠ Req.taskId req) (tasks (db w))) ∧
    getTask (Req.taskId req) (db w') = None ∧
    wss_clients w' =
      broadcast_clients (Task.projectId (twd_row task)) (task_deleted (Req.taskId req))
        (wss_clients w).
Proof.
  unfold delete_task. intros Hrun Hstatus. authenticated Hrun user Hcaller.
  2: { simpl in Hstatus. destruct Hcode; congruence. }
  destruct (getTask (Req.taskId req) (db w)) as [task|] eqn:Htask; [|finish Hrun; discriminate].
  destruct (getUserProjectRole _ _ _) as [role|] eqn:Hrole; [|finish Hrun; discriminate].
  destruct (_ && _) eqn:Hmay; [finish Hrun; discriminate|].
  destruct (deleteTask (Req.taskId req) (db w)) as [[success|err] s'] eqn:Hdel;
    [|finish Hrun; discriminate].
  destruct success; [|finish Hrun; discriminate].
  finish Hrun. unfold deleteTask in Hdel. inversion Hdel as [[Hhit Hs']]; clear Hdel.
  exists user, task, role. repeat split; try assumption.
  - apply andb_false_iff in Hmay as [Hmay|Hmay]; apply bool_decide_eq_false in Hmay.
    + left. destruct role; [reflexivity|]. destruct Hmay. discriminate.
    + right. destruct (decide (Task.createdBy (twd_row task) = claims_id user));
        [assumption|contradiction].
  - apply getTask_None. simpl. intros t Ht. apply list_elem_of_filter in Ht as [Hne _].
    exact Hne.
Qed.

Lemma delete_task_by_owner_or_creator_witness :
  tasks (db (@delete_task libs env aliceDeletesTask world).2) = [] ∧
  wss_clients (@delete_task libs env aliceDeletesTask world).2 =
    [ mkConn OPEN [joined_project (Some (JStr "p-2")); envelope "p-1" (task_deleted "t-1")];
      mkConn CLOSED [] ].
Proof.
  destruct (@delete_task_by_owner_or_creator libs env aliceDeletesTask world
              (@delete_task libs env aliceDeletesTask world).2
              (@delete_task libs env aliceDeletesTask world).1)
    as (user & task & role & Hcaller & Htask & _ & _ & Hdb & _ & Hws).
  - vm_compute. reflexivity.
  - vm_compute. reflexivity.
  - rewrite Hdb, Hws. vm_compute in Htask. inversion Htask; subst.
    vm_compute. split; reflexivity.
Defined.

Lemma insertTaskSchema_projectId body taskData :
  insertTaskSchema body = Ok taskData →
  body !! "projectId" = Some (JStr (InsertTask.projectId taskData)) ∧
  (body !! "status" = None → InsertTask.status taskData = None) ∧
  (body !! "priority" = None → InsertTask.priority taskData = None).
Proof.
  unfold insertTaskSchema. intros Hparse. bind_inv Hparse.
  inversion Hparse; subst; clear Hparse. simpl.
  repeat match goal with
         | Hz : zod_string _ _ = Ok _ |- _ => apply zod_string_Ok in Hz
         end.
  split; [assumption|]. unfold zod_optional_enum in *. split; intros Hnone;
    rewrite Hnone in *; congruence.
Qed.

(** X16. A task creation that succeeds (201) was asked by a member of the
    project of the URL and appends one row: its id is the uuid drawn, its
    project is the project of the URL and its creator is the caller,
    whatever the body says about [projectId], [createdBy] or [id]; status and
    priority default to "todo" and "medium".  The response and the
    [task_created] event carry that row. *)
Theorem created_task_belongs_to_url_project `{Libs} (e : Env) (req : Req.t) (w w' : World)
    (res : Response) :
  post_project_tasks e req w = (res, w') →
  statusCode res = 201%nat →
  ∃ user task full,
    caller e req = Some user ∧
    is_Some (getUserProjectRole (Req.projectId req) (claims_id user) (db w)) ∧
    db w' =
      mkStore (users (db w)) (projects (db w)) (projectMembers (db w))
        (tasks (db w) ++ [task]) ∧
    Task.id task = uuid1 e ∧
    Task.projectId task = Req.projectId req ∧
    Task.createdBy task = claims_id user ∧
    (Req.body req !! "status" = None → Task.status task = todo) ∧
    (Req.body req !! "priority" = None → Task.priority task = medium) ∧
    json res = TaskJson (Some full) ∧
    twd_row full = task ∧
    wss_clients w' =
      broadcast_clients (Req.projectId req) (task_created (Some full)) (wss_clients w).
Proof.
  unfold post_project_tasks. intros Hrun Hstatus. authenticated Hrun user Hcaller.
  2: { simpl in Hstatus. destruct Hcode; congruence. }
  destruct (getUserProjectRole _ _ _) as [role|] eqn:Hrole; [|finish Hrun; discriminate].
  destruct (insertTaskSchema _) as [taskData|err] eqn:Hparse;
    [|destruct err; finish Hrun; discriminate].
  destruct (createTask e taskData (claims_id user) (db w)) as [[task|err] s'] eqn:Hc;
    [|destruct err; finish Hrun; discriminate].
  finish Hrun. unfold createTask in Hc. apply statement_Ok in Hc as (Hchk & -> & ->).
  apply tasks_constraints_Ok in Hchk as (Hfresh & _). simpl in *.
  apply insertTaskSchema_projectId in Hparse as (Hpid & Hst & Hpr).
  rewrite lookup_insert_eq in Hpid. inversion Hpid as [Hpid']; clear Hpid.
  rewrite lookup_insert_ne in Hst, Hpr by discriminate.
  rewrite <- ?Hpid' in *.
  set (task :=
    {| Task.id := uuid1 e;
       Task.title := varchar 200 (InsertTask.title taskData);
       Task.description := InsertTask.description taskData;
       Task.status := default todo (InsertTask.status taskData);
       Task.priority := default medium (InsertTask.priority taskData);
       Task.projectId := Req.projectId req;
       Task.assigneeId := InsertTask.assigneeId taskData;
       Task.createdBy := claims_id user;
       Task.createdAt := now e;
       Task.updatedAt := now e |}) in *.
  set (s' := mkStore (users (db w)) (projects (db w)) (projectMembers (db w))
               (tasks (db w) ++ [task])) in *.
  destruct (getTask_is_Some s' task) as [full Hfull];
    [simpl; apply elem_of_app; right; left|].
  change (Task.id task) with (uuid1 e) in *. rewrite Hfull.
  exists user, task, full.
  split; [exact Hcaller|]. split; [rewrite Hrole; eexists; reflexivity|].
  do 4 (split; [reflexivity|]).
  split; [intros Hnone; simpl; rewrite (Hst Hnone); reflexivity|].
  split; [intros Hnone; simpl; rewrite (Hpr Hnone); reflexivity|].
  split; [reflexivity|]. split; [|reflexivity].
  apply getTask_row in Hfull as [Hin Hid]. simpl in Hin.
  apply elem_of_app in Hin as [Hin|Hin].
  - exfalso. apply Hfresh. rewrite <- Hid. apply list_elem_of_fmap_2. exact Hin.
  - apply list_elem_of_singleton in Hin. exact Hin.
Qed.

Lemma created_task_belongs_to_url_project_witness :
  tasks (db (@post_project_tasks libs env carolCreatesTask world).2) =
    [writeSpec; Task.mk "id-1" "Review" None todo medium "p-1" None "u-carol" 100 100].
Proof.
  destruct (@created_task_belongs_to_url_project libs env carolCreatesTask world
              (@post_project_tasks libs env carolCreatesTask world).2
              (@post_project_tasks libs env carolCreatesTask world).1)
    as (user & task & full & _ & _ & Hdb & Hid & Hpid & Hcb & Hst & Hpr & Hjson & Hrow & _).
  - vm_compute. reflexivity.
  - vm_compute. reflexivity.
  - rewrite Hdb. simpl. f_equal. f_equal. rewrite <- Hrow.
    vm_compute in Hjson. inversion Hjson. reflexivity.
Defined.

(** X17. [createProject] is two inserts and no transaction.  A project creation
    that fails leaves the world as it was, unless the membership insert is
    the one refused (its uuid is in use): then the answer is 500 and the
    project row stays, with no membership row, so that nobody holds a role
    in it. *)
Theorem failed_project_creation_may_keep_the_project `{Libs} (e : Env) (req : Req.t)
    (w w' : World) (res : Response) :
  post_projects e req w = (res, w') →
  (400 ≤ statusCode res)%nat →
  w' = w ∨
  uuid2 e ∈ ProjectMember.id <$> projectMembers (db w) ∧
  res = mkResponse 500 (Message "Failed to create project") ∧
  ∃ user p,
    caller e req = Some user ∧
    Project.id p = uuid1 e ∧
    Project.createdBy p = claims_id user ∧
    Project.inviteCode p = generateInviteCode e ∧
    w' = mkWorld
           (mkStore (users (db w)) (projects (db w) ++ [p]) (projectMembers (db w))
              (tasks (db w)))
           (wss_clients w) ∧
    (members_reference_projects (db w) →
     ∀ userId, getUserProjectRole (uuid1 e) userId (db w') = None).
Proof.
  unfold post_projects. intros Hrun Hcode. authenticated Hrun user Hcaller; [|left; reflexivity].
  destruct (insertProjectSchema (Req.body req)) as [projectData|err];
    [|destruct err; finish Hrun; left; reflexivity].
  destruct (createProject e projectData (claims_id user) (db w)) as [[p|err] s'] eqn:Hc;
    [finish Hrun; lia|].
  unfold createProject, st_bind, st_ret in Hc.
  destruct (statement _ _ _ (db w)) as [[p|err0] s0] eqn:Hp.
  2: { apply statement_Throw in Hp as ->. inversion Hc; subst.
       destruct err; finish Hrun; left; apply World_eta. }
  apply statement_Ok in Hp as (Hchk & -> & ->).
  apply outcome_bind_Ok in Hchk as (u & _ & Hchk).
  destruct (addMemberRow _ _ _ _) as [[m|err1] s1] eqn:Hm; [inversion Hc|].
  inversion Hc; subst; clear Hc.
  unfold addMemberRow, statement in Hm.
  destruct (projectMembers_constraints _ _) as [[]|err2] eqn:Hmchk; inversion Hm; subst; clear Hm.
  apply projects_constraints_Ok in Hchk as (Hfresh & _ & Hcreator). simpl in *.
  apply projectMembers_constraints_Throw in Hmchk as [[-> Hid]|[Hno|Hno]]; simpl in *.
  - right. finish Hrun. split; [exact Hid|]. split; [reflexivity|].
    exists user,
      {| Project.id := uuid1 e;
         Project.name := varchar 200 (InsertProject.name projectData);
         Project.description := InsertProject.description projectData;
         Project.inviteCode := generateInviteCode e;
         Project.status := default active (InsertProject.status projectData);
         Project.deadline := mjoin (InsertProject.deadline projectData);
         Project.createdBy := claims_id user;
         Project.createdAt := now e;
         Project.updatedAt := now e |}.
    split; [exact Hcaller|]. do 4 (split; [reflexivity|]).
    intros Hfk userId. unfold getUserProjectRole. simpl.
    rewrite head_filter_None; [reflexivity|].
    intros m Hin [Hpid _]. apply Hfresh. rewrite <- Hpid. apply Hfk. exact Hin.
  - exfalso. apply Hno. rewrite fmap_app. apply elem_of_app. right. left.
  - contradiction.
Qed.

Lemma failed_project_creation_may_keep_the_project_witness :
  statusCode (@post_projects libs clash carolCreatesProject world).1 = 500%nat ∧
  Project.id <$> projects (db (@post_projects libs clash carolCreatesProject world).2) =
    ["p-1"; "p-2"; "id-1"] ∧
  ∀ userId,
    getUserProjectRole "id-1" userId
      (db (@post_projects libs clash carolCreatesProject world).2) = None.
Proof.
  destruct (@failed_project_creation_may_keep_the_project libs clash carolCreatesProject
              world (@post_projects libs clash carolCreatesProject world).2
              (@post_projects libs clash carolCreatesProject world).1)
    as [Hsame|(_ & Hres & user & p & _ & _ & _ & _ & Hw' & Hrole)].
  - vm_compute. reflexivity.
  - vm_compute. lia.
  - exfalso. apply (f_equal (λ w, length (projects (db w)))) in Hsame.
    vm_compute in Hsame. discriminate.
  - split; [rewrite Hres; reflexivity|]. split; [vm_compute; reflexivity|].
    apply Hrole. exact store_members_reference_projects.
Defined.

Lemma task_set_Throw body :
  (∃ label, body !! "status" = Some (JStr label) ∧ taskStatusEnum label = None) ∨
  (∃ label, body !! "priority" = Some (JStr label) ∧ taskPriorityEnum label = None) →
  ∃ err, task_set (stripTask body) = Throw err.
Proof.
  unfold task_set, stripTask. intros Hbad.
  destruct (col_varchar 200 "title" _) as [title|err]; [|eexists; reflexivity].
  destruct (col_string "description" _) as [description|err]; [|eexists; reflexivity].
  simpl. unfold col_enum. rewrite !lookup_delete_ne by discriminate.
  destruct Hbad as [(label & -> & ->)|(label & -> & ->)].
  - eexists. reflexivity.
  - destruct (body !! "status") as [[|s]|]; simpl;
      try destruct (taskStatusEnum s); simpl; eexists; reflexivity.
Qed.

Lemma update_rows_Throw {R} hit (f : R → outcome R) (rows : list R) r :
  r ∈ rows → hit r = true → (∀ r, hit r = true → ∃ err, f r = Throw err) →
  ∃ err, update_rows hit f rows = Throw err.
Proof.
  intros Hin Hhit Hf. induction rows as [|r0 rows IH]; [inversion Hin|].
  simpl. destruct (hit r0) eqn:Hhit0.
  - destruct (Hf r0 Hhit0) as [err ->]. exists err. reflexivity.
  - apply elem_of_cons in Hin as [->|Hin]; [congruence|].
    destruct (IH Hin) as [err ->]. exists err. reflexivity.
Qed.

(** X18. The update routes validate nothing themselves: a PATCH by a member
    whose body carries a status or a priority that is no label of the enum,
    or [null] for the title, reaches the database, is refused there, and is
    answered 500 "Failed to update task"; nothing changes. *)
Theorem patch_refuses_values_outside_the_schema `{Libs} (e : Env) (req : Req.t) (w : World)
    (user : Claims) (task : TaskWithDetails) (role : MemberRole) :
  caller e req = Some user →
  getTask (Req.taskId req) (db w) = Some task →
  getUserProjectRole (Req.projectId req) (claims_id user) (db w) = Some role →
  (∃ label, Req.body req !! "status" = Some (JStr label) ∧ taskStatusEnum label = None) ∨
  (∃ label, Req.body req !! "priority" = Some (JStr label) ∧ taskPriorityEnum label = None) ∨
  Req.body req !! "title" = Some JNull →
  patch_project_task e req w = (mkResponse 500 (Message "Failed to update task"), w).
Proof.
  intros Hcaller Htask Hrole Hbad.
  rewrite (patch_served_for_member_of_url_project e req w user task role Hcaller Htask Hrole).
  glue.
  assert (∃ err, updateTask e (Req.taskId req) (stripTask (Req.body req)) (db w) =
                 (Throw err, db w)) as [err ->].
  { unfold updateTask.
    destruct Hbad as [Hbad|[Hbad|Htitle]];
      [destruct (task_set_Throw (Req.body req) (or_introl Hbad)) as [err ->];
       exists err; reflexivity
      |destruct (task_set_Throw (Req.body req) (or_intror Hbad)) as [err ->];
       exists err; reflexivity|].
    destruct (task_set (stripTask (Req.body req))) as [set|err] eqn:Hset;
      [|exists err; reflexivity]. simpl.
    apply getTask_row in Htask as [Hin Hid].
    destruct (update_rows_Throw (λ t, bool_decide (Task.id t = Req.taskId req))
                (task_apply (db w) e set) (tasks (db w)) (twd_row task) Hin) as [err ->].
    - apply bool_decide_eq_true. exact Hid.
    - intros t _.
      assert (TaskSet.title set = Some None) as Hnull.
      { unfold task_set in Hset. bind_inv Hset. inversion Hset; subst; clear Hset.
        simpl.
        match goal with
        | Hc : col_varchar 200 "title" _ = Ok _ |- _ =>
          unfold col_varchar, stripTask in Hc;
          rewrite !lookup_delete_ne in Hc by discriminate;
          rewrite Htitle in Hc; inversion Hc; reflexivity
        end. }
      unfold task_apply. rewrite Hnull.
      destruct (notNull (Task.id t) _); simpl; eexists; reflexivity.
    - exists err. reflexivity. }
  rewrite World_eta. reflexivity.
Qed.

Lemma patch_refuses_values_outside_the_schema_witness :
  @patch_project_task libs env carolPatchesBadStatus world =
    (mkResponse 500 (Message "Failed to update task"), world).
Proof.
  apply (@patch_refuses_values_outside_the_schema libs env carolPatchesBadStatus world
           (mkClaims "u-carol" "carol@x.com")
           (mkTWD writeSpec (Some alice) (Some alice) (Some sprint1)) member).
  - vm_compute. reflexivity.
  - vm_compute. reflexivity.
  - vm_compute. reflexivity.
  - left. exists "blocked". split; vm_compute; reflexivity.
Defined.

(** ** The lists of tasks and projects *)

#[global] Instance desc_createdAt_total : Total desc_createdAt.
Proof. intros a b. unfold desc_createdAt. lia. Qed.
#[global] Instance desc_createdAt_trans : Transitive desc_createdAt.
Proof. intros a b c. unfold desc_createdAt. lia. Qed.
#[global] Instance desc_updatedAt_total : Total desc_updatedAt.
Proof. intros a b. unfold desc_updatedAt. lia. Qed.
#[global] Instance desc_updatedAt_trans : Transitive desc_updatedAt.
Proof. intros a b c. unfold desc_updatedAt. lia. Qed.

Lemma fmap_filter_comm {A B} (g : A → B) (P : B → Prop) `{∀ y, Decision (P y)} (l : list A) :
  g <$> filter (λ x, P (g x)) l = filter P (g <$> l).
Proof.
  induction l as [|x l IH]; [reflexivity|].
  rewrite fmap_cons, !filter_cons. destruct (decide (P (g x))); [rewrite fmap_cons|];
    rewrite IH; reflexivity.
Qed.

(** Under a unique key at most one row satisfies a condition that fixes the
    key. *)
Lemma filter_unique {A B} (f : A → B) (P : A → Prop) `{∀ x, Decision (P x)} (l : list A) :
  NoDup (f <$> l) →
  (∀ x y, P x → P y → f x = f y) →
  (length (filter P l) ≤ 1)%nat.
Proof.
  intros Hnd Hkey. apply (NoDup_fmap_filter f P) in Hnd.
  destruct (filter P l) as [|x [|y k]] eqn:Hf; simpl; try lia.
  exfalso. rewrite !fmap_cons in Hnd. apply NoDup_cons in Hnd as [Hx _]. apply Hx.
  assert (x ∈ filter P l ∧ y ∈ filter P l) as [Hx' Hy'].
  { rewrite Hf. split; [left|right; left]. }
  apply list_elem_of_filter in Hx' as [Hx' _]. apply list_elem_of_filter in Hy' as [Hy' _].
  rewrite (Hkey x y Hx' Hy'). left.
Qed.

(** A left join on a unique key of the right table has one row for each
    row of the left table, in order. *)
Lemma leftJoin_fst {A B} (on : A → B → bool) (l : list A) (r : list B) :
  (∀ a, a ∈ l → (length (filter (λ b, on a b) r) ≤ 1)%nat) →
  fst <$> leftJoin on l r = l.
Proof.
  unfold leftJoin. induction l as [|a l IH]; [reflexivity|]. intros Hone.
  rewrite bind_cons, fmap_app, IH by (intros a0 Ha0; apply Hone; right; exact Ha0).
  specialize (Hone a ltac:(left)).
  destruct (filter (λ b, on a b) r) as [|b [|b' bs]]; simpl in *; try reflexivity. lia.
Qed.

Lemma tasksJoined_rows s :
  NoDup (User.id <$> users s) → NoDup (Project.id <$> projects s) →
  (λ j, j.1.1) <$> tasksJoined s = tasks s.
Proof.
  intros Hu Hp. unfold tasksJoined.
  change (λ j : Task.t * option User.t * option Project.t, j.1.1) with
    (fst ∘ (fst : Task.t * option User.t * option Project.t → Task.t * option User.t)).
  rewrite list_fmap_compose.
  rewrite leftJoin_fst.
  - apply leftJoin_fst. intros t _.
    apply (filter_unique User.id); [exact Hu|].
    intros u u' Hx Hy. apply bool_decide_unpack in Hx, Hy. congruence.
  - intros tu _.
    apply (filter_unique Project.id); [exact Hp|].
    intros p p' Hx Hy. apply bool_decide_unpack in Hx, Hy. congruence.
Qed.

(** The rows of a sorted, filtered selection of joined tasks. *)
Lemma sorted_details_rows s (P : Task.t → Prop) `{∀ t, Decision (P t)}
    (Q : (Task.t * option User.t) * option Project.t → Prop) `{∀ j, Decision (Q j)} :
  (∀ j, Q j ↔ P j.1.1) →
  NoDup (User.id <$> users s) → NoDup (Project.id <$> projects s) →
  twd_row <$> (withDetails s <$> merge_sort desc_createdAt (filter Q (tasksJoined s))) ≡ₚ
  filter P (tasks s).
Proof.
  intros HQ Hu Hp. rewrite <- list_fmap_compose.
  change (twd_row ∘ withDetails s) with
    (λ j : Task.t * option User.t * option Project.t, j.1.1).
  rewrite merge_sort_Permutation.
  rewrite (list_filter_iff Q (λ j, P j.1.1)) by exact HQ.
  rewrite (fmap_filter_comm (λ j : Task.t * option User.t * option Project.t, j.1.1) P).
  rewrite tasksJoined_rows by assumption. reflexivity.
Qed.

Lemma sorted_details_sorted s (P : (Task.t * option User.t) * option Project.t → Prop)
    `{∀ j, Decision (P j)} :
  StronglySorted newest_first
    (withDetails s <$> merge_sort desc_createdAt (filter P (tasksJoined s))).
Proof.
  apply (StronglySorted_fmap _ desc_createdAt); [intros a b Hab; exact Hab|].
  apply StronglySorted_merge_sort; apply _.
Qed.

(** X19. In every world the server reaches, [GET /api/my-tasks] lists each task
    assigned to the caller once, in whatever project it is (membership is
    not looked at), and [GET /api/projects/:projectId/tasks] lists each task
    of the project once, for a member; both lists are sorted newest
    first. *)
Theorem task_lists_are_filtered_and_sorted `{Libs} (e : Env) (req : Req.t) (w : World)
    (user : Claims) :
  reachable w →
  caller e req = Some user →
  (∃ mine,
     get_my_tasks e req w = (mkResponse 200 (TasksJson mine), w) ∧
     twd_row <$> mine ≡ₚ
       filter (λ t, Task.assigneeId t = Some (claims_id user)) (tasks (db w)) ∧
     StronglySorted newest_first mine) ∧
  (is_Some (getUserProjectRole (Req.projectId req) (claims_id user) (db w)) →
   ∃ listed,
     get_project_tasks e req w = (mkResponse 200 (TasksJson listed), w) ∧
     twd_row <$> listed ≡ₚ
       filter (λ t, Task.projectId t = Req.projectId req) (tasks (db w)) ∧
     StronglySorted newest_first listed).
Proof.
  intros Hw Hcaller.
  pose proof (ok_project_ids _ (reachable_store_ok _ Hw)) as Hp.
  pose proof (wf_user_ids _ (reachable_store_wf _ Hw)) as Hu.
  split.
  - exists (getUserTasks (claims_id user) (db w)). split; [|split].
    + unfold get_my_tasks. rewrite (authenticateToken_caller _ _ _ _ _ Hcaller). reflexivity.
    + apply (sorted_details_rows (db w) (λ t, Task.assigneeId t = Some (claims_id user)));
        [reflexivity|assumption..].
    + apply sorted_details_sorted.
  - intros [role Hrole]. exists (getProjectTasks (Req.projectId req) (db w)).
    split; [|split].
    + unfold get_project_tasks. rewrite (authenticateToken_caller _ _ _ _ _ Hcaller).
      unfold checkProjectPermission. rewrite Hrole. reflexivity.
    + apply (sorted_details_rows (db w) (λ t, Task.projectId t = Req.projectId req));
        [reflexivity|assumption..].
    + apply sorted_details_sorted.
Qed.

Lemma task_lists_are_filtered_and_sorted_witness :
  ∃ mine,
    @get_my_tasks libs env bobListsTasks final = (mkResponse 200 (TasksJson mine), final) ∧
    twd_row <$> mine ≡ₚ filter (λ t, Task.assigneeId t = Some "u-b") (tasks (db final)) ∧
    StronglySorted newest_first mine.
Proof.
  apply (proj1 (@task_lists_are_filtered_and_sorted libs env bobListsTasks final
                  (mkClaims "u-b" "bob@x.com") final_reachable
                  ltac:(vm_compute; reflexivity))).
Defined.

Lemma member_iff projectId userId s :
  projectId ∈ ProjectMember.projectId <$>
    filter (λ m, ProjectMember.userId m = userId) (projectMembers s) ↔
  is_Some (getUserProjectRole projectId userId s).
Proof.
  unfold getUserProjectRole. split.
  - intros Hin. apply list_elem_of_fmap in Hin as (m & Hpid & Hm).
    apply list_elem_of_filter in Hm as [Huid Hm].
    destruct (head_filter_is_Some
                (λ m, ProjectMember.projectId m = projectId ∧ ProjectMember.userId m = userId)
                (projectMembers s) m Hm) as [m' ->]; [split; [symmetry|]; assumption|].
    eexists. reflexivity.
  - intros [role Hrole]. destruct (head _) as [m|] eqn:Hh; [|discriminate].
    apply head_filter_Some in Hh as (Hm & Hpid & Huid).
    apply list_elem_of_fmap. exists m. split; [symmetry; exact Hpid|].
    apply list_elem_of_filter. split; assumption.
Qed.

(** X20. [GET /api/projects] lists each project in which the caller holds a
    role once, most recently updated first, each with all the tasks of the
    project. *)
Theorem project_list_is_the_memberships `{Libs} (e : Env) (req : Req.t) (w : World)
    (user : Claims) :
  caller e req = Some user →
  ∃ listed,
    get_projects e req w = (mkResponse 200 (ProjectsJson listed), w) ∧
    pwm_row <$> listed ≡ₚ
      filter (λ p, is_Some (getUserProjectRole (Project.id p) (claims_id user) (db w)))
        (projects (db w)) ∧
    StronglySorted recently_updated_first listed ∧
    Forall (λ pw,
              pwm_tasks pw =
                filter (λ t, Task.projectId t = Project.id (pwm_row pw)) (tasks (db w)))
      listed.
Proof.
  intros Hcaller. exists (getUserProjects (claims_id user) (db w)).
  split; [|split; [|split]].
  - unfold get_projects. rewrite (authenticateToken_caller _ _ _ _ _ Hcaller). reflexivity.
  - unfold getUserProjects.
    rewrite (list_filter_iff
               (λ p, is_Some (getUserProjectRole (Project.id p) (claims_id user) (db w)))
               (λ p, Project.id p ∈
                       ProjectMember.projectId <$>
                         filter (λ m, ProjectMember.userId m = claims_id user)
                           (projectMembers (db w))))
      by (intros p; symmetry; apply member_iff).
    destruct (ProjectMember.projectId <$> _) as [|i ids] eqn:Hids.
    + rewrite filter_nil_not_elem; [reflexivity|]. intros p _ Hin. inversion Hin.
    + rewrite <- list_fmap_compose.
      change (pwm_row ∘ withMembers (db w)) with (@id Project.t).
      rewrite list_fmap_id. apply merge_sort_Permutation.
  - unfold getUserProjects. destruct (ProjectMember.projectId <$> _); [constructor|].
    apply (StronglySorted_fmap _ desc_updatedAt); [intros a b Hab; exact Hab|].
    apply StronglySorted_merge_sort; apply _.
  - unfold getUserProjects. destruct (ProjectMember.projectId <$> _); [constructor|].
    apply Forall_fmap, Forall_forall. intros p _. reflexivity.
Qed.

Lemma project_list_is_the_memberships_witness :
  ∃ listed,
    @get_projects libs env bobListsProjects final =
      (mkResponse 200 (ProjectsJson listed), final) ∧
    pwm_row <$> listed ≡ₚ
      filter (λ p, is_Some (getUserProjectRole (Project.id p) "u-b" (db final)))
        (projects (db final)) ∧
    StronglySorted recently_updated_first listed ∧
    Forall (λ pw,
              pwm_tasks pw =
                filter (λ t, Task.projectId t = Project.id (pwm_row pw)) (tasks (db final)))
      listed.
Proof.
  apply (@project_list_is_the_memberships libs env bobListsProjects final
           (mkClaims "u-b" "bob@x.com")).
  vm_compute. reflexivity.
Defined.

(** ** Events and sockets *)

(** X21. A request publishes at most one event, to every open socket, and only
    when it succeeds; the kind of the event is fixed by the route.
    Registration, login, the GET routes, and the creation and the deletion of
    a project publish nothing. *)
Theorem each_route_publishes_its_event `{Libs} (route : Route) (e : Env) (req : Req.t)
    (w : World) :
  wss_clients (serve route e req w).2 = wss_clients w ∨
  ∃ projectId data,
    route_event route = Some (event_type data) ∧
    (statusCode (serve route e req w).1 < 300)%nat ∧
    wss_clients (serve route e req w).2 =
      broadcast_clients projectId data (wss_clients w).
Proof.
  destruct (serve route e req w) as [res w'] eqn:Hrun. simpl.
  destruct route; simpl in Hrun; routes Hrun;
    try enter Hrun; try (left; reflexivity); glue; explore Hrun; finish Hrun;
    first
      [ left; reflexivity
      | right; eexists _, _; (split; [|split]); [ | |reflexivity]; [reflexivity|lia] ].
Qed.

(** X22. A message received on a socket touches that socket only: the other
    sockets and the number of sockets are as they were, the socket keeps its
    state, and it is written to only when the message is a [join_project],
    which is acknowledged with the [projectId] received.  The message the
    client hook sends when its socket opens is acknowledged with the id the
    hook was given. *)
Theorem socket_message_stays_on_its_socket (clients : list Conn) (i : nat)
    (data : option (gmap string jsval)) :
  length (ws_step clients (ws_message i data)) = length clients ∧
  (∀ j, j ≠ i → ws_step clients (ws_message i data) !! j = clients !! j) ∧
  (∀ ws, clients !! i = Some ws →
     ∃ ws', ws_step clients (ws_message i data) !! i = Some ws' ∧
       readyState ws' = readyState ws ∧
       (ws' = ws ∨
        ∃ message, data = Some message ∧
          message !! "type" = Some (JStr "join_project") ∧
          sent ws' = sent ws ++ [joined_project (message !! "projectId")])) ∧
  (∀ projectId message ws,
     useWebSocket.onopen projectId = [message] → data = Some message →
     clients !! i = Some ws →
     ∃ id, projectId = Some id ∧
       ws_step clients (ws_message i data) !! i =
         Some (mkConn (readyState ws) (sent ws ++ [joined_project (Some (JStr id))]))).
Proof.
  simpl. split; [apply length_alter|]. split; [|split].
  - intros j Hne. apply list_lookup_alter_ne. congruence.
  - intros ws Hws. rewrite list_lookup_alter_eq, Hws. simpl.
    exists (on_message data ws). split; [reflexivity|].
    split; [apply on_message_readyState|].
    unfold on_message. destruct data as [message|]; [|left; reflexivity].
    case_bool_decide as Htype; [|left; reflexivity].
    right. exists message. repeat split. exact Htype.
  - intros projectId message ws Hopen -> Hws. unfold useWebSocket.onopen in Hopen.
    destruct projectId as [id|]; [|discriminate].
    destruct (decide (id = EmptyString)); [discriminate|].
    inversion Hopen; subst; clear Hopen. exists id. split; [reflexivity|].
    rewrite list_lookup_alter_eq, Hws. reflexivity.
Qed.

(** ** The adapter beyond the routes *)

Lemma filter_filter_impl {A} (P Q : A → Prop) `{∀ x, Decision (P x)} `{∀ x, Decision (Q x)}
    (l : list A) :
  (∀ x, P x → Q x) → filter P (filter Q l) = filter P l.
Proof.
  intros Himpl. induction l as [|x l IH]; [reflexivity|].
  rewrite !filter_cons. destruct (decide (Q x)) as [HQ|HQ].
  - rewrite filter_cons. destruct (decide (P x)); rewrite IH; reflexivity.
  - rewrite decide_False by (intros HP; apply HQ, Himpl, HP). exact IH.
Qed.

(** X4. The database does not hold a user to one membership row per
    project: [project_members] has no unique key on the pair (project,
    user), and [addProjectMember] looks for no earlier row.  For a stored
    project and a stored user, two inserts of the pair under two uuids not
    in use are both accepted, whether or not the user was a member before,
    and both rows are stored: the second is accepted although the user
    holds a role by then.  What keeps a user from a second row is only the
    lookup the join handler makes before it calls [addProjectMember]. *)
Theorem addProjectMember_accepts_a_second_row (e e' : Env) (projectId userId : string)
    (s : Store) :
  projectId ∈ Project.id <$> projects s →
  userId ∈ User.id <$> users s →
  uuid1 e ∉ ProjectMember.id <$> projectMembers s →
  uuid1 e' ∉ ProjectMember.id <$> projectMembers s →
  uuid1 e ≠ uuid1 e' →
  ∃ s1 s2,
    addProjectMember e (InsertProjectMember.mk projectId userId (Some member)) s =
      (Ok (ProjectMember.mk (uuid1 e) projectId userId member (now e)), s1) ∧
    is_Some (getUserProjectRole projectId userId s1) ∧
    addProjectMember e' (InsertProjectMember.mk projectId userId (Some member)) s1 =
      (Ok (ProjectMember.mk (uuid1 e') projectId userId member (now e')), s2) ∧
    s2 = mkStore (users s) (projects s)
           (projectMembers s ++
            [ProjectMember.mk (uuid1 e) projectId userId member (now e);
             ProjectMember.mk (uuid1 e') projectId userId member (now e')])
           (tasks s).
Proof.
  intros Hproject Huser Hid Hid' Hne.
  eexists _, _. split; [|split; [|split]].
  - unfold addProjectMember, addMemberRow, statement, projectMembers_constraints,
      references_project, references_user. simpl.
    rewrite (bool_decide_eq_true_2 _ Hid), (bool_decide_eq_true_2 _ Hproject),
      (bool_decide_eq_true_2 _ Huser). simpl. reflexivity.
  - unfold getUserProjectRole. simpl.
    apply fmap_is_Some.
    apply (head_filter_is_Some _ _
             (ProjectMember.mk (uuid1 e) projectId userId member (now e)));
      [apply elem_of_app; right; left|split; reflexivity].
  - unfold addProjectMember, addMemberRow, statement, projectMembers_constraints,
      references_project, references_user. simpl.
    assert (uuid1 e' ∉
            ProjectMember.id <$>
              projectMembers s ++
              [ProjectMember.mk (uuid1 e) projectId userId member (now e)]) as Hid1.
    { rewrite fmap_app. intros Hin. apply elem_of_app in Hin as [Hin|Hin]; [auto|].
      apply list_elem_of_singleton in Hin. simpl in Hin. congruence. }
    rewrite (bool_decide_eq_true_2 _ Hid1), (bool_decide_eq_true_2 _ Hproject),
      (bool_decide_eq_true_2 _ Huser). simpl. reflexivity.
  - rewrite <- app_assoc. reflexivity.
Qed.

(** Bob is given two membership rows in Sprint 1. *)
Lemma addProjectMember_accepts_a_second_row_witness :
  ∃ s1 s2,
    addProjectMember (draws "m-8") (InsertProjectMember.mk "p-1" "u-bob" (Some member)) store =
      (Ok (ProjectMember.mk "m-8" "p-1" "u-bob" member 100), s1) ∧
    is_Some (getUserProjectRole "p-1" "u-bob" s1) ∧
    addProjectMember (draws "m-9") (InsertProjectMember.mk "p-1" "u-bob" (Some member)) s1 =
      (Ok (ProjectMember.mk "m-9" "p-1" "u-bob" member 100), s2) ∧
    s2 = mkStore (users store) (projects store)
           (projectMembers store ++
            [ProjectMember.mk "m-8" "p-1" "u-bob" member 100;
             ProjectMember.mk "m-9" "p-1" "u-bob" member 100])
           (tasks store).
Proof.
  apply (addProjectMember_accepts_a_second_row (draws "m-8") (draws "m-9") "p-1" "u-bob" store).
  - vm_compute. repeat constructor.
  - vm_compute. repeat constructor.
  - vm_compute. absent.
  - vm_compute. absent.
  - discriminate.
Defined.

(** X23. [removeProjectMember] reports whether the user held a role in the
    project; afterwards the user holds none, the role of every other
    (project, user) pair is what it was, and the other tables are
    untouched. *)
Theorem removeProjectMember_removes_one_role (projectId userId : string) (s : Store) :
  (removeProjectMember projectId userId s).1 =
    Ok (bool_decide (is_Some (getUserProjectRole projectId userId s))) ∧
  getUserProjectRole projectId userId (removeProjectMember projectId userId s).2 = None ∧
  (∀ p u, (p, u) ≠ (projectId, userId) →
     getUserProjectRole p u (removeProjectMember projectId userId s).2 =
     getUserProjectRole p u s) ∧
  users (removeProjectMember projectId userId s).2 = users s ∧
  projects (removeProjectMember projectId userId s).2 = projects s ∧
  tasks (removeProjectMember projectId userId s).2 = tasks s.
Proof.
  unfold removeProjectMember, getUserProjectRole. simpl.
  split; [|split; [|split; [|repeat split]]].
  - f_equal. apply bool_decide_ext.
    destruct (filter _ (projectMembers s)) as [|m l]; simpl; split.
    + intros Hne. destruct Hne. reflexivity.
    + intros [x Hx]. discriminate.
    + intros _. eexists. reflexivity.
    + intros _. discriminate.
  - rewrite head_filter_None; [reflexivity|].
    intros m Hm Hhit. apply list_elem_of_filter in Hm as [Hno _]. apply Hno. exact Hhit.
  - intros p u Hne. f_equal. f_equal. apply filter_filter_impl.
    intros m [Hp Hu] [Hp' Hu']. apply Hne. congruence.
Qed.

(** X24. The invite code spells the 8 random bytes, two digits each: reading
    the code back gives the bytes, so two codes are equal exactly when the
    bytes drawn are. *)
Theorem invite_code_spells_its_bytes (e e' : Env) :
  fromHex (generateInviteCode e) = Byte.to_N <$> randomBytes e 8 ∧
  (generateInviteCode e = generateInviteCode e' ↔ randomBytes e 8 = randomBytes e' 8).
Proof.
  unfold generateInviteCode. split; [apply fromHex_toHex|]. split.
  - intros Heq. apply to_N_fmap_inj. rewrite <- !fromHex_toHex, Heq. reflexivity.
  - intros ->. reflexivity.
Qed.

(** ** The client *)

(** X25. The three columns of the board partition the tasks: each task is shown
    once, in the column of its status. *)
Theorem board_columns_partition_the_tasks (tasks : list TaskWithDetails) :
  KanbanBoard.columns ≫= KanbanBoard.getTasksByStatus tasks ≡ₚ tasks ∧
  ∀ task status,
    task ∈ KanbanBoard.getTasksByStatus tasks status ↔
    task ∈ tasks ∧ status = taskStatusLabel (Task.status (twd_row task)).
Proof.
  split.
  - unfold KanbanBoard.columns, KanbanBoard.getTasksByStatus. simpl.
    rewrite app_nil_r.
    induction tasks as [|task tasks IH]; [reflexivity|].
    rewrite !filter_cons.
    destruct (Task.status (twd_row task)); simpl.
    + rewrite IH. reflexivity.
    + rewrite <- Permutation_middle. rewrite IH. reflexivity.
    + rewrite app_assoc, <- Permutation_middle, <- app_assoc. rewrite IH. reflexivity.
  - intros task status. unfold KanbanBoard.getTasksByStatus.
    rewrite list_elem_of_filter. split; intros [H1 H2]; split; auto.
Qed.

Lemma taskStatusLabel_inj a b : taskStatusLabel a = taskStatusLabel b → a = b.
Proof. destruct a, b; simpl; intros Heq; try reflexivity; discriminate. Qed.

Lemma taskPriorityLabel_inj a b : taskPriorityLabel a = taskPriorityLabel b → a = b.
Proof. destruct a, b; simpl; intros Heq; try reflexivity; discriminate. Qed.

(** X26. The statistics of the task pages add up (total = completed + in
    progress + to do); the filters set to "all" show every task, and set to
    a status and a priority show the tasks that have both. *)
Theorem task_statistics_add_up (tasks : list TaskWithDetails) :
  MyTasks.total (MyTasks.taskStats tasks) =
    (MyTasks.completed (MyTasks.taskStats tasks) +
     MyTasks.inProgress (MyTasks.taskStats tasks) +
     MyTasks.todo (MyTasks.taskStats tasks))%nat ∧
  MyTasks.filteredTasks tasks "all" "all" = tasks ∧
  ∀ status priority task,
    task ∈ MyTasks.filteredTasks tasks (taskStatusLabel status) (taskPriorityLabel priority) ↔
    task ∈ tasks ∧ Task.status (twd_row task) = status ∧
    Task.priority (twd_row task) = priority.
Proof.
  split; [|split].
  - unfold MyTasks.taskStats. simpl.
    induction tasks as [|task tasks IH]; [reflexivity|].
    rewrite !filter_cons. destruct (Task.status (twd_row task)); simpl; lia.
  - unfold MyTasks.filteredTasks. apply filter_all. intros task _. exact I.
  - intros status priority task. unfold MyTasks.filteredTasks.
    rewrite list_elem_of_filter. cbv zeta.
    rewrite andb_True, !orb_True, !bool_decide_spec.
    assert (taskStatusLabel status ≠ "all") as Hs by (destruct status; discriminate).
    assert (taskPriorityLabel priority ≠ "all") as Hp by (destruct priority; discriminate).
    split.
    + intros [[[Hall|Hst] [Hall'|Hpr]] Hin]; try contradiction.
      split; [exact Hin|]. split; [apply taskStatusLabel_inj|apply taskPriorityLabel_inj];
        assumption.
    + intros (Hin & <- & <-). split; [|exact Hin]. split; right; reflexivity.
Qed.

(** When each rewritten row is [g] of the row, the table after the update
    is the table before with [g] applied to the selected rows. *)
Lemma update_rows_map {R} hit (f : R → outcome R) (g : R → R) (rows table returning : list R) :
  (∀ r r', f r = Ok r' → r' = g r) →
  update_rows hit f rows = Ok (table, returning) →
  table = (λ r, if hit r then g r else r) <$> rows.
Proof.
  intros Hf. revert table returning.
  induction rows as [|r rows IH]; intros table returning Hup; simpl in Hup.
  - inversion Hup. reflexivity.
  - destruct (hit r) eqn:Hhit.
    + apply outcome_bind_Ok in Hup as (r' & Hr' & Hup).
      apply outcome_bind_Ok in Hup as ([table' returning'] & Hrest & Hup).
      inversion Hup; subst; clear Hup. rewrite fmap_cons, Hhit. simpl.
      rewrite (Hf _ _ Hr'), (IH _ _ Hrest). reflexivity.
    + apply outcome_bind_Ok in Hup as ([table' returning'] & Hrest & Hup).
      inversion Hup; subst; clear Hup. rewrite fmap_cons, Hhit. simpl.
      rewrite (IH _ _ Hrest). reflexivity.
Qed.

Lemma task_set_status status :
  task_set (stripTask {[ "status" := JStr (taskStatusLabel status) ]}) =
  Ok (TaskSet.mk None None None (Some (Some status)) None None None None None).
Proof. destruct status; vm_compute; reflexivity. Qed.

Lemma task_apply_status s e status t t' :
  task_apply s e (TaskSet.mk None None None (Some (Some status)) None None None None None) t
    = Ok t' →
  t' = moved e status t.
Proof.
  unfold task_apply. simpl. intros Happly. bind_inv Happly.
  inversion Happly; subst; clear Happly. reflexivity.
Qed.

(** X27. Dropping a task on a column of another status sends a PATCH whose body
    is the status alone; when the server answers 200, the rows of that id
    have the new status and a new [updatedAt] and every other column, row
    and table is as it was.  Dropping a task on its own column sends
    nothing (the drop yields a request only when the status differs). *)
Theorem dropped_task_changes_status_only `{Libs} (e : Env) (w w' : World) (res : Response)
    (authorization : option string) (projectId : string) (dragged : TaskWithDetails)
    (newStatus : TaskStatus) (route : Route) (req : Req.t) :
  KanbanBoard.handleDrop authorization projectId (Some dragged) (taskStatusLabel newStatus)
    = Some (route, req) →
  serve route e req w = (res, w') →
  statusCode res = 200%nat →
  Task.status (twd_row dragged) ≠ newStatus ∧
  route = PATCH_project_task ∧
  db w' =
    mkStore (users (db w)) (projects (db w)) (projectMembers (db w))
      ((λ t, if bool_decide (Task.id t = Task.id (twd_row dragged))
             then moved e newStatus t else t) <$> tasks (db w)).
Proof.
  unfold KanbanBoard.handleDrop, KanbanBoard.updateTaskMutation. intros Hdrop Hrun Hstatus.
  case_bool_decide as Hne; [|discriminate]. inversion Hdrop; subst; clear Hdrop.
  split; [intros Heq; apply Hne; rewrite Heq; reflexivity|]. split; [reflexivity|].
  simpl in Hrun. unfold patch_project_task in Hrun. authenticated Hrun user Hcaller.
  2: { simpl in Hstatus. destruct Hcode; congruence. }
  simpl in Hrun.
  destruct (getTask _ (db w)) as [task|]; [|finish Hrun; discriminate].
  destruct (getUserProjectRole _ _ _) as [role|]; [|finish Hrun; discriminate].
  destruct (updateTask e _ _ (db w)) as [[[updated|]|err] s'] eqn:Hup;
    finish Hrun; try discriminate.
  unfold updateTask in Hup.
  change (delete "createdBy" (delete "projectId" (delete "id" ?body))) with (stripTask body)
    in Hup.
  rewrite task_set_status in Hup. simpl in Hup.
  destruct (update_rows _ _ _) as [[table returning]|err] eqn:Hrows; inversion Hup; subst.
  f_equal. eapply update_rows_map; [|exact Hrows].
  intros t t'. apply task_apply_status.
Qed.

Lemma dropped_task_changes_status_only_witness :
  Task.status <$> tasks (db final) = [in_progress] ∧
  tasks (db (@serve libs PATCH_project_task env bobMovesTaskToDone final).2) =
    moved env done_ <$> tasks (db final).
Proof.
  split; [vm_compute; reflexivity|].
  destruct (@dropped_task_changes_status_only libs env final
              (@serve libs PATCH_project_task env bobMovesTaskToDone final).2
              (@serve libs PATCH_project_task env bobMovesTaskToDone final).1
              (as_ "u-b" "bob@x.com") "p-1"
              (default (mkTWD writeSpec None None None) (getTask "t-1" (db final)))
              done_ PATCH_project_task bobMovesTaskToDone)
    as (_ & _ & Hdb).
  - vm_compute. reflexivity.
  - vm_compute. reflexivity.
  - vm_compute. reflexivity.
  - rewrite Hdb. vm_compute. reflexivity.
Defined.

(** A role is read off a membership row. *)
Lemma role_is_a_row projectId userId s role :
  getUserProjectRole projectId userId s = Some role →
  ∃ m, m ∈ projectMembers s ∧ ProjectMember.projectId m = projectId ∧
       ProjectMember.userId m = userId.
Proof.
  unfold getUserProjectRole. destruct (head _) as [m|] eqn:Hh; [|discriminate]. intros _.
  apply head_filter_Some in Hh as (Hm & Hp & Hu). exists m. auto.
Qed.

(** X28. In every world the server reaches, a task submitted through the
    dialog is accepted: when the form passes its validation, its title and
    description are texts the database stores (no character U+0000), the
    caller holds a role in the project, the assignee chosen (if any) is a
    stored user and the uuid drawn is not in use, the answer is 201 and the
    task is stored with the title, description, priority and assignee of
    the form, status "todo", in the project of the dialog, created by the
    caller. *)
Theorem task_from_the_modal_is_accepted `{Libs} (e : Env) (w : World) (user : Claims)
    (authorization : option string) (projectId : string)
    (data : CreateTaskModal.CreateTaskFormData) (route : Route) (req : Req.t) :
  reachable w →
  CreateTaskModal.onSubmit authorization projectId data = Some (route, req) →
  text (CreateTaskModal.title data) = true →
  text_opt (CreateTaskModal.description data) = true →
  caller e req = Some user →
  is_Some (getUserProjectRole projectId (claims_id user) (db w)) →
  (∀ a, CreateTaskModal.assigneeId data = Some a → a ≠ EmptyString →
        a ∈ User.id <$> users (db w)) →
  uuid1 e ∉ Task.id <$> tasks (db w) →
  ∃ priority,
    taskPriorityEnum (CreateTaskModal.priority data) = Some priority ∧
    statusCode (serve route e req w).1 = 201%nat ∧
    tasks (db (serve route e req w).2) =
      tasks (db w) ++
      [ {| Task.id := uuid1 e;
           Task.title := CreateTaskModal.title data;
           Task.description := CreateTaskModal.description data;
           Task.status := todo;
           Task.priority := priority;
           Task.projectId := projectId;
           Task.assigneeId :=
             match CreateTaskModal.assigneeId data with
             | Some a => if decide (a = EmptyString) then None else Some a
             | None => None
             end;
           Task.createdBy := claims_id user;
           Task.createdAt := now e;
           Task.updatedAt := now e |} ].
Proof.
  intros Hw Hsubmit Htext Hdtext Hcaller [role Hrole] Hassignee Hfresh.
  unfold CreateTaskModal.onSubmit in Hsubmit.
  destruct (CreateTaskModal.createTaskSchema data) eqn:Hvalid; [|discriminate].
  inversion Hsubmit; subst; clear Hsubmit.
  unfold CreateTaskModal.createTaskSchema in Hvalid.
  apply andb_true_iff in Hvalid as [Hvalid Hpriority].
  apply andb_true_iff in Hvalid as [Hvalid Hdescription].
  apply andb_true_iff in Hvalid as [_ Htitle].
  apply bool_decide_eq_true in Hpriority as [priority Hpriority].
  exists priority. split; [exact Hpriority|].
  destruct (role_is_a_row _ _ _ _ Hrole) as (m & Hm & Hmp & Hmu).
  pose proof (ok_members _ (reachable_store_ok _ Hw) m Hm) as Hproject.
  pose proof (wf_member_users _ (reachable_store_wf _ Hw) m Hm) as Hcreator.
  rewrite Hmp in Hproject. rewrite Hmu in Hcreator.
  simpl. unfold post_project_tasks.
  rewrite (authenticateToken_caller _ _ _ _ _ Hcaller). glue. simpl. rewrite Hrole.
  assert (insertTaskSchema
            (<["projectId":=JStr projectId]> (CreateTaskModal.payload projectId data)) =
          Ok (InsertTask.mk (CreateTaskModal.title data) (CreateTaskModal.description data)
                None (Some priority) projectId
                match CreateTaskModal.assigneeId data with
                | Some a => if decide (a = EmptyString) then None else Some a
                | None => None
                end)) as ->.
  { set (body := <["projectId":=JStr projectId]> (CreateTaskModal.payload projectId data)).
    assert (body !! "projectId" = Some (JStr projectId)) as Hpid
      by apply lookup_insert_eq.
    assert (body !! "title" = Some (JStr (CreateTaskModal.title data))) as Ht.
    { unfold body, CreateTaskModal.payload.
      rewrite !lookup_insert_ne by discriminate. apply lookup_insert_eq. }
    assert (body !! "priority" = Some (JStr (CreateTaskModal.priority data))) as Hp.
    { unfold body, CreateTaskModal.payload.
      rewrite !lookup_insert_ne by discriminate. apply lookup_insert_eq. }
    assert (body !! "status" = None) as Hs.
    { unfold body, CreateTaskModal.payload. rewrite !lookup_insert_ne by discriminate.
      destruct (CreateTaskModal.description data);
        [apply lookup_singleton_ne; discriminate|apply lookup_empty]. }
    assert (body !! "description" = JStr <$> CreateTaskModal.description data) as Hd.
    { unfold body, CreateTaskModal.payload. rewrite !lookup_insert_ne by discriminate.
      destruct (CreateTaskModal.description data);
        [apply lookup_singleton_eq|apply lookup_empty]. }
    assert (body !! "assigneeId" =
            Some match CreateTaskModal.assigneeId data with
                 | Some a => if decide (a = EmptyString) then JNull else JStr a
                 | None => JNull
                 end) as Ha.
    { unfold body, CreateTaskModal.payload. rewrite lookup_insert_ne by discriminate.
      apply lookup_insert_eq. }
    unfold insertTaskSchema, zod_string_max, zod_string, zod_nullish_string,
      zod_optional_enum.
    rewrite Ht, Hd, Hs, Hp, Hpid, Ha, Hpriority. simpl. rewrite Htitle.
    destruct (CreateTaskModal.description data) as [d|],
      (CreateTaskModal.assigneeId data) as [a|]; simpl;
      try destruct (decide (a = EmptyString)); reflexivity. }
  unfold createTask, statement, tasks_constraints, references_project, references_user.
  simpl. rewrite (varchar_fits _ _ Htitle), Htext, Hdtext, Htitle. simpl.
  rewrite (bool_decide_eq_true_2 _ Hfresh). simpl.
  rewrite (bool_decide_eq_true_2 _ Hproject). simpl.
  assert (match
            match CreateTaskModal.assigneeId data with
            | Some a => if decide (a = EmptyString) then None else Some a
            | None => None
            end
          with
          | Some a => bool_decide (a ∈ User.id <$> users (db w))
          | None => true
          end = true) as ->.
  { destruct (CreateTaskModal.assigneeId data) as [a|]; [|reflexivity].
    destruct (decide (a = EmptyString)); [reflexivity|].
    apply bool_decide_eq_true. apply Hassignee; [reflexivity|assumption]. }
  simpl. rewrite (bool_decide_eq_true_2 _ Hcreator). simpl. split; reflexivity.
Qed.

(** Alice creates a task for Bob through the dialog. *)
Lemma task_from_the_modal_is_accepted_witness :
  statusCode
    (@serve libs POST_project_tasks (draws "t-2")
       (Req.mk (as_ "u-a" "alice@x.com") "p-1" EmptyString
          (CreateTaskModal.payload "p-1"
             (CreateTaskModal.mkData "Review" None "high" (Some "u-b"))))
       final).1 = 201%nat ∧
  tasks (db (@serve libs POST_project_tasks (draws "t-2")
               (Req.mk (as_ "u-a" "alice@x.com") "p-1" EmptyString
                  (CreateTaskModal.payload "p-1"
                     (CreateTaskModal.mkData "Review" None "high" (Some "u-b"))))
               final).2) =
    tasks (db final) ++
    [Task.mk "t-2" "Review" None todo high "p-1" (Some "u-b") "u-a" 100 100].
Proof.
  destruct (@task_from_the_modal_is_accepted libs (draws "t-2") final
              (mkClaims "u-a" "alice@x.com") (as_ "u-a" "alice@x.com") "p-1"
              (CreateTaskModal.mkData "Review" None "high" (Some "u-b"))
              POST_project_tasks
              (Req.mk (as_ "u-a" "alice@x.com") "p-1" EmptyString
                 (CreateTaskModal.payload "p-1"
                    (CreateTaskModal.mkData "Review" None "high" (Some "u-b")))))
    as (priority & Hpriority & Hstatus & Htasks).
  - exact final_reachable.
  - vm_compute. reflexivity.
  - reflexivity.
  - reflexivity.
  - vm_compute. reflexivity.
  - exists owner. vm_compute. reflexivity.
  - intros a Ha _. inversion Ha; subst. vm_compute. apply elem_of_cons. right. left.
  - vm_compute. absent.
  - vm_compute in Hpriority. inversion Hpriority; subst. split; [exact Hstatus|exact Htasks].
Defined.

(** A [PUT] that is answered 200 is one [updateTask] under the stripped
    body, which returned a row. *)
Lemma put_task_updated `{Libs} e req w res w' :
  put_task e req w = (res, w') →
  statusCode res = 200%nat →
  ∃ updated,
    updateTask e (Req.taskId req) (stripTask (Req.body req)) (db w) =
      (Ok (Some updated), db w').
Proof.
  unfold put_task. intros Hrun Hstatus. authenticated Hrun user Hcaller.
  2: { simpl in Hstatus. destruct Hcode; congruence. }
  destruct (getTask _ (db w)) as [task|]; [|finish Hrun; discriminate].
  destruct (getUserProjectRole _ _ _) as [role|]; [|finish Hrun; discriminate].
  destruct (_ && _); [finish Hrun; discriminate|].
  destruct (updateTask e _ _ (db w)) as [[[updated|]|err] s'] eqn:Hup;
    finish Hrun; try discriminate.
  eexists. reflexivity.
Qed.

Lemma task_set_assignee (v : jsval) :
  task_set (stripTask {[ "assigneeId" := v ]}) =
  Ok (TaskSet.mk None None None None None None
        (Some match v with JNull => None | JStr a => Some a end) None None).
Proof.
  destruct (stripTask_absent {[ "assigneeId" := v ]}) as (Hid & Hpid & Hcb).
  assert (∀ k, k ≠ "id" → k ≠ "projectId" → k ≠ "createdBy" →
               stripTask {[ "assigneeId" := v ]} !! k =
               ({[ "assigneeId" := v ]} : gmap string jsval) !! k) as Hkeep.
  { intros k H1 H2 H3. unfold stripTask. rewrite !lookup_delete_ne by congruence.
    reflexivity. }
  unfold task_set, col_enum, col_timestamp, col_text, col_varchar, col_string.
  rewrite Hid, Hpid, Hcb.
  rewrite (Hkeep "status"), (Hkeep "priority"), (Hkeep "createdAt"), (Hkeep "title"),
    (Hkeep "description"), (Hkeep "assigneeId") by discriminate.
  rewrite lookup_singleton_eq, !lookup_singleton_ne by discriminate.
  destruct v; reflexivity.
Qed.

Lemma task_apply_assigned s e a t t' :
  task_apply s e (TaskSet.mk None None None None None None (Some a) None None) t = Ok t' →
  t' = assigned e a t.
Proof.
  unfold task_apply. simpl. intros Happly. bind_inv Happly.
  inversion Happly; subst; clear Happly. reflexivity.
Qed.

(** X29. The two changes a task card sends are [PUT]s of one column.  When one
    is answered 200, the rows of that id have the new status, respectively
    the new assignee, none after "unassign", and a new [updatedAt]; every
    other column, row and table is as it was. *)
Theorem card_changes_one_column `{Libs} (e : Env) (w w' : World) (res : Response)
    (authorization : option string) (task : TaskWithDetails) (route : Route) (req : Req.t) :
  serve route e req w = (res, w') →
  statusCode res = 200%nat →
  (∀ newStatus,
     TaskCard.handleStatusChange authorization task (taskStatusLabel newStatus) = (route, req) →
     db w' =
       mkStore (users (db w)) (projects (db w)) (projectMembers (db w))
         ((λ t, if bool_decide (Task.id t = Task.id (twd_row task))
                then moved e newStatus t else t) <$> tasks (db w))) ∧
  (∀ assigneeId,
     TaskCard.handleAssigneeChange authorization task assigneeId = (route, req) →
     db w' =
       mkStore (users (db w)) (projects (db w)) (projectMembers (db w))
         ((λ t, if bool_decide (Task.id t = Task.id (twd_row task))
                then assigned e (if decide (assigneeId = "unassign") then None
                                 else Some assigneeId) t
                else t) <$> tasks (db w))).
Proof.
  intros Hrun Hstatus. split.
  - intros newStatus Hcard. inversion Hcard; subst; clear Hcard. simpl in Hrun.
    destruct (put_task_updated _ _ _ _ _ Hrun Hstatus) as [updated Hup]. simpl in Hup.
    unfold updateTask in Hup. rewrite task_set_status in Hup. simpl in Hup.
    destruct (update_rows _ _ _) as [[table returning]|err] eqn:Hrows;
      inversion Hup as [[Hr Hdb]].
    f_equal. eapply update_rows_map; [|exact Hrows].
    intros t t'. apply task_apply_status.
  - intros assigneeId Hcard. inversion Hcard; subst; clear Hcard. simpl in Hrun.
    destruct (put_task_updated _ _ _ _ _ Hrun Hstatus) as [updated Hup]. simpl in Hup.
    unfold updateTask in Hup. rewrite task_set_assignee in Hup. simpl in Hup.
    destruct (update_rows _ _ _) as [[table returning]|err] eqn:Hrows;
      inversion Hup as [[Hr Hdb]].
    f_equal. eapply update_rows_map; [|exact Hrows].
    intros t t' Ht. apply task_apply_assigned in Ht. rewrite Ht.
    destruct (decide (assigneeId = "unassign")); reflexivity.
Qed.

Lemma card_changes_one_column_witness :
  tasks (db (@serve libs PUT_task env aliceUnassigns.2 world).2) =
    [assigned env None writeSpec].
Proof.
  pose proof (proj2 (@card_changes_one_column libs env world
                       (@serve libs PUT_task env aliceUnassigns.2 world).2
                       (@serve libs PUT_task env aliceUnassigns.2 world).1
                       (authorizationOf alice)
                       (mkTWD writeSpec (Some alice) (Some alice) (Some sprint1))
                       PUT_task aliceUnassigns.2
                       ltac:(vm_compute; reflexivity) ltac:(vm_compute; reflexivity))
                "unassign" eq_refl) as Hdb.
  rewrite Hdb. vm_compute. reflexivity.
Defined.
